(** * Circuit model of LibrePCB: ComponentInstance, ComponentSignalInstance,
      NetSignal registration and the generic list insert command.

    Shallow embedding of
    - src/libs/librepcb/project/circuit/componentinstance.cpp
    - src/libs/librepcb/project/circuit/componentsignalinstance.cpp
    - src/libs/librepcb/common/fileio/cmd/cmdlistelementinsert.h

    Objects referenced through pointers are kept in the state and addressed
    by identifier: net signals by their UUID in the circuit's net table,
    signal instances by their component-signal UUID in the component's
    signal map.  C++ exceptions are results of an explicit state-passing
    monad: an operation returns its outcome together with the state it
    leaves behind, so partial mutations before a throw stay visible. *)

From Stdlib Require Import Ascii.
From stdpp Require Import base gmap strings list.

(* ------------------------------------------------------------------ *)
(** ** Basic data *)

Definition Uuid := nat.


(** A translated message before formatting: the [tr()] template and the
    arguments passed with [QString::arg].  (The templates below write the
    double quotes of the C++ literals as single quotes.) *)
Record QText := mkQText { q_template : string; q_args : list string }.

(** Exceptions of librepcb/common/exceptions.h: a [LogicError] is a
    contract violation, a [RuntimeError] a recoverable, user-facing error.
    Both carry their (possibly empty) message. *)
Inductive Exc :=
| LogicError (msg : QText)
| RuntimeError (msg : QText).

Definition noMsg : QText := mkQText "" [].

Inductive Result (A : Type) :=
| Ok (a : A)
| Err (e : Exc).
Arguments Ok {A} a.
Arguments Err {A} e.

(** ErcMsg: the two properties the circuit code sets. *)
Record ErcMsg := mkErcMsg { erc_msg : QText; erc_visible : bool }.

(** AttributeList: key/value pairs in order. *)
Definition AttributeList := list (string * string).

Fixpoint attr_find (key : string) (l : AttributeList) : option string :=
  match l with
  | [] => None
  | (k, v) :: l' => if String.eqb k key then Some v else attr_find key l'
  end.

(** Decimal rendering of a count, as [QString::arg(int)]. *)
Fixpoint digits_aux (fuel n : nat) (acc : string) : string :=
  match fuel with
  | O => acc
  | S fuel' =>
      let d := ascii_of_nat (48 + n mod 10) in
      if n <? 10 then String d acc else digits_aux fuel' (n / 10) (String d acc)
  end.
Definition string_of_nat (n : nat) : string := digits_aux (S n) n EmptyString.

(* ------------------------------------------------------------------ *)
(** ** Library elements (read-only during circuit edits) *)

Record LibSignal := mkLibSignal {
  lsig_uuid : Uuid;
  lsig_name : string;
  lsig_required : bool;
  lsig_forced : bool;          (* isNetSignalNameForced() *)
  lsig_forcedName : string     (* getForcedNetName() *)
}.

Record LibSymbVarItem := mkLibSymbVarItem {
  item_uuid : Uuid;
  item_required : bool
}.

Record LibSymbVar := mkLibSymbVar {
  var_uuid : Uuid;
  var_items : list LibSymbVarItem
}.

Record LibComponent := mkLibComponent {
  lcmp_uuid : Uuid;
  lcmp_schematicOnly : bool;
  lcmp_defaultValue : string;
  lcmp_attributes : AttributeList;
  lcmp_signals : list LibSignal;
  lcmp_variants : list LibSymbVar
}.

(* ------------------------------------------------------------------ *)
(** ** Circuit items referencing a component instance *)

Record SymbolPin := mkSymbolPin {
  pin_id : nat;                (* object identity *)
  pin_circuit : nat;
  pin_netpoint : bool          (* getNetPoint() != nullptr *)
}.

Record FootprintPad := mkFootprintPad {
  pad_id : nat;
  pad_circuit : nat;
  pad_used : bool              (* isUsed() *)
}.

Record Symbol := mkSymbol {
  sym_id : nat;
  sym_circuit : nat;
  sym_schematic : nat;         (* getSchematic() *)
  sym_item : Uuid              (* getCompSymbVarItem().getUuid() *)
}.

Record Device := mkDevice {
  dev_id : nat;
  dev_circuit : nat
}.

(* ------------------------------------------------------------------ *)
(** ** Circuit objects *)

(** A component signal instance is identified in a net signal's
    registration list by (component instance UUID, component signal UUID). *)
Definition SigKey := (Uuid * Uuid)%type.

Record NetSignal := mkNetSignal {
  ns_name : string;
  ns_signals : list SigKey     (* mRegisteredComponentSignals *)
}.

Record ComponentSignalInstance := mkCSI {
  si_lib : LibSignal;                  (* mComponentSignal *)
  si_added : bool;                     (* mIsAddedToCircuit *)
  si_net : option Uuid;                (* mNetSignal *)
  si_pins : list SymbolPin;            (* mRegisteredSymbolPins *)
  si_pads : list FootprintPad;         (* mRegisteredFootprintPads *)
  si_ercUnconnected : ErcMsg;          (* mErcMsgUnconnectedRequiredSignal *)
  si_ercForced : ErcMsg                (* mErcMsgForcedNetSignalNameConflict *)
}.

Record ComponentInstance := mkCI {
  ci_circuit : nat;                    (* mCircuit *)
  ci_uuid : Uuid;
  ci_name : string;
  ci_value : string;
  ci_lib : LibComponent;               (* mLibComponent *)
  ci_symbVar : LibSymbVar;             (* mCompSymbVar *)
  ci_attributes : AttributeList;
  ci_added : bool;                     (* mIsAddedToCircuit *)
  ci_signals : gmap Uuid ComponentSignalInstance;   (* mSignals *)
  ci_symbols : gmap Uuid Symbol;       (* mRegisteredSymbols *)
  ci_devices : list Device;            (* mRegisteredDevices *)
  ci_ercReq : ErcMsg;                  (* mErcMsgUnplacedRequiredSymbols *)
  ci_ercOpt : ErcMsg                   (* mErcMsgUnplacedOptionalSymbols *)
}.

(** The part of the project one component instance works on: the
    circuit's net signals and the component instance itself. *)
Record State := mkState {
  st_nets : gmap Uuid NetSignal;       (* Circuit::mNetSignals *)
  st_cmp : ComponentInstance
}.

(* ------------------------------------------------------------------ *)
(** ** State and exception monad *)

Definition M (A : Type) := State -> Result A * State.

Definition ret {A} (a : A) : M A := fun s => (Ok a, s).
Definition throw {A} (e : Exc) : M A := fun s => (Err e, s).
Definition bind {A B} (m : M A) (k : A -> M B) : M B :=
  fun s => match m s with
           | (Ok a, s') => k a s'
           | (Err e, s') => (Err e, s')
           end.
Definition get : M State := fun s => (Ok s, s).
Definition put (s : State) : M unit := fun _ => (Ok tt, s).

Notation "'let!' x := m 'in' k" := (bind m (fun x => k))
  (at level 200, x name, m at level 100, k at level 200).
Notation "'do!' m 'in' k" := (bind m (fun _ => k))
  (at level 200, m at level 100, k at level 200).

(** ScopeGuardList: compensating actions, most recent first.
    Modelled from the spec (scopeguardlist.h is not in src/): when an
    exception escapes before [dismiss()] the actions run in reverse order
    of registration; an action that throws cannot stop the others (they
    run from a destructor), its exception is dropped. *)
Fixpoint sgl_run (sgl : list (M unit)) : State -> State :=
  match sgl with
  | [] => fun s => s
  | g :: gs => fun s => sgl_run gs (snd (g s))
  end.

(** Run [m]; if it throws, run the guards, then rethrow. *)
Definition guarded {A} (sgl : list (M unit)) (m : M A) : M A :=
  fun s => match m s with
           | (Ok a, s') => (Ok a, s')
           | (Err e, s') => (Err e, sgl_run sgl s')
           end.

(* ------------------------------------------------------------------ *)
(** ** NetSignal registration *)

(** Modelled from the spec: NetSignal::registerComponentSignal
    (netsignal.cpp is not in src/).  The net signal tracks the set of
    component signal instances bound to it; registering one that is
    already registered is a conflict and throws, otherwise it is appended. *)
Definition registerComponentSignal (n : Uuid) (k : SigKey) : M unit :=
  fun s => match st_nets s !! n with
           | None => (Err (LogicError noMsg), s)
           | Some ns =>
               if decide (k ∈ ns_signals ns) then (Err (LogicError noMsg), s)
               else (Ok tt, mkState (<[n := mkNetSignal (ns_name ns) (ns_signals ns ++ [k])]> (st_nets s))
                                    (st_cmp s))
           end.

(** Modelled from the spec: NetSignal::unregisterComponentSignal
    (netsignal.cpp is not in src/): removes a registered signal instance
    ([QList::removeOne], first occurrence); throws if it is not registered. *)
Fixpoint removeOne (k : SigKey) (l : list SigKey) : list SigKey :=
  match l with
  | [] => []
  | k' :: l' => if decide (k' = k) then l' else k' :: removeOne k l'
  end.

Definition unregisterComponentSignal (n : Uuid) (k : SigKey) : M unit :=
  fun s => match st_nets s !! n with
           | None => (Err (LogicError noMsg), s)
           | Some ns =>
               if decide (k ∈ ns_signals ns)
               then (Ok tt, mkState (<[n := mkNetSignal (ns_name ns) (removeOne k (ns_signals ns))]> (st_nets s))
                                    (st_cmp s))
               else (Err (LogicError noMsg), s)
           end.

(** Modelled from the spec: NetSignal::setName (netsignal.cpp is not in
    src/): the net signal owns its name; the change is announced with the
    [nameChanged] signal (handled by the circuit steps below). *)
Definition netSignal_setName (n : Uuid) (name : string) (nets : gmap Uuid NetSignal)
  : gmap Uuid NetSignal :=
  match nets !! n with
  | None => nets
  | Some ns => <[n := mkNetSignal name (ns_signals ns)]> nets
  end.

Definition netName (nets : gmap Uuid NetSignal) (n : Uuid) : string :=
  match nets !! n with Some ns => ns_name ns | None => "" end.

(* ------------------------------------------------------------------ *)
(** ** Record updates *)

Definition csi_with_added (sg : ComponentSignalInstance) (b : bool) :=
  mkCSI (si_lib sg) b (si_net sg) (si_pins sg) (si_pads sg) (si_ercUnconnected sg) (si_ercForced sg).
Definition csi_with_net (sg : ComponentSignalInstance) (n : option Uuid) :=
  mkCSI (si_lib sg) (si_added sg) n (si_pins sg) (si_pads sg) (si_ercUnconnected sg) (si_ercForced sg).
Definition csi_with_pins (sg : ComponentSignalInstance) (l : list SymbolPin) :=
  mkCSI (si_lib sg) (si_added sg) (si_net sg) l (si_pads sg) (si_ercUnconnected sg) (si_ercForced sg).
Definition csi_with_pads (sg : ComponentSignalInstance) (l : list FootprintPad) :=
  mkCSI (si_lib sg) (si_added sg) (si_net sg) (si_pins sg) l (si_ercUnconnected sg) (si_ercForced sg).
Definition csi_with_erc (sg : ComponentSignalInstance) (e1 e2 : ErcMsg) :=
  mkCSI (si_lib sg) (si_added sg) (si_net sg) (si_pins sg) (si_pads sg) e1 e2.

Definition ci_with_signals (c : ComponentInstance) (m : gmap Uuid ComponentSignalInstance) :=
  mkCI (ci_circuit c) (ci_uuid c) (ci_name c) (ci_value c) (ci_lib c) (ci_symbVar c)
       (ci_attributes c) (ci_added c) m (ci_symbols c) (ci_devices c) (ci_ercReq c) (ci_ercOpt c).
Definition ci_with_added (c : ComponentInstance) (b : bool) :=
  mkCI (ci_circuit c) (ci_uuid c) (ci_name c) (ci_value c) (ci_lib c) (ci_symbVar c)
       (ci_attributes c) b (ci_signals c) (ci_symbols c) (ci_devices c) (ci_ercReq c) (ci_ercOpt c).
Definition ci_with_symbols (c : ComponentInstance) (m : gmap Uuid Symbol) :=
  mkCI (ci_circuit c) (ci_uuid c) (ci_name c) (ci_value c) (ci_lib c) (ci_symbVar c)
       (ci_attributes c) (ci_added c) (ci_signals c) m (ci_devices c) (ci_ercReq c) (ci_ercOpt c).
Definition ci_with_devices (c : ComponentInstance) (l : list Device) :=
  mkCI (ci_circuit c) (ci_uuid c) (ci_name c) (ci_value c) (ci_lib c) (ci_symbVar c)
       (ci_attributes c) (ci_added c) (ci_signals c) (ci_symbols c) l (ci_ercReq c) (ci_ercOpt c).
Definition ci_with_name (c : ComponentInstance) (n : string) :=
  mkCI (ci_circuit c) (ci_uuid c) n (ci_value c) (ci_lib c) (ci_symbVar c)
       (ci_attributes c) (ci_added c) (ci_signals c) (ci_symbols c) (ci_devices c) (ci_ercReq c) (ci_ercOpt c).
Definition ci_with_value (c : ComponentInstance) (v : string) :=
  mkCI (ci_circuit c) (ci_uuid c) (ci_name c) v (ci_lib c) (ci_symbVar c)
       (ci_attributes c) (ci_added c) (ci_signals c) (ci_symbols c) (ci_devices c) (ci_ercReq c) (ci_ercOpt c).
Definition ci_with_attributes (c : ComponentInstance) (a : AttributeList) :=
  mkCI (ci_circuit c) (ci_uuid c) (ci_name c) (ci_value c) (ci_lib c) (ci_symbVar c)
       a (ci_added c) (ci_signals c) (ci_symbols c) (ci_devices c) (ci_ercReq c) (ci_ercOpt c).
Definition ci_with_erc (c : ComponentInstance) (e1 e2 : ErcMsg) :=
  mkCI (ci_circuit c) (ci_uuid c) (ci_name c) (ci_value c) (ci_lib c) (ci_symbVar c)
       (ci_attributes c) (ci_added c) (ci_signals c) (ci_symbols c) (ci_devices c) e1 e2.

Definition modify_cmp (f : ComponentInstance -> ComponentInstance) : M unit :=
  fun s => (Ok tt, mkState (st_nets s) (f (st_cmp s))).

(* ------------------------------------------------------------------ *)
(** ** ComponentInstance getters used by the signal instances *)

Section Embedding.

(** Project::getAttributeValue (not in src/): the project-level scope of
    the attribute lookup. *)
Variable projectAttributeValue : string -> string -> option string.

(** AttributeProvider::replaceVariablesWithAttributes (not in src/): the
    placeholder substitution collaborator, given the attribute lookup of the
    provider it runs on. *)
Variable replaceVariables : (string -> string -> option string) -> string -> string.

(** ComponentInstance::getAttributeValue *)
Definition cmp_getAttributeValue (c : ComponentInstance) (attrNS attrKey : string)
  (passToParents : bool) : option string :=
  let own :=
    if String.eqb attrNS "CMP" || String.eqb attrNS "" then
      if String.eqb attrKey "NAME" then Some (ci_name c)
      else if String.eqb attrKey "VALUE" then Some (ci_value c)
      else attr_find attrKey (ci_attributes c)
    else None in
  match own with
  | Some v => Some v
  | None => if negb (String.eqb attrNS "CMP") && passToParents
            then projectAttributeValue attrNS attrKey else None
  end.

(** ComponentInstance::replaceVariablesWithAttributes(text, false) *)
Definition cmp_replaceVariables (c : ComponentInstance) (text : string) : string :=
  replaceVariables (fun ns key => cmp_getAttributeValue c ns key false) text.

(* ------------------------------------------------------------------ *)
(** ** ComponentSignalInstance *)

(** ComponentSignalInstance::getForcedNetSignalName *)
Definition csi_getForcedNetSignalName (c : ComponentInstance) (sg : ComponentSignalInstance) : string :=
  cmp_replaceVariables c (lsig_forcedName (si_lib sg)).

(** ComponentSignalInstance::getRegisteredElementsCount *)
Definition csi_getRegisteredElementsCount (sg : ComponentSignalInstance) : nat :=
  length (si_pins sg) + length (si_pads sg).

(** Modelled from the spec: ComponentSignalInstance::isUsed (declared in
    componentsignalinstance.h, not in src/): a signal instance is in use
    while pins or pads are connected to it, i.e. registered with it. *)
Definition csi_isUsed (sg : ComponentSignalInstance) : bool :=
  0 <? csi_getRegisteredElementsCount sg.

(** ComponentSignalInstance::arePinsOrPadsUsed *)
Definition csi_arePinsOrPadsUsed (sg : ComponentSignalInstance) : bool :=
  existsb pin_netpoint (si_pins sg) || existsb pad_used (si_pads sg).

(** ComponentSignalInstance::updateErcMessages *)
Definition csi_updateErcMessages (nets : gmap Uuid NetSignal) (c : ComponentInstance)
  (sg : ComponentSignalInstance) : ComponentSignalInstance :=
  let forced := csi_getForcedNetSignalName c sg in
  let unconnected :=
    mkErcMsg (mkQText "Unconnected component signal: '%1' from '%2'"
                      [lsig_name (si_lib sg); ci_name c])
             (si_added sg && match si_net sg with Some _ => false | None => true end && lsig_required (si_lib sg)) in
  let conflict :=
    mkErcMsg (mkQText "Signal name conflict: '%1' != '%2' ('%3' from '%4')"
                      [match si_net sg with Some n => netName nets n | None => "" end;
                       forced; lsig_name (si_lib sg); ci_name c])
             (si_added sg && lsig_forced (si_lib sg)
              && match si_net sg with
                 | Some n => negb (String.eqb forced (netName nets n))
                 | None => false
                 end) in
  csi_with_erc sg unconnected conflict.

Definition sigKey (c : ComponentInstance) (u : Uuid) : SigKey := (ci_uuid c, u).

(** The signal instance object behind a pointer of the component. *)
Definition csi_get (u : Uuid) : M ComponentSignalInstance :=
  fun s => match ci_signals (st_cmp s) !! u with
           | Some sg => (Ok sg, s)
           | None => (Err (LogicError noMsg), s)
           end.

Definition csi_put (u : Uuid) (sg : ComponentSignalInstance) : M unit :=
  modify_cmp (fun c => ci_with_signals c (<[u := sg]> (ci_signals c))).

(** A call of [updateErcMessages()] on signal instance [u] (noexcept). *)
Definition csi_update (u : Uuid) : M unit :=
  fun s => match ci_signals (st_cmp s) !! u with
           | Some sg => csi_put u (csi_updateErcMessages (st_nets s) (st_cmp s) sg) s
           | None => (Ok tt, s)
           end.

Definition cmp_get : M ComponentInstance := fun s => (Ok (st_cmp s), s).

(** ComponentSignalInstance::setNetSignal *)
Definition csi_setNetSignal (u : Uuid) (netsignal : option Uuid) : M unit :=
  let! sg := csi_get u in
  let! c := cmp_get in
  let key := sigKey c u in
  if decide (netsignal = si_net sg) then ret tt else
  if negb (si_added sg) then throw (LogicError noMsg) else
  if csi_arePinsOrPadsUsed sg then
    throw (LogicError (mkQText "The net signal of the component signal '%1:%2' cannot be changed because it is still in use!"
                               [ci_name c; lsig_name (si_lib sg)]))
  else
  let! sgl := match si_net sg with
              | Some old => do! unregisterComponentSignal old key in
                            ret [registerComponentSignal old key]
              | None => ret []
              end in
  let! sgl := match netsignal with
              | Some nw => do! guarded sgl (registerComponentSignal nw key) in
                           ret (unregisterComponentSignal nw key :: sgl)
              | None => ret sgl
              end in
  let! sg := csi_get u in
  do! csi_put u (csi_with_net sg netsignal) in
  csi_update u.

(** ComponentSignalInstance::addToCircuit *)
Definition csi_addToCircuit (u : Uuid) : M unit :=
  let! sg := csi_get u in
  let! c := cmp_get in
  if si_added sg || csi_isUsed sg then throw (LogicError noMsg) else
  do! match si_net sg with
      | Some n => registerComponentSignal n (sigKey c u)
      | None => ret tt
      end in
  do! csi_put u (csi_with_added sg true) in
  csi_update u.

(** ComponentSignalInstance::removeFromCircuit *)
Definition csi_removeFromCircuit (u : Uuid) : M unit :=
  let! sg := csi_get u in
  let! c := cmp_get in
  if negb (si_added sg) then throw (LogicError noMsg) else
  if csi_isUsed sg then
    throw (RuntimeError (mkQText "The component '%1' cannot be removed because it is still in use!"
                                 [ci_name c]))
  else
  do! match si_net sg with
      | Some n => unregisterComponentSignal n (sigKey c u)
      | None => ret tt
      end in
  do! csi_put u (csi_with_added sg false) in
  csi_update u.

(** ComponentSignalInstance::registerSymbolPin / unregisterSymbolPin *)
Definition csi_registerSymbolPin (u : Uuid) (pin : SymbolPin) : M unit :=
  let! sg := csi_get u in
  let! c := cmp_get in
  if negb (si_added sg) || negb (pin_circuit pin =? ci_circuit c)
     || existsb (fun p => pin_id p =? pin_id pin) (si_pins sg)
  then throw (LogicError noMsg)
  else csi_put u (csi_with_pins sg (si_pins sg ++ [pin])).

Fixpoint removeOne_by {A} (id : A -> nat) (x : nat) (l : list A) : list A :=
  match l with
  | [] => []
  | y :: l' => if id y =? x then l' else y :: removeOne_by id x l'
  end.

Definition csi_unregisterSymbolPin (u : Uuid) (pin : SymbolPin) : M unit :=
  let! sg := csi_get u in
  if negb (si_added sg) || negb (existsb (fun p => pin_id p =? pin_id pin) (si_pins sg))
  then throw (LogicError noMsg)
  else csi_put u (csi_with_pins sg (removeOne_by pin_id (pin_id pin) (si_pins sg))).

(** ComponentSignalInstance::registerFootprintPad / unregisterFootprintPad *)
Definition csi_registerFootprintPad (u : Uuid) (pad : FootprintPad) : M unit :=
  let! sg := csi_get u in
  let! c := cmp_get in
  if negb (si_added sg) || negb (pad_circuit pad =? ci_circuit c)
     || existsb (fun p => pad_id p =? pad_id pad) (si_pads sg)
  then throw (LogicError noMsg)
  else csi_put u (csi_with_pads sg (si_pads sg ++ [pad])).

Definition csi_unregisterFootprintPad (u : Uuid) (pad : FootprintPad) : M unit :=
  let! sg := csi_get u in
  if negb (si_added sg) || negb (existsb (fun p => pad_id p =? pad_id pad) (si_pads sg))
  then throw (LogicError noMsg)
  else csi_put u (csi_with_pads sg (removeOne_by pad_id (pad_id pad) (si_pads sg))).

(* ------------------------------------------------------------------ *)
(** ** ComponentInstance *)

Definition cmp_isRegisteredItem (c : ComponentInstance) (u : Uuid) : bool :=
  bool_decide (is_Some (ci_symbols c !! u)).

(** ComponentInstance::getUnplacedRequiredSymbolsCount: the loop over the
    symbol variant's items with its counter. *)
Definition cmp_getUnplacedRequiredSymbolsCount (c : ComponentInstance) : nat :=
  fold_left (fun count item =>
               if item_required item && negb (cmp_isRegisteredItem c (item_uuid item))
               then count + 1 else count)
            (var_items (ci_symbVar c)) 0.

(** ComponentInstance::getUnplacedOptionalSymbolsCount *)
Definition cmp_getUnplacedOptionalSymbolsCount (c : ComponentInstance) : nat :=
  fold_left (fun count item =>
               if negb (item_required item) && negb (cmp_isRegisteredItem c (item_uuid item))
               then count + 1 else count)
            (var_items (ci_symbVar c)) 0.

(** ComponentInstance::getRegisteredElementsCount *)
Definition cmp_getRegisteredElementsCount (c : ComponentInstance) : nat :=
  size (ci_symbols c) + length (ci_devices c).

(** The signal instances in the iteration order of [foreach (... mSignals)]. *)
Definition cmp_signalUuids (c : ComponentInstance) : list Uuid :=
  map fst (map_to_list (ci_signals c)).

(** ComponentInstance::isUsed *)
Definition cmp_isUsed (c : ComponentInstance) : bool :=
  (0 <? cmp_getRegisteredElementsCount c)
  || existsb (fun p => csi_isUsed (snd p)) (map_to_list (ci_signals c)).

(** ComponentInstance::updateErcMessages *)
Definition cmp_updateErcMessages (c : ComponentInstance) : ComponentInstance :=
  let required := cmp_getUnplacedRequiredSymbolsCount c in
  let optional := cmp_getUnplacedOptionalSymbolsCount c in
  ci_with_erc c
    (mkErcMsg (mkQText "Unplaced required symbols of component '%1': %2"
                       [ci_name c; string_of_nat required])
              (ci_added c && (0 <? required)))
    (mkErcMsg (mkQText "Unplaced optional symbols of component '%1': %2"
                       [ci_name c; string_of_nat optional])
              (ci_added c && (0 <? optional))).

Definition cmp_update : M unit := modify_cmp cmp_updateErcMessages.

(** The [attributesChanged] signal of the component: every signal instance
    connected to it runs its [updateErcMessages] slot. *)
Fixpoint csi_updateAll (us : list Uuid) : M unit :=
  match us with
  | [] => ret tt
  | u :: us' => do! csi_update u in csi_updateAll us'
  end.

Definition cmp_emitAttributesChanged : M unit :=
  let! c := cmp_get in csi_updateAll (cmp_signalUuids c).

(** The loop of ComponentInstance::addToCircuit with its ScopeGuardList. *)
Fixpoint cmp_addSignals (us : list Uuid) (sgl : list (M unit)) : M (list (M unit)) :=
  match us with
  | [] => ret sgl
  | u :: us' =>
      do! guarded sgl (csi_addToCircuit u) in          (* can throw *)
      cmp_addSignals us' (csi_removeFromCircuit u :: sgl)
  end.

(** ComponentInstance::addToCircuit *)
Definition cmp_addToCircuit : M unit :=
  let! c := cmp_get in
  if ci_added c || cmp_isUsed c then throw (LogicError noMsg) else
  let! sgl := cmp_addSignals (cmp_signalUuids c) [] in
  do! modify_cmp (fun c => ci_with_added c true) in
  cmp_update.                                         (* sgl.dismiss() *)

(** The loop of ComponentInstance::removeFromCircuit. *)
Fixpoint cmp_removeSignals (us : list Uuid) (sgl : list (M unit)) : M (list (M unit)) :=
  match us with
  | [] => ret sgl
  | u :: us' =>
      do! guarded sgl (csi_removeFromCircuit u) in     (* can throw *)
      cmp_removeSignals us' (csi_addToCircuit u :: sgl)
  end.

(** ComponentInstance::removeFromCircuit *)
Definition cmp_removeFromCircuit : M unit :=
  let! c := cmp_get in
  if negb (ci_added c) then throw (LogicError noMsg) else
  if cmp_isUsed c then
    throw (RuntimeError (mkQText "The component '%1' cannot be removed because it is still in use!"
                                 [ci_name c]))
  else
  let! sgl := cmp_removeSignals (cmp_signalUuids c) [] in
  do! modify_cmp (fun c => ci_with_added c false) in
  cmp_update.

(** ComponentInstance::registerSymbol *)
Definition cmp_registerSymbol (symbol : Symbol) : M unit :=
  let! c := cmp_get in
  if negb (ci_added c) || negb (sym_circuit symbol =? ci_circuit c) then throw (LogicError noMsg) else
  let itemUuid := sym_item symbol in
  if negb (existsb (fun it => item_uuid it =? itemUuid) (var_items (ci_symbVar c))) then
    throw (RuntimeError (mkQText "Invalid symbol item in circuit: '%1'." [string_of_nat itemUuid]))
  else if cmp_isRegisteredItem c itemUuid then
    throw (RuntimeError (mkQText "Symbol item UUID already exists in circuit: '%1'." [string_of_nat itemUuid]))
  else
  let! _ := match map_to_list (ci_symbols c) with      (* mRegisteredSymbols.values().first() *)
            | (_, first) :: _ =>
                if negb (sym_schematic symbol =? sym_schematic first) then
                  throw (RuntimeError (mkQText "All symbols of a component must be placed in the same schematic." []))
                else ret tt
            | [] => ret tt
            end in
  do! modify_cmp (fun c => ci_with_symbols c (<[itemUuid := symbol]> (ci_symbols c))) in
  cmp_update.

(** ComponentInstance::unregisterSymbol *)
Definition cmp_unregisterSymbol (symbol : Symbol) : M unit :=
  let! c := cmp_get in
  let itemUuid := sym_item symbol in
  match ci_symbols c !! itemUuid with
  | Some registered =>
      if negb (ci_added c) || negb (sym_id symbol =? sym_id registered) then throw (LogicError noMsg)
      else do! modify_cmp (fun c => ci_with_symbols c (delete itemUuid (ci_symbols c))) in
           cmp_update
  | None => throw (LogicError noMsg)
  end.

(** ComponentInstance::registerDevice *)
Definition cmp_registerDevice (device : Device) : M unit :=
  let! c := cmp_get in
  if negb (ci_added c) || negb (dev_circuit device =? ci_circuit c)
     || existsb (fun d => dev_id d =? dev_id device) (ci_devices c)
     || lcmp_schematicOnly (ci_lib c)
  then throw (LogicError noMsg)
  else do! modify_cmp (fun c => ci_with_devices c (ci_devices c ++ [device])) in
       cmp_update.

(** ComponentInstance::unregisterDevice *)
Definition cmp_unregisterDevice (device : Device) : M unit :=
  let! c := cmp_get in
  if negb (ci_added c) || negb (existsb (fun d => dev_id d =? dev_id device) (ci_devices c))
  then throw (LogicError noMsg)
  else do! modify_cmp (fun c => ci_with_devices c (removeOne_by dev_id (dev_id device) (ci_devices c))) in
       cmp_update.

(** ComponentInstance::setName *)
Definition cmp_setName (name : string) : M unit :=
  let! c := cmp_get in
  if String.eqb name (ci_name c) then ret tt else
  if String.eqb name "" then
    throw (RuntimeError (mkQText "The new component name must not be empty!" []))
  else
  do! modify_cmp (fun c => ci_with_name c name) in
  do! cmp_update in
  cmp_emitAttributesChanged.

(** ComponentInstance::setValue *)
Definition cmp_setValue (value : string) : M unit :=
  let! c := cmp_get in
  if String.eqb value (ci_value c) then ret tt else
  do! modify_cmp (fun c => ci_with_value c value) in
  cmp_emitAttributesChanged.

(** ComponentInstance::setAttributes *)
Definition cmp_setAttributes (attributes : AttributeList) : M unit :=
  let! c := cmp_get in
  if decide (attributes = ci_attributes c) then ret tt else
  do! modify_cmp (fun c => ci_with_attributes c attributes) in
  cmp_emitAttributesChanged.

(* ------------------------------------------------------------------ *)
(** ** Construction *)

(** An ErcMsg as created in [init()]: empty text, not visible. *)
Definition ercMsg_new : ErcMsg := mkErcMsg noMsg false.

(** ComponentSignalInstance(circuit, cmpInstance, cmpSignal, netsignal)
    with [init()]: the ERC messages are created and updated. *)
Definition csi_new (nets : gmap Uuid NetSignal) (c : ComponentInstance) (ls : LibSignal)
  (netsignal : option Uuid) : ComponentSignalInstance :=
  csi_updateErcMessages nets c (mkCSI ls false netsignal [] [] ercMsg_new ercMsg_new).

(** Modelled from the spec: the XML node of a signal map entry (the
    DomElement reader is not in src/).  [sm_comp_signal] is the required
    "comp_signal" attribute, [None] when absent or not a UUID;
    [sm_netsignal] the optional "netsignal" attribute, [None] for the null
    UUID. *)
Record SignalMapDom := mkSignalMapDom {
  sm_comp_signal : option Uuid;
  sm_netsignal : option Uuid
}.

(** Modelled from the spec: the XML node of a component instance (the
    DomElement reader is not in src/).  Required UUID attributes read as
    [None] when absent or invalid; [dom_attributes] is the attribute list
    as parsed by AttributeList(domElement). *)
Record ComponentDom := mkComponentDom {
  dom_uuid : option Uuid;
  dom_name : string;
  dom_value : string;
  dom_component : option Uuid;
  dom_symbol_variant : option Uuid;
  dom_attributes : AttributeList;
  dom_signal_maps : list SignalMapDom
}.

(** Modelled from the spec: the error of the DomElement reader for a
    missing or invalid required attribute or an empty required text. *)
Definition domError : Exc := RuntimeError (mkQText "Invalid or missing content in the file." []).

(** Modelled from the spec: SerializableObjectList::get(uuid) (not in
    src/) throws when the list has no element with that UUID. *)
Definition listGetError (u : Uuid) : Exc :=
  RuntimeError (mkQText "There is no element with the UUID '%1' in the list." [string_of_nat u]).

(** ComponentSignalInstance(circuit, cmpInstance, domElement) with [init()] *)
Definition csi_fromDom (nets : gmap Uuid NetSignal) (c : ComponentInstance) (node : SignalMapDom)
  : Result ComponentSignalInstance :=
  match sm_comp_signal node with
  | None => Err domError
  | Some compSignalUuid =>
      match find (fun ls => lsig_uuid ls =? compSignalUuid) (lcmp_signals (ci_lib c)) with
      | None => Err (listGetError compSignalUuid)
      | Some ls =>
          match sm_netsignal node with
          | None => Ok (csi_new nets c ls None)
          | Some n =>
              match nets !! n with
              | Some _ => Ok (csi_new nets c ls (Some n))
              | None => Err (RuntimeError (mkQText "Invalid netsignal UUID: '%1'" [string_of_nat n]))
              end
          end
      end
  end.

(** The [foreach] over the "signal_map" children in the deserializing
    constructor of ComponentInstance. *)
Fixpoint cmp_loadSignals (nets : gmap Uuid NetSignal) (c : ComponentInstance)
  (nodes : list SignalMapDom) (m : gmap Uuid ComponentSignalInstance)
  : Result (gmap Uuid ComponentSignalInstance) :=
  match nodes with
  | [] => Ok m
  | node :: rest =>
      match csi_fromDom nets c node with
      | Err e => Err e
      | Ok sg =>
          let u := lsig_uuid (si_lib sg) in
          if bool_decide (is_Some (m !! u)) then
            Err (RuntimeError (mkQText "The signal with the UUID '%1' is defined multiple times."
                                       [string_of_nat u]))
          else cmp_loadSignals nets c rest (<[u := sg]> m)
      end
  end.

(** ComponentInstance::checkAttributesValidity (UUID, library component and
    symbol variant are never null in this model). *)
Definition cmp_checkAttributesValidity (c : ComponentInstance) : bool :=
  negb (String.eqb (ci_name c) "").

(** ComponentInstance::init *)
Definition cmp_init (c : ComponentInstance) : Result ComponentInstance :=
  let c := cmp_updateErcMessages c in
  if cmp_checkAttributesValidity c then Ok c else Err (LogicError noMsg).

(** ComponentInstance(circuit, domElement), given the circuit's net
    signals and the project library. *)
Definition cmp_fromDom (circuit : nat) (nets : gmap Uuid NetSignal) (library : list LibComponent)
  (d : ComponentDom) : Result ComponentInstance :=
  match dom_uuid d with
  | None => Err domError
  | Some uuid =>
  if String.eqb (dom_name d) "" then Err domError else
  match dom_component d with
  | None => Err domError
  | Some cmpUuid =>
  match find (fun l => lcmp_uuid l =? cmpUuid) library with
  | None => Err (RuntimeError (mkQText "The component with the UUID '%1' does not exist in the project's library!"
                                       [string_of_nat cmpUuid]))
  | Some lib =>
  match dom_symbol_variant d with
  | None => Err domError
  | Some symbVarUuid =>
  match find (fun v => var_uuid v =? symbVarUuid) (lcmp_variants lib) with
  | None => Err (listGetError symbVarUuid)
  | Some symbVar =>
  let c0 := mkCI circuit uuid (dom_name d) (dom_value d) lib symbVar (dom_attributes d)
                 false ∅ ∅ [] ercMsg_new ercMsg_new in
  match cmp_loadSignals nets c0 (dom_signal_maps d) ∅ with
  | Err e => Err e
  | Ok m =>
      if negb (size m =? length (lcmp_signals lib)) then
        Err (RuntimeError (mkQText "The signal count of the component instance '%1' does not match with the signal count of the component '%2'."
                                   [string_of_nat uuid; string_of_nat (lcmp_uuid lib)]))
      else cmp_init (ci_with_signals c0 m)
  end end end end end end.

(** ComponentInstance(circuit, cmp, symbVar, name); [uuid] is the value
    of Uuid::createRandom(). *)
Definition cmp_new (circuit : nat) (uuid : Uuid) (nets : gmap Uuid NetSignal) (cmp : LibComponent)
  (symbVarUuid : Uuid) (name : string) : Result ComponentInstance :=
  if String.eqb name "" then
    Err (RuntimeError (mkQText "The name of the component must not be empty." []))
  else
  match find (fun v => var_uuid v =? symbVarUuid) (lcmp_variants cmp) with
  | None => Err (listGetError symbVarUuid)
  | Some symbVar =>
      let c0 := mkCI circuit uuid name (lcmp_defaultValue cmp) cmp symbVar (lcmp_attributes cmp)
                     false ∅ ∅ [] ercMsg_new ercMsg_new in
      let m := fold_left (fun m ls => <[lsig_uuid ls := csi_new nets c0 ls None]> m)
                         (lcmp_signals cmp) ∅ in
      cmp_init (ci_with_signals c0 m)
  end.

(* ------------------------------------------------------------------ *)
(** ** Circuit steps around one component instance *)

(** Modelled from the spec: Circuit::addNetSignal (circuit.cpp is not in
    src/): a net signal with a new UUID and no bound signal instances. *)
Definition circuit_addNetSignal (n : Uuid) (name : string) : M unit :=
  fun s => match st_nets s !! n with
           | Some _ => (Err (LogicError noMsg), s)
           | None => (Ok tt, mkState (<[n := mkNetSignal name []]> (st_nets s)) (st_cmp s))
           end.

(** The signal instances connected to the [nameChanged] signal of net [n]. *)
Definition cmp_signalsOfNet (c : ComponentInstance) (n : Uuid) : list Uuid :=
  map fst (filter (fun p => si_net (snd p) = Some n) (map_to_list (ci_signals c))).

(** NetSignal::setName with its [nameChanged] signal, which runs
    ComponentSignalInstance::netSignalNameChanged on the bound signals. *)
Definition circuit_setNetSignalName (n : Uuid) (name : string) : M unit :=
  fun s => csi_updateAll (cmp_signalsOfNet (st_cmp s) n)
                         (mkState (netSignal_setName n name (st_nets s)) (st_cmp s)).

(** A registered symbol pin gets or loses its net point. *)
Definition env_setPinNetPoint (u : Uuid) (pid : nat) (b : bool) : M unit :=
  let! sg := csi_get u in
  csi_put u (csi_with_pins sg (map (fun p => if pin_id p =? pid
                                             then mkSymbolPin (pin_id p) (pin_circuit p) b else p)
                                   (si_pins sg))).

(** A registered footprint pad becomes used or unused. *)
Definition env_setPadUsed (u : Uuid) (pid : nat) (b : bool) : M unit :=
  let! sg := csi_get u in
  csi_put u (csi_with_pads sg (map (fun p => if pad_id p =? pid
                                             then mkFootprintPad (pad_id p) (pad_circuit p) b else p)
                                   (si_pads sg))).

Inductive Op :=
| OpAddToCircuit
| OpRemoveFromCircuit
| OpRegisterSymbol (symbol : Symbol)
| OpUnregisterSymbol (symbol : Symbol)
| OpRegisterDevice (device : Device)
| OpUnregisterDevice (device : Device)
| OpSetName (name : string)
| OpSetValue (value : string)
| OpSetAttributes (attributes : AttributeList)
| OpProjectAttributesChanged
| OpSetNetSignal (u : Uuid) (netsignal : option Uuid)
| OpRegisterSymbolPin (u : Uuid) (pin : SymbolPin)
| OpUnregisterSymbolPin (u : Uuid) (pin : SymbolPin)
| OpRegisterFootprintPad (u : Uuid) (pad : FootprintPad)
| OpUnregisterFootprintPad (u : Uuid) (pad : FootprintPad)
| OpSetPinNetPoint (u : Uuid) (pid : nat) (b : bool)
| OpSetPadUsed (u : Uuid) (pid : nat) (b : bool)
| OpAddNetSignal (n : Uuid) (name : string)
| OpSetNetSignalName (n : Uuid) (name : string).

Definition run_op (op : Op) : M unit :=
  match op with
  | OpAddToCircuit => cmp_addToCircuit
  | OpRemoveFromCircuit => cmp_removeFromCircuit
  | OpRegisterSymbol sym => cmp_registerSymbol sym
  | OpUnregisterSymbol sym => cmp_unregisterSymbol sym
  | OpRegisterDevice d => cmp_registerDevice d
  | OpUnregisterDevice d => cmp_unregisterDevice d
  | OpSetName name => cmp_setName name
  | OpSetValue value => cmp_setValue value
  | OpSetAttributes a => cmp_setAttributes a
  | OpProjectAttributesChanged => cmp_emitAttributesChanged
  | OpSetNetSignal u n => csi_setNetSignal u n
  | OpRegisterSymbolPin u p => csi_registerSymbolPin u p
  | OpUnregisterSymbolPin u p => csi_unregisterSymbolPin u p
  | OpRegisterFootprintPad u p => csi_registerFootprintPad u p
  | OpUnregisterFootprintPad u p => csi_unregisterFootprintPad u p
  | OpSetPinNetPoint u pid b => env_setPinNetPoint u pid b
  | OpSetPadUsed u pid b => env_setPadUsed u pid b
  | OpAddNetSignal n name => circuit_addNetSignal n name
  | OpSetNetSignalName n name => circuit_setNetSignalName n name
  end.

(** A NetSignal pointer handed to setNetSignal points to a net signal of
    the circuit. *)
Definition op_wellformed (s : State) (op : Op) : Prop :=
  match op with
  | OpSetNetSignal _ (Some n) => is_Some (st_nets s !! n)
  | _ => True
  end.

(** No net signal has a signal instance of component [uuid] registered yet. *)
Definition fresh_component (nets : gmap Uuid NetSignal) (uuid : Uuid) : Prop :=
  forall n ns k, nets !! n = Some ns -> k ∈ ns_signals ns -> fst k <> uuid.

(** States reachable from a constructed component instance by any sequence
    of operations, successful or not (a failed operation leaves its state
    behind). *)
Inductive reachable : State -> Prop :=
| reachable_new circuit uuid nets cmp symbVar name c :
    cmp_new circuit uuid nets cmp symbVar name = Ok c ->
    fresh_component nets uuid ->
    reachable (mkState nets c)
| reachable_fromDom circuit nets library d c :
    cmp_fromDom circuit nets library d = Ok c ->
    fresh_component nets (ci_uuid c) ->
    reachable (mkState nets c)
| reachable_step s op r s' :
    reachable s -> op_wellformed s op -> run_op op s = (r, s') ->
    reachable s'.

End Embedding.

(* ------------------------------------------------------------------ *)
(** ** CmdListElementInsert<T, P> *)

From Stdlib Require Import ZArith.

Module CmdListElementInsert.
Section Cmd.
Context {T : Type}.

(** Modelled from the spec: SerializableObjectList<T,P>::insert
    (serializableobjectlist.h is not in src/): the element is placed at
    position [index] of the ordered list and that index is returned; an
    index outside [0, count] is a contract violation ([None]). *)
Definition list_insert (l : list T) (index : Z) (obj : T) : option (list T * Z) :=
  if (0 <=? index)%Z && (index <=? Z.of_nat (length l))%Z
  then Some (take (Z.to_nat index) l ++ obj :: drop (Z.to_nat index) l, index)
  else None.

(** Modelled from the spec: SerializableObjectList<T,P>::remove(index);
    an index outside [0, count) is a contract violation ([None]). *)
Definition list_remove (l : list T) (index : Z) : option (list T) :=
  if (0 <=? index)%Z && (index <? Z.of_nat (length l))%Z
  then Some (take (Z.to_nat index) l ++ drop (S (Z.to_nat index)) l)
  else None.

(** The command's data members besides the list reference. *)
Record Cmd := mkCmd { mElement : T; mIndex : Z }.

(** performRedo: [mIndex = mList.insert(mIndex, mElement)] *)
Definition performRedo (l : list T) (cmd : Cmd) : option (list T * Cmd) :=
  match list_insert l (mIndex cmd) (mElement cmd) with
  | Some (l', i) => Some (l', mkCmd (mElement cmd) i)
  | None => None
  end.

(** performExecute: [if (mIndex < 0) mIndex = mList.count(); performRedo();] *)
Definition performExecute (l : list T) (cmd : Cmd) : option (list T * Cmd) :=
  let cmd := if (mIndex cmd <? 0)%Z then mkCmd (mElement cmd) (Z.of_nat (length l)) else cmd in
  performRedo l cmd.

(** performUndo: [mList.remove(mIndex)] *)
Definition performUndo (l : list T) (cmd : Cmd) : option (list T) :=
  list_remove l (mIndex cmd).

End Cmd.
End CmdListElementInsert.

(* ------------------------------------------------------------------ *)
(** ** Further members of ComponentInstance and ComponentSignalInstance *)

(** ComponentInstance::getUnplacedSymbolsCount: an [int] difference of the
    item count of the symbol variant and the registered symbols count. *)
Definition cmp_getUnplacedSymbolsCount (c : ComponentInstance) : Z :=
  (Z.of_nat (length (var_items (ci_symbVar c))) - Z.of_nat (size (ci_symbols c)))%Z.

(** ComponentSignalInstance::serialize: the "signal_map" node with the
    component signal and the net signal; an unbound signal instance writes
    the null UUID, read back as [None].  ([checkAttributesValidity] only
    tests [mComponentSignal], which is never null here.) *)
Definition csi_serialize (sg : ComponentSignalInstance) : SignalMapDom :=
  mkSignalMapDom (Some (lsig_uuid (si_lib sg))) (si_net sg).

(** ComponentInstance::serialize: the node read by the deserializing
    constructor.  [mAttributes->serialize(root)] writes the attribute list
    that AttributeList(domElement) reads back; [serializePointerContainer]
    writes one "signal_map" child per entry of [mSignals], in its order. *)
Definition cmp_serialize (c : ComponentInstance) : Result ComponentDom :=
  if negb (cmp_checkAttributesValidity c) then Err (LogicError noMsg) else
  Ok (mkComponentDom (Some (ci_uuid c)) (ci_name c) (ci_value c) (Some (lcmp_uuid (ci_lib c)))
                     (Some (var_uuid (ci_symbVar c))) (ci_attributes c)
                     (map (fun p => csi_serialize (snd p)) (map_to_list (ci_signals c)))).

(** The component-level data the circuit code keeps consistent: the
    unplaced-symbols ERC messages show what [updateErcMessages] computes,
    and every registered symbol item is an item of the symbol variant. *)
Record CmpInv (c : ComponentInstance) : Prop := {
  inv_erc : cmp_updateErcMessages c = c;
  inv_items : forall k sym, ci_symbols c !! k = Some sym ->
    existsb (fun it => item_uuid it =? k) (var_items (ci_symbVar c)) = true
}.

(** The state reached from [t0] once the signal instances [A] of its
    component have been added to the circuit, in this order: the states
    the loops of [addToCircuit] and [removeFromCircuit] pass through. *)
Section AddedState.
Variable pav : string -> string -> option string.
Variable rv : (string -> string -> option string) -> string -> string.

(** Signal instance [u] of [c] is bound to net signal [n]. *)
Definition bound_to (c : ComponentInstance) (n u : Uuid) : bool :=
  match ci_signals c !! u with
  | Some sg => bool_decide (si_net sg = Some n)
  | None => false
  end.

Definition sigs_added (t0 : State) (A : list Uuid) (u : Uuid) : option ComponentSignalInstance :=
  if bool_decide (u ∈ A) then
    match ci_signals (st_cmp t0) !! u with
    | Some sg => Some (csi_updateErcMessages pav rv (st_nets t0) (st_cmp t0) (csi_with_added sg true))
    | None => None
    end
  else ci_signals (st_cmp t0) !! u.

Definition net_added (t0 : State) (A : list Uuid) (n : Uuid) (ns : NetSignal) : NetSignal :=
  mkNetSignal (ns_name ns)
    (ns_signals ns ++ map (fun u => (ci_uuid (st_cmp t0), u)) (List.filter (bound_to (st_cmp t0) n) A)).

Record Added (t0 : State) (A : list Uuid) (t : State) : Prop := {
  ad_nodup : NoDup A;
  ad_name : ci_name (st_cmp t) = ci_name (st_cmp t0);
  ad_value : ci_value (st_cmp t) = ci_value (st_cmp t0);
  ad_attributes : ci_attributes (st_cmp t) = ci_attributes (st_cmp t0);
  ad_uuid : ci_uuid (st_cmp t) = ci_uuid (st_cmp t0);
  ad_sigs : forall u, ci_signals (st_cmp t) !! u = sigs_added t0 A u;
  ad_nets : forall n, st_nets t !! n =
    match st_nets t0 !! n with Some ns => Some (net_added t0 A n ns) | None => None end;
  ad_orig : forall u, u ∈ A -> exists sg, ci_signals (st_cmp t0) !! u = Some sg /\
    si_added sg = false /\ csi_isUsed sg = false /\
    forall n, si_net sg = Some n ->
      exists ns, st_nets t0 !! n = Some ns /\ (ci_uuid (st_cmp t0), u) ∉ ns_signals ns
}.

End AddedState.

(* ------------------------------------------------------------------ *)
(** ** Well-formedness of the circuit state around a component instance *)

Section Invariant.
Variable pav : string -> string -> option string.
Variable rv : (string -> string -> option string) -> string -> string.

(** The state invariants the circuit code maintains:
    - every ERC message of a signal instance shows what its
      [updateErcMessages] computes from the current state;
    - a bound net signal exists in the circuit;
    - a component instance that is not added has no symbols or devices;
    - all registered symbols lie on the same schematic. *)
Record Wf (s : State) : Prop := {
  wf_erc_sig : forall u sg, ci_signals (st_cmp s) !! u = Some sg ->
    csi_updateErcMessages pav rv (st_nets s) (st_cmp s) sg = sg;
  wf_net : forall u sg n, ci_signals (st_cmp s) !! u = Some sg -> si_net sg = Some n ->
    is_Some (st_nets s !! n);
  wf_idle_cmp : ci_added (st_cmp s) = false -> ci_symbols (st_cmp s) = ∅ /\ ci_devices (st_cmp s) = [];
  wf_schematic : forall k1 k2 s1 s2, ci_symbols (st_cmp s) !! k1 = Some s1 ->
    ci_symbols (st_cmp s) !! k2 = Some s2 -> sym_schematic s1 = sym_schematic s2
}.

(** The component instance apart from its signal instances. *)
Definition ci_core (c : ComponentInstance) : ComponentInstance := ci_with_signals c ∅.

(** Net signals are never removed and keep their names. *)
Definition nets_ext (nets nets' : gmap Uuid NetSignal) : Prop :=
  forall n ns, nets !! n = Some ns -> exists ns', nets' !! n = Some ns' /\ ns_name ns' = ns_name ns.

(** Two versions of a signal instance with the same ERC-relevant data. *)
Definition csi_agree (sg sg' : ComponentSignalInstance) : Prop :=
  si_lib sg' = si_lib sg /\ si_added sg' = si_added sg /\ si_net sg' = si_net sg /\
  si_ercUnconnected sg' = si_ercUnconnected sg /\ si_ercForced sg' = si_ercForced sg.

(** A transition that only touches signal instances and net signal
    registrations, and keeps [Wf]. *)
Definition Step (s s' : State) : Prop :=
  ci_core (st_cmp s') = ci_core (st_cmp s) /\ nets_ext (st_nets s) (st_nets s') /\ (Wf s -> Wf s').

Definition Keeps {A} (m : M A) : Prop := forall s, Step s (snd (m s)).

(** Signal instances as created by the constructors. *)
Definition csi_initial (nets : gmap Uuid NetSignal) (c0 : ComponentInstance) (sg : ComponentSignalInstance) :=
  exists ls net, sg = csi_new pav rv nets c0 ls net /\ forall n, net = Some n -> is_Some (nets !! n).

(** Signal instance [u] is added to the circuit and registered with its
    bound net signal. *)
Definition csi_registered (s : State) (u : Uuid) : Prop :=
  exists sg, ci_signals (st_cmp s) !! u = Some sg /\ si_added sg = true /\
    forall n, si_net sg = Some n ->
      exists ns, st_nets s !! n = Some ns /\ (ci_uuid (st_cmp s), u) ∈ ns_signals ns.

End Invariant.

(* ------------------------------------------------------------------ *)
(** ** A concrete circuit *)

Module Example.

(** No project attributes, and a substitution that leaves texts as they are. *)
Definition pav (attrNS attrKey : string) : option string := None.
Definition rv (lookup : string -> string -> option string) (text : string) : string := text.

(** A library component with a required signal whose net name is forced
    to "VCC" and an optional signal without forced name. *)
Definition sigVCC : LibSignal := mkLibSignal 1 "VCC" true true "VCC".
Definition sigGND : LibSignal := mkLibSignal 2 "GND" false false "".
Definition variant : LibSymbVar := mkLibSymbVar 10 [mkLibSymbVarItem 20 true].
Definition lib : LibComponent := mkLibComponent 100 false "1k" [] [sigVCC; sigGND] [variant].

(** Net signals 7 ("N7") and 8 ("N8"), nothing registered. *)
Definition nets : gmap Uuid NetSignal :=
  <[8 := mkNetSignal "N8" []]> (<[7 := mkNetSignal "N7" []]> ∅).

Definition fallback : ComponentInstance :=
  mkCI 0 0 "" "" lib variant [] false ∅ ∅ [] ercMsg_new ercMsg_new.

Definition result_cmp (r : Result ComponentInstance) : ComponentInstance :=
  match r with Ok c => c | Err _ => fallback end.

Definition signal (s : State) (u : Uuid) : ComponentSignalInstance :=
  match ci_signals (st_cmp s) !! u with
  | Some sg => sg
  | None => mkCSI sigVCC false None [] [] ercMsg_new ercMsg_new
  end.

(** Component instance "U1" (UUID 5) created in circuit 0, not added. *)
Definition cmp0 : ComponentInstance := result_cmp (cmp_new pav rv 0 5 nets lib 10 "U1").
Definition s0 : State := mkState nets cmp0.

(** ... added to the circuit. *)
Definition s1 : State := snd (run_op pav rv OpAddToCircuit s0).

(** ... with a connected symbol pin registered at signal 1. *)
Definition s2 : State := snd (run_op pav rv (OpRegisterSymbolPin 1 (mkSymbolPin 1 0 true)) s1).

(** ... with a registered device. *)
Definition s3 : State := snd (run_op pav rv (OpRegisterDevice (mkDevice 1 0)) s1).

(** ... with a registered symbol on schematic 3. *)
Definition s4 : State := snd (run_op pav rv (OpRegisterSymbol (mkSymbol 1 0 3 20)) s1).

(** A file binding signal 1 to net 7 and signal 2 to net 8, loaded into a
    circuit whose net signal 7 already has signal 1 of component 5
    registered: adding the component registers signal 2 with net 8, then
    fails on signal 1. *)
Definition dom : ComponentDom :=
  mkComponentDom (Some 5) "U1" "1k" (Some 100) (Some 10) []
                 [mkSignalMapDom (Some 1) (Some 7); mkSignalMapDom (Some 2) (Some 8)].
Definition nets_conflict : gmap Uuid NetSignal :=
  <[8 := mkNetSignal "N8" []]> (<[7 := mkNetSignal "N7" [(5, 1)]]> ∅).
Definition s_conflict : State := mkState nets_conflict (result_cmp (cmp_fromDom pav rv 0 nets_conflict [lib] dom)).

(** The same file loaded into the circuit with net signals [nets]. *)
Definition s_loaded : State := mkState nets (result_cmp (cmp_fromDom pav rv 0 nets [lib] dom)).

(** A second library component whose symbol variant 11 has a required
    item 20 and an optional item 21. *)
Definition variant2 : LibSymbVar := mkLibSymbVar 11 [mkLibSymbVarItem 20 true; mkLibSymbVarItem 21 false].
Definition lib2 : LibComponent := mkLibComponent 101 false "10k" [] [sigVCC; sigGND] [variant2].

(** Component instance "U2" (UUID 6) of [lib2], added to the circuit, with
    a symbol for item 20 on schematic 3. *)
Definition cmpB : ComponentInstance := result_cmp (cmp_new pav rv 0 6 nets lib2 11 "U2").
Definition tB0 : State := mkState nets cmpB.
Definition tB1 : State := snd (run_op pav rv OpAddToCircuit tB0).
Definition tB2 : State := snd (run_op pav rv (OpRegisterSymbol (mkSymbol 1 0 3 20)) tB1).

End Example.

(* ================================================================== *)
(** * Properties *)

Section Proofs.
Variable pav : string -> string -> option string.
Variable rv : (string -> string -> option string) -> string -> string.

Local Abbreviation setNetSignal := (csi_setNetSignal pav rv).
Local Abbreviation removeFromCircuit := (cmp_removeFromCircuit pav rv).

(** ** setNetSignal with the current net signal *)

(** C8: for every signal instance, [setNetSignal] with its currently bound
    net signal (or [None] when unbound) returns without error and leaves the
    whole state, ERC messages included, as it is. *)
Theorem setNetSignal_same_is_noop (s : State) (u : Uuid) (sg : ComponentSignalInstance) :
  ci_signals (st_cmp s) !! u = Some sg ->
  setNetSignal u (si_net sg) s = (Ok tt, s).
Proof.
  intros Hsg. unfold csi_setNetSignal, bind, csi_get, cmp_get. rewrite Hsg.
  rewrite decide_True by reflexivity. reflexivity.
Qed.

(** C10: for a signal instance that is not added to the circuit,
    [setNetSignal] with the current net signal succeeds without a state
    change; only a different net signal raises the not-added contract
    violation (a [LogicError]), also without a state change. *)
Theorem setNetSignal_not_added (s : State) (u : Uuid) (sg : ComponentSignalInstance)
  (netsignal : option Uuid) :
  ci_signals (st_cmp s) !! u = Some sg ->
  si_added sg = false ->
  setNetSignal u netsignal s =
    (if decide (netsignal = si_net sg) then Ok tt else Err (LogicError noMsg), s).
Proof.
  intros Hsg Hadded. unfold csi_setNetSignal, bind, csi_get, cmp_get. rewrite Hsg.
  destruct (decide (netsignal = si_net sg)); [reflexivity |].
  rewrite Hadded. reflexivity.
Qed.

(** C4 (code): for an added signal instance whose pins or pads are
    electrically connected, [setNetSignal] to a different net signal throws
    a [LogicError] (the contract-violation kind) carrying the user message,
    and leaves the state unchanged. *)
Theorem setNetSignal_live_pins_throws_logic_error (s : State) (u : Uuid)
  (sg : ComponentSignalInstance) (netsignal : option Uuid) :
  ci_signals (st_cmp s) !! u = Some sg ->
  netsignal <> si_net sg ->
  si_added sg = true ->
  csi_arePinsOrPadsUsed sg = true ->
  setNetSignal u netsignal s =
    (Err (LogicError (mkQText "The net signal of the component signal '%1:%2' cannot be changed because it is still in use!"
                              [ci_name (st_cmp s); lsig_name (si_lib sg)])), s).
Proof.
  intros Hsg Hne Hadded Hused. unfold csi_setNetSignal, bind, csi_get, cmp_get. rewrite Hsg.
  rewrite decide_False by exact Hne. rewrite Hadded, Hused. reflexivity.
Qed.

(** ** removeFromCircuit of a component instance in use *)

(** C3: removing a component instance that is added and in use (registered
    symbols or devices, or a signal instance in use) fails with a
    [RuntimeError] (recoverable, user-facing) and leaves the state, and so
    [mIsAddedToCircuit], all registrations and net bindings, unchanged. *)
Theorem removeFromCircuit_in_use (s : State) :
  ci_added (st_cmp s) = true ->
  cmp_isUsed (st_cmp s) = true ->
  removeFromCircuit s =
    (Err (RuntimeError (mkQText "The component '%1' cannot be removed because it is still in use!"
                                [ci_name (st_cmp s)])), s).
Proof.
  intros Hadded Hused. unfold cmp_removeFromCircuit, bind, cmp_get.
  rewrite Hadded, Hused. reflexivity.
Qed.

(** ** Unplaced required symbols *)

Lemma fold_count_filter {A} (p : A -> bool) (l : list A) (acc : nat) :
  fold_left (fun count x => if p x then count + 1 else count) l acc
  = acc + length (List.filter p l).
Proof.
  revert acc. induction l as [|x l IH]; intros acc; simpl; [lia |].
  rewrite IH. destruct (p x); simpl; lia.
Qed.

Lemma length_filter_split {A} (p q : A -> bool) (l : list A) :
  length (List.filter p l)
  = length (List.filter (fun x => p x && q x) l)
    + length (List.filter (fun x => p x && negb (q x)) l).
Proof.
  induction l as [|x l IH]; simpl; [reflexivity |].
  destruct (p x), (q x); simpl; lia.
Qed.

(** C6: the unplaced-required-symbols count is derived from the chosen
    symbol variant's item list and the registered-symbol map: it is the
    number of required items minus the number of required items that are
    registered, and that difference never underflows (the registered
    required items are at most as many as the required items). *)
Theorem unplacedRequiredSymbolsCount_spec (c : ComponentInstance) :
  let items := var_items (ci_symbVar c) in
  let required := length (List.filter item_required items) in
  let registeredRequired :=
    length (List.filter (fun it => item_required it && cmp_isRegisteredItem c (item_uuid it)) items) in
  cmp_getUnplacedRequiredSymbolsCount c = required - registeredRequired
  /\ registeredRequired <= required.
Proof.
  simpl. unfold cmp_getUnplacedRequiredSymbolsCount.
  rewrite (fold_count_filter (fun it => item_required it && negb (cmp_isRegisteredItem c (item_uuid it)))).
  rewrite (length_filter_split item_required (fun it => cmp_isRegisteredItem c (item_uuid it))).
  lia.
Qed.

(** ** Deserializing constructor of ComponentInstance *)

Lemma csi_fromDom_ok nets c node sg :
  csi_fromDom pav rv nets c node = Ok sg ->
  si_lib sg ∈ lcmp_signals (ci_lib c)
  /\ sm_comp_signal node = Some (lsig_uuid (si_lib sg)).
Proof.
  unfold csi_fromDom. intros H.
  destruct (sm_comp_signal node) as [u|]; [| discriminate].
  destruct (find _ _) as [ls|] eqn:Hfind; [| discriminate].
  apply find_some in Hfind as [Hin Heq]. apply Nat.eqb_eq in Heq.
  assert (Hsg : si_lib sg = ls /\ si_added sg = false).
  { destruct (sm_netsignal node) as [n|]; [destruct (nets !! n)|]; inversion H; subst; split; reflexivity. }
  destruct Hsg as [-> _]. split; [apply list_elem_of_In; exact Hin | rewrite Heq; reflexivity].
Qed.

Lemma csi_fromDom_err nets c node e :
  csi_fromDom pav rv nets c node = Err e -> exists msg, e = RuntimeError msg.
Proof.
  unfold csi_fromDom. intros H.
  destruct (sm_comp_signal node) as [u|]; [| inversion H; eexists; reflexivity].
  destruct (find _ _) as [ls|]; [| inversion H; eexists; reflexivity].
  destruct (sm_netsignal node) as [n|]; [destruct (nets !! n)|]; inversion H; eexists; reflexivity.
Qed.

Lemma loadSignals_err nets c nodes m e :
  cmp_loadSignals pav rv nets c nodes m = Err e -> exists msg, e = RuntimeError msg.
Proof.
  revert m. induction nodes as [|node nodes IH]; intros m H; simpl in H; [discriminate |].
  destruct (csi_fromDom pav rv nets c node) as [sg|e'] eqn:Hn.
  - case_bool_decide; [inversion H; eexists; reflexivity | eapply IH; exact H].
  - inversion H; subst. eapply csi_fromDom_err; exact Hn.
Qed.

(** The signal map built by the loop: entries keyed by their component
    signal's UUID, one per XML entry, the XML entries' UUIDs distinct. *)
Lemma loadSignals_ok nets c nodes m m' :
  cmp_loadSignals pav rv nets c nodes m = Ok m' ->
  size m' = size m + length nodes
  /\ (forall u sg, m' !! u = Some sg ->
        m !! u = Some sg \/ (si_lib sg ∈ lcmp_signals (ci_lib c) /\ lsig_uuid (si_lib sg) = u))
  /\ NoDup (map sm_comp_signal nodes)
  /\ (forall node, node ∈ nodes -> exists u, sm_comp_signal node = Some u /\ m !! u = None).
Proof.
  revert m. induction nodes as [|node nodes IH]; intros m H; simpl in H.
  - inversion H; subst. split; [simpl; lia |]. split; [auto |].
    split; [constructor | intros node Hin; inversion Hin].
  - destruct (csi_fromDom pav rv nets c node) as [sg|e] eqn:Hn; [| discriminate].
    case_bool_decide as Hdup; [discriminate |].
    apply csi_fromDom_ok in Hn as [Hlib Hnode].
    apply IH in H as (Hsize & Hent & Hnodup & Hfresh).
    assert (Hnone : m !! lsig_uuid (si_lib sg) = None) by (destruct (m !! _); [exfalso; apply Hdup; eexists; reflexivity | reflexivity]).
    split; [rewrite Hsize, map_size_insert_None by exact Hnone; simpl; lia |].
    split.
    + intros u sg' Hu. destruct (Hent u sg' Hu) as [Hm | Hr]; [| right; exact Hr].
      destruct (decide (u = lsig_uuid (si_lib sg))) as [->|Hne].
      * rewrite lookup_insert_eq in Hm. inversion Hm; subst. right. split; [exact Hlib | reflexivity].
      * rewrite lookup_insert_ne in Hm by congruence. left. exact Hm.
    + split.
      * simpl. constructor; [| exact Hnodup].
        rewrite Hnode. intros Hin. apply list_elem_of_In, in_map_iff in Hin as (node' & Heq & Hin').
        destruct (Hfresh node' (proj2 (list_elem_of_In _ _) Hin')) as (u' & Hu' & Hfr).
        rewrite Heq in Hu'. inversion Hu'; subst. rewrite lookup_insert_eq in Hfr. discriminate.
      * intros node' Hin. apply elem_of_cons in Hin as [-> | Hin].
        -- exists (lsig_uuid (si_lib sg)). split; [exact Hnode | exact Hnone].
        -- destruct (Hfresh node' Hin) as (u' & Hu' & Hfr). exists u'. split; [exact Hu' |].
           destruct (decide (u' = lsig_uuid (si_lib sg))) as [->|Hne];
             [rewrite lookup_insert_eq in Hfr; discriminate | rewrite lookup_insert_ne in Hfr by congruence; exact Hfr].
Qed.


Lemma lookup_map_Some {A B} (f : A -> B) (l : list A) (i : nat) (x : A) :
  l !! i = Some x -> map f l !! i = Some (f x).
Proof.
  revert i. induction l as [|y l IH]; intros [|i] H; simpl in *; try discriminate.
  - inversion H; reflexivity.
  - apply IH. exact H.
Qed.

Lemma fromDom_ok circuit nets library d c :
  cmp_fromDom pav rv circuit nets library d = Ok c ->
  exists c0 cmpUuid,
    cmp_loadSignals pav rv nets c0 (dom_signal_maps d) ∅ = Ok (ci_signals c)
    /\ ci_lib c0 = ci_lib c
    /\ size (ci_signals c) = length (lcmp_signals (ci_lib c))
    /\ dom_component d = Some cmpUuid
    /\ find (fun l => lcmp_uuid l =? cmpUuid) library = Some (ci_lib c).
Proof.
  unfold cmp_fromDom. intros H.
  repeat (case_match; try discriminate).
  unfold cmp_init in H. case_match; [| discriminate]. inversion H; subst; clear H.
  eexists _, _. split; [eassumption |]. simpl.
  split; [reflexivity |]. split; [| split; [reflexivity | assumption]].
  match goal with Hs : negb (size ?m =? _) = false |- _ =>
    apply negb_false_iff, Nat.eqb_eq in Hs; exact Hs end.
Qed.

Lemma fromDom_err circuit nets library d e :
  cmp_fromDom pav rv circuit nets library d = Err e -> exists msg, e = RuntimeError msg.
Proof.
  unfold cmp_fromDom. intros H.
  repeat (case_match; try (inversion H; subst; eexists; reflexivity)).
  all: first
    [ inversion H; subst; eapply loadSignals_err; eassumption
    | unfold cmp_init, cmp_checkAttributesValidity in H; simpl in H;
      match goal with Hn : String.eqb _ "" = false |- _ => rewrite Hn in H end;
      discriminate ].
Qed.

(** C9: the deserializing constructor of ComponentInstance only fails with
    a [RuntimeError] (recoverable); it fails when two signal-map entries
    name the same component signal, and when the number of entries differs
    from the signal count of the library component; on success the
    instance holds exactly one signal instance per signal of the library
    component, keyed by that signal's UUID. *)
Theorem fromDom_signal_map (circuit : nat) (nets : gmap Uuid NetSignal)
  (library : list LibComponent) (d : ComponentDom) :
  (forall e, cmp_fromDom pav rv circuit nets library d = Err e -> exists msg, e = RuntimeError msg)
  /\ ((exists i j n1 n2 u, i <> j /\ dom_signal_maps d !! i = Some n1 /\ dom_signal_maps d !! j = Some n2
                           /\ sm_comp_signal n1 = Some u /\ sm_comp_signal n2 = Some u) ->
      exists msg, cmp_fromDom pav rv circuit nets library d = Err (RuntimeError msg))
  /\ (forall cmpUuid lib, dom_component d = Some cmpUuid ->
        find (fun l => lcmp_uuid l =? cmpUuid) library = Some lib ->
        length (dom_signal_maps d) <> length (lcmp_signals lib) ->
        exists msg, cmp_fromDom pav rv circuit nets library d = Err (RuntimeError msg))
  /\ (forall c, cmp_fromDom pav rv circuit nets library d = Ok c ->
        size (ci_signals c) = length (lcmp_signals (ci_lib c))
        /\ (forall u, is_Some (ci_signals c !! u) <-> u ∈ map lsig_uuid (lcmp_signals (ci_lib c)))
        /\ (forall u sg, ci_signals c !! u = Some sg ->
              si_lib sg ∈ lcmp_signals (ci_lib c) /\ lsig_uuid (si_lib sg) = u)).
Proof.
  assert (Herr : forall e, cmp_fromDom pav rv circuit nets library d = Err e -> exists msg, e = RuntimeError msg)
    by (intros e; apply fromDom_err).
  assert (Hfail : (forall c, cmp_fromDom pav rv circuit nets library d <> Ok c) ->
                  exists msg, cmp_fromDom pav rv circuit nets library d = Err (RuntimeError msg)).
  { intros Hno. destruct (cmp_fromDom pav rv circuit nets library d) as [c|e] eqn:Hr.
    - exfalso. eapply Hno; reflexivity.
    - destruct (Herr e eq_refl) as [msg ->]. exists msg. reflexivity. }
  split; [exact Herr |]. split; [| split].
  - intros (i & j & n1 & n2 & u & Hij & Hi & Hj & Hu1 & Hu2). apply Hfail. intros c Hc.
    apply fromDom_ok in Hc as (c0 & cmpUuid & Hload & _).
    apply loadSignals_ok in Hload as (_ & _ & Hnodup & _).
    apply Hij. eapply (NoDup_lookup (map sm_comp_signal (dom_signal_maps d)) i j (Some u) Hnodup).
    + rewrite <- Hu1. apply lookup_map_Some. exact Hi.
    + rewrite <- Hu2. apply lookup_map_Some. exact Hj.
  - intros cmpUuid lib Hcmp Hfind Hlen. apply Hfail. intros c Hc.
    apply fromDom_ok in Hc as (c0 & cmpUuid' & Hload & Hlib & Hsize & Hcmp' & Hfind').
    rewrite Hcmp in Hcmp'. inversion Hcmp'; subst cmpUuid'. rewrite Hfind in Hfind'. inversion Hfind'.
    apply loadSignals_ok in Hload as (Hsz & _). rewrite map_size_empty in Hsz.
    apply Hlen. rewrite H0. lia.
  - intros c Hc.
    apply fromDom_ok in Hc as (c0 & cmpUuid & Hload & Hlib & Hsize & _).
    apply loadSignals_ok in Hload as (_ & Hent & _).
    assert (Hent' : forall u sg, ci_signals c !! u = Some sg ->
                    si_lib sg ∈ lcmp_signals (ci_lib c) /\ lsig_uuid (si_lib sg) = u).
    { intros u sg Hu. destruct (Hent u sg Hu) as [Hm | Hr]; [rewrite lookup_empty in Hm; discriminate |].
      rewrite <- Hlib. exact Hr. }
    split; [exact Hsize |]. split; [| exact Hent'].
    set (K := (map_to_list (ci_signals c)).*1).
    assert (HK : forall u, u ∈ K <-> is_Some (ci_signals c !! u)).
    { intros u. subst K. rewrite list_elem_of_fmap. split.
      - intros ([u' sg] & -> & Hin). apply elem_of_map_to_list in Hin. simpl. eexists; exact Hin.
      - intros [sg Hsg]. exists (u, sg). split; [reflexivity | apply elem_of_map_to_list; exact Hsg]. }
    assert (Hincl : incl K (map lsig_uuid (lcmp_signals (ci_lib c)))).
    { intros u Hu. apply list_elem_of_In in Hu. apply HK in Hu as [sg Hsg].
      destruct (Hent' u sg Hsg) as [Hin Heq]. apply in_map_iff. exists (si_lib sg).
      split; [exact Heq | apply list_elem_of_In; exact Hin]. }
    assert (Hback : incl (map lsig_uuid (lcmp_signals (ci_lib c))) K).
    { apply NoDup_length_incl; [| | exact Hincl].
      - apply NoDup_ListNoDup. apply NoDup_fst_map_to_list.
      - unfold K. rewrite !length_fmap, length_map_to_list. lia. }
    intros u. rewrite <- HK. split.
    + intros Hu. apply list_elem_of_In. apply Hincl. apply list_elem_of_In. exact Hu.
    + intros Hu. apply list_elem_of_In. apply Hback. apply list_elem_of_In. exact Hu.
Qed.

End Proofs.

(** ** CmdListElementInsert: execute, undo, redo *)

Lemma take_insert_drop {T} (l : list T) (i : nat) (x : T) :
  i <= length l ->
  take i (take i l ++ x :: drop i l) ++ drop (S i) (take i l ++ x :: drop i l) = l.
Proof.
  intros Hi.
  rewrite take_app_length' by (rewrite length_take_le; lia).
  replace (S i) with (length (take i l) + 1) by (rewrite length_take_le; lia).
  rewrite <- drop_drop, drop_app_length. simpl. rewrite drop_0. apply take_drop.
Qed.

(** C5: executing the insert command resolves a negative index ("append")
    to the list's length once and inserts there; [undo] removes at the
    recorded index and restores the list before [execute]; [redo] inserts
    the same element at the same recorded index and restores the list after
    [execute], keeping the command's data unchanged. *)
Theorem cmdListElementInsert_execute_undo_redo {T} (l : list T) (e : T) (index : Z) :
  (index < 0 \/ 0 <= index <= Z.of_nat (length l))%Z ->
  let i := if (index <? 0)%Z then Z.of_nat (length l) else index in
  let l' := take (Z.to_nat i) l ++ e :: drop (Z.to_nat i) l in
  CmdListElementInsert.performExecute l (CmdListElementInsert.mkCmd e index)
    = Some (l', CmdListElementInsert.mkCmd e i)
  /\ CmdListElementInsert.performUndo l' (CmdListElementInsert.mkCmd e i) = Some l
  /\ CmdListElementInsert.performRedo l (CmdListElementInsert.mkCmd e i)
       = Some (l', CmdListElementInsert.mkCmd e i).
Proof.
  intros Hindex i l'.
  assert (Hi : (0 <= i <= Z.of_nat (length l))%Z).
  { subst i. destruct (Z.ltb_spec index 0); lia. }
  assert (Hredo : CmdListElementInsert.performRedo l (CmdListElementInsert.mkCmd e i)
                  = Some (l', CmdListElementInsert.mkCmd e i)).
  { unfold CmdListElementInsert.performRedo, CmdListElementInsert.list_insert; simpl.
    replace ((0 <=? i)%Z && (i <=? Z.of_nat (length l))%Z) with true
      by (symmetry; apply andb_true_iff; split; [apply Z.leb_le | apply Z.leb_le]; lia).
    reflexivity. }
  split; [| split; [| exact Hredo]].
  - unfold CmdListElementInsert.performExecute; simpl. subst i. destruct (index <? 0)%Z; exact Hredo.
  - unfold CmdListElementInsert.performUndo, CmdListElementInsert.list_remove; simpl.
    assert (Hlen : length l' = S (length l)).
    { subst l'. rewrite length_app, length_take_le by lia. simpl. rewrite length_drop. lia. }
    rewrite Hlen.
    replace ((0 <=? i)%Z && (i <? Z.of_nat (S (length l)))%Z) with true
      by (symmetry; apply andb_true_iff; split; [apply Z.leb_le | apply Z.ltb_lt]; lia).
    f_equal. subst l'. apply take_insert_drop. lia.
Qed.

(* ------------------------------------------------------------------ *)
(** ** Frame lemmas *)

Lemma elem_of_app_single {A} (x y : A) (l : list A) : x ∈ l ++ [y] <-> x ∈ l \/ x = y.
Proof. rewrite elem_of_app, list_elem_of_singleton. tauto. Qed.

Lemma removeOne_elem_ne (k k' : SigKey) (l : list SigKey) :
  k' <> k -> (k' ∈ removeOne k l <-> k' ∈ l).
Proof.
  intros Hne. induction l as [|x l IH]; simpl; [tauto |].
  case_decide as Hx.
  - subst x. rewrite elem_of_cons. split; [tauto | intros [H|H]; [congruence | exact H]].
  - rewrite !elem_of_cons, IH. tauto.
Qed.

Lemma removeOne_app_single (k : SigKey) (l : list SigKey) :
  k ∉ l -> removeOne k (l ++ [k]) = l.
Proof.
  induction l as [|x l IH]; intros Hk; simpl; [rewrite decide_True by reflexivity; reflexivity |].
  rewrite decide_False by (intros ->; apply Hk; left).
  rewrite IH; [reflexivity | intros H; apply Hk; right; exact H].
Qed.

Lemma filter_removeOne (p : SigKey -> bool) (k : SigKey) (l : list SigKey) :
  p k = true -> List.filter p (removeOne k l) = removeOne k (List.filter p l).
Proof.
  intros Hp. induction l as [|x l IH]; simpl; [reflexivity |].
  case_decide as Hx.
  - subst x. rewrite Hp. simpl. rewrite decide_True by reflexivity. reflexivity.
  - simpl. destruct (p x) eqn:Hpx; simpl; [rewrite decide_False by exact Hx |]; rewrite IH; reflexivity.
Qed.

Lemma removeOne_NoDup (k : SigKey) (l : list SigKey) :
  NoDup l -> NoDup (removeOne k l) /\ k ∉ removeOne k l.
Proof.
  induction l as [|x l IH]; intros Hnd; simpl.
  - split; [constructor | apply not_elem_of_nil].
  - apply NoDup_cons in Hnd as [Hx Hnd]. case_decide as Hxk.
    + subst x. split; assumption.
    + destruct (IH Hnd) as [Hnd' Hk]. split.
      * constructor; [| exact Hnd']. rewrite removeOne_elem_ne by congruence. exact Hx.
      * rewrite elem_of_cons. intros [H|H]; [congruence | contradiction].
Qed.

Lemma filter_app_single (p : SigKey -> bool) (l : list SigKey) (k : SigKey) :
  List.filter p (l ++ [k]) = List.filter p l ++ (if p k then [k] else []).
Proof. induction l as [|x l IH]; simpl; [reflexivity | destruct (p x); simpl; rewrite ?IH; reflexivity]. Qed.

Lemma elem_of_filter_bool (p : SigKey -> bool) (k : SigKey) (l : list SigKey) :
  k ∈ List.filter p l <-> k ∈ l /\ p k = true.
Proof. rewrite !list_elem_of_In. apply filter_In. Qed.

Section Frame.
Variable pav : string -> string -> option string.
Variable rv : (string -> string -> option string) -> string -> string.

Local Abbreviation upd := (csi_updateErcMessages pav rv).

Lemma upd_idem nets c sg : upd nets c (upd nets c sg) = upd nets c sg.
Proof. destruct sg; reflexivity. Qed.

(** The ERC messages of a signal instance are computed from its library
    signal, state flags and net binding only. *)
Lemma upd_same_fields nets c sg1 sg2 :
  si_lib sg1 = si_lib sg2 -> si_added sg1 = si_added sg2 -> si_net sg1 = si_net sg2 ->
  si_pins sg1 = si_pins sg2 -> si_pads sg1 = si_pads sg2 ->
  upd nets c sg1 = upd nets c sg2.
Proof. destruct sg1, sg2; simpl; intros -> -> -> -> ->; reflexivity. Qed.

(** ... and from the component's name, value and attributes and the name
    of the bound net signal. *)
Lemma upd_frame nets nets' c c' sg :
  ci_name c = ci_name c' -> ci_value c = ci_value c' -> ci_attributes c = ci_attributes c' ->
  (forall n, si_net sg = Some n -> netName nets n = netName nets' n) ->
  upd nets c sg = upd nets' c' sg.
Proof.
  intros Hn Hv Ha Hnet. unfold csi_updateErcMessages, csi_getForcedNetSignalName,
    cmp_replaceVariables, cmp_getAttributeValue.
  rewrite Hn, Hv, Ha. destruct (si_net sg) as [n|]; [rewrite (Hnet n eq_refl) |]; reflexivity.
Qed.

Lemma upd_lib nets c sg : si_lib (upd nets c sg) = si_lib sg.
Proof. reflexivity. Qed.
Lemma upd_added nets c sg : si_added (upd nets c sg) = si_added sg.
Proof. reflexivity. Qed.
Lemma upd_net nets c sg : si_net (upd nets c sg) = si_net sg.
Proof. reflexivity. Qed.
Lemma upd_pins nets c sg : si_pins (upd nets c sg) = si_pins sg.
Proof. reflexivity. Qed.
Lemma upd_pads nets c sg : si_pads (upd nets c sg) = si_pads sg.
Proof. reflexivity. Qed.

Lemma cmp_upd_with_signals c m :
  cmp_updateErcMessages (ci_with_signals c m) = ci_with_signals (cmp_updateErcMessages c) m.
Proof. destruct c; reflexivity. Qed.

Lemma ci_with_signals_twice c m1 m2 : ci_with_signals (ci_with_signals c m1) m2 = ci_with_signals c m2.
Proof. destruct c; reflexivity. Qed.

Lemma ci_with_signals_id c : ci_with_signals c (ci_signals c) = c.
Proof. destruct c; reflexivity. Qed.

Lemma netSignal_eta ns : mkNetSignal (ns_name ns) (ns_signals ns) = ns.
Proof. destruct ns; reflexivity. Qed.

Lemma state_eta s : mkState (st_nets s) (st_cmp s) = s.
Proof. destruct s; reflexivity. Qed.

End Frame.

(* ------------------------------------------------------------------ *)
(** ** Preservation of the invariant *)

Ltac cmp_simpl := unfold cmp_updateErcMessages, ci_with_erc, ci_with_added, ci_with_symbols,
  ci_with_devices, ci_with_name, ci_with_value, ci_with_attributes; cbn [ci_signals ci_name ci_value
  ci_attributes ci_added ci_symbols ci_devices ci_uuid ci_circuit].

Section Preservation.
Variable pav : string -> string -> option string.
Variable rv : (string -> string -> option string) -> string -> string.

Local Abbreviation upd := (csi_updateErcMessages pav rv).
Local Abbreviation Wf := (Wf pav rv).
Local Abbreviation Step := (Step pav rv).
Local Abbreviation Keeps := (Keeps pav rv).
Local Abbreviation csi_initial := (csi_initial pav rv).

Lemma nets_ext_refl nets : nets_ext nets nets.
Proof. intros n ns H. eauto. Qed.

Lemma nets_ext_trans n1 n2 n3 : nets_ext n1 n2 -> nets_ext n2 n3 -> nets_ext n1 n3.
Proof.
  intros H12 H23 n ns H. destruct (H12 n ns H) as (ns2 & H2 & E2).
  destruct (H23 n ns2 H2) as (ns3 & H3 & E3). exists ns3. split; congruence.
Qed.

Lemma nets_ext_netName nets nets' n :
  nets_ext nets nets' -> is_Some (nets !! n) -> netName nets' n = netName nets n.
Proof.
  intros He [ns Hn]. destruct (He n ns Hn) as (ns' & Hn' & E).
  unfold netName. rewrite Hn, Hn'. exact E.
Qed.

Lemma nets_ext_is_Some nets nets' n :
  nets_ext nets nets' -> is_Some (nets !! n) -> is_Some (nets' !! n).
Proof. intros He [ns Hn]. destruct (He n ns Hn) as (ns' & Hn' & _). eauto. Qed.

Lemma nets_ext_insert nets n ns l :
  nets !! n = Some ns -> nets_ext nets (<[n := mkNetSignal (ns_name ns) l]> nets).
Proof.
  intros Hn m ms Hm. destruct (decide (m = n)) as [->|Hne].
  - rewrite lookup_insert_eq. eexists; split; [reflexivity |]. simpl. congruence.
  - rewrite lookup_insert_ne by congruence. eauto.
Qed.

Lemma upd_agree nets c sg sg' :
  csi_agree sg sg' -> upd nets c sg = sg -> upd nets c sg' = sg'.
Proof.
  destruct sg, sg'. unfold csi_agree. simpl. intros (-> & -> & -> & -> & ->) H.
  unfold csi_updateErcMessages, csi_with_erc, csi_getForcedNetSignalName in *. simpl in *.
  injection H as H1 H2. rewrite H1, H2. reflexivity.
Qed.

Lemma core_name c c' : ci_core c' = ci_core c -> ci_name c' = ci_name c.
Proof. intros H. exact (f_equal ci_name H). Qed.
Lemma core_value c c' : ci_core c' = ci_core c -> ci_value c' = ci_value c.
Proof. intros H. exact (f_equal ci_value H). Qed.
Lemma core_attributes c c' : ci_core c' = ci_core c -> ci_attributes c' = ci_attributes c.
Proof. intros H. exact (f_equal ci_attributes H). Qed.
Lemma core_added c c' : ci_core c' = ci_core c -> ci_added c' = ci_added c.
Proof. intros H. exact (f_equal ci_added H). Qed.
Lemma core_symbols c c' : ci_core c' = ci_core c -> ci_symbols c' = ci_symbols c.
Proof. intros H. exact (f_equal ci_symbols H). Qed.
Lemma core_devices c c' : ci_core c' = ci_core c -> ci_devices c' = ci_devices c.
Proof. intros H. exact (f_equal ci_devices H). Qed.
Lemma core_uuid c c' : ci_core c' = ci_core c -> ci_uuid c' = ci_uuid c.
Proof. intros H. exact (f_equal ci_uuid H). Qed.
Lemma core_with_signals c m : ci_core (ci_with_signals c m) = ci_core c.
Proof. destruct c; reflexivity. Qed.

(** A change of signal instances and registrations keeps [Wf] when every
    signal instance either carries over its ERC-relevant data or is
    consistent in the new state. *)
Lemma wf_transfer s s' :
  Wf s -> ci_core (st_cmp s') = ci_core (st_cmp s) -> nets_ext (st_nets s) (st_nets s') ->
  (forall v sg', ci_signals (st_cmp s') !! v = Some sg' ->
     (exists sg, ci_signals (st_cmp s) !! v = Some sg /\ csi_agree sg sg') \/
     (upd (st_nets s') (st_cmp s') sg' = sg' /\
      forall n, si_net sg' = Some n -> is_Some (st_nets s' !! n))) ->
  Wf s'.
Proof.
  intros W Hc He Hs. constructor.
  - intros v sg' Hv. destruct (Hs v sg' Hv) as [(sg & Hsg & Ha) | [Hu _]]; [| exact Hu].
    rewrite (upd_frame pav rv (st_nets s') (st_nets s) (st_cmp s') (st_cmp s)).
    + eapply upd_agree; [exact Ha | eapply wf_erc_sig; eassumption].
    + apply core_name; exact Hc.
    + apply core_value; exact Hc.
    + apply core_attributes; exact Hc.
    + intros n Hn. apply nets_ext_netName; [exact He |].
      destruct Ha as (_ & _ & Hnet & _). apply (wf_net _ _ _ W v sg n Hsg). congruence.
  - intros v sg' n Hv Hn. destruct (Hs v sg' Hv) as [(sg & Hsg & Ha) | [_ Hx]]; [| exact (Hx n Hn)].
    apply (nets_ext_is_Some (st_nets s)); [exact He |].
    destruct Ha as (_ & _ & Hnet & _). apply (wf_net _ _ _ W v sg n Hsg). congruence.
  - rewrite (core_added _ _ Hc), (core_symbols _ _ Hc), (core_devices _ _ Hc). apply (wf_idle_cmp _ _ _ W).
  - rewrite (core_symbols _ _ Hc). apply (wf_schematic _ _ _ W).
Qed.

Lemma csi_agree_refl sg : csi_agree sg sg.
Proof. unfold csi_agree. tauto. Qed.

Lemma Step_refl s : Step s s.
Proof. split; [reflexivity | split; [apply nets_ext_refl | tauto]]. Qed.

Lemma Step_trans s1 s2 s3 : Step s1 s2 -> Step s2 s3 -> Step s1 s3.
Proof.
  intros (C1 & E1 & W1) (C2 & E2 & W2). split; [congruence | split; [eapply nets_ext_trans; eassumption | tauto]].
Qed.

(** A change of the net signal registrations only. *)
Lemma Step_nets s nets' :
  nets_ext (st_nets s) nets' -> (forall n, is_Some (nets' !! n) -> is_Some (st_nets s !! n)) ->
  Step s (mkState nets' (st_cmp s)).
Proof.
  intros He Hd. split; [reflexivity | split; [exact He |]]. intros W.
  apply (wf_transfer s); [exact W | reflexivity | exact He |].
  intros v sg' Hv. left. exists sg'. split; [exact Hv | apply csi_agree_refl].
Qed.

Lemma Step_bind {A B} (m : M A) (k : A -> M B) s :
  (match m s with
   | (Ok a, s1) => Step s s1 /\ Step s1 (snd (k a s1))
   | (Err _, s1) => Step s s1
   end) -> Step s (snd (bind m k s)).
Proof.
  unfold bind. destruct (m s) as [[a|e] s1]; [intros [H1 H2]; eapply Step_trans; eassumption | tauto].
Qed.

Lemma bind_csi_get {B} u (k : ComponentSignalInstance -> M B) s :
  bind (csi_get u) k s = match ci_signals (st_cmp s) !! u with
                         | Some sg => k sg s
                         | None => (Err (LogicError noMsg), s)
                         end.
Proof. unfold bind, csi_get. destruct (ci_signals (st_cmp s) !! u); reflexivity. Qed.

Lemma bind_cmp_get {B} (k : ComponentInstance -> M B) s : bind cmp_get k s = k (st_cmp s) s.
Proof. reflexivity. Qed.

Lemma Keeps_ret {A} (a : A) : Keeps (ret a).
Proof. intros s. apply Step_refl. Qed.

Lemma Keeps_throw {A} e : Keeps (@throw A e).
Proof. intros s. apply Step_refl. Qed.

Lemma Keeps_bind {A B} (m : M A) (k : A -> M B) : Keeps m -> (forall a, Keeps (k a)) -> Keeps (bind m k).
Proof.
  intros Hm Hk s. apply Step_bind. specialize (Hm s).
  destruct (m s) as [[a|e] s1]; [split; [exact Hm | apply Hk] | exact Hm].
Qed.

Lemma sgl_run_Step sgl s : Forall Keeps sgl -> Step s (sgl_run sgl s).
Proof.
  revert s. induction sgl as [|g gs IH]; intros s Hf; simpl; [apply Step_refl |].
  inversion Hf as [|? ? Hg Hgs]; subst. eapply Step_trans; [apply Hg | apply IH; exact Hgs].
Qed.

Lemma Keeps_guarded {A} sgl (m : M A) : Forall Keeps sgl -> Keeps m -> Keeps (guarded sgl m).
Proof.
  intros Hs Hm s. unfold guarded. specialize (Hm s).
  destruct (m s) as [[a|e] s1]; simpl in *; [exact Hm |].
  eapply Step_trans; [exact Hm | apply sgl_run_Step; exact Hs].
Qed.

Lemma Keeps_register n k : Keeps (registerComponentSignal n k).
Proof.
  intros s. unfold registerComponentSignal.
  destruct (st_nets s !! n) as [ns|] eqn:Hn; [| apply Step_refl].
  case_decide; [apply Step_refl |]. simpl. apply Step_nets.
  - apply nets_ext_insert; exact Hn.
  - intros m. destruct (decide (m = n)) as [->|Hne]; [rewrite Hn; eauto |].
    rewrite lookup_insert_ne by congruence. tauto.
Qed.

Lemma Keeps_unregister n k : Keeps (unregisterComponentSignal n k).
Proof.
  intros s. unfold unregisterComponentSignal.
  destruct (st_nets s !! n) as [ns|] eqn:Hn; [| apply Step_refl].
  case_decide; [| apply Step_refl]. simpl. apply Step_nets.
  - apply nets_ext_insert; exact Hn.
  - intros m. destruct (decide (m = n)) as [->|Hne]; [rewrite Hn; eauto |].
    rewrite lookup_insert_ne by congruence. tauto.
Qed.

Lemma register_cmp n k s : st_cmp (snd (registerComponentSignal n k s)) = st_cmp s.
Proof.
  unfold registerComponentSignal. destruct (st_nets s !! n); [case_decide |]; reflexivity.
Qed.

Lemma unregister_cmp n k s : st_cmp (snd (unregisterComponentSignal n k s)) = st_cmp s.
Proof.
  unfold unregisterComponentSignal. destruct (st_nets s !! n); [case_decide |]; reflexivity.
Qed.

Lemma register_ok_net n k s r s' :
  registerComponentSignal n k s = (Ok r, s') -> is_Some (st_nets s' !! n).
Proof.
  unfold registerComponentSignal. destruct (st_nets s !! n) eqn:Hn; [case_decide |];
    intros Hr; inversion Hr; subst; simpl; rewrite ?lookup_insert_eq; eauto.
Qed.

Lemma put_update_eq u sg' s :
  (do! csi_put u sg' in csi_update pav rv u) s =
  (Ok tt, mkState (st_nets s) (ci_with_signals (st_cmp s)
                                 (<[u := upd (st_nets s) (st_cmp s) sg']> (ci_signals (st_cmp s))))).
Proof.
  destruct s as [nets c]. unfold bind, csi_put, csi_update, modify_cmp. simpl.
  rewrite lookup_insert_eq. unfold csi_put, modify_cmp. cbn [ci_signals ci_with_signals st_nets st_cmp].
  rewrite insert_insert_eq, ci_with_signals_twice.
  rewrite (upd_frame pav rv nets nets (ci_with_signals c (<[u:=sg']> (ci_signals c))) c) by reflexivity.
  reflexivity.
Qed.

Lemma Step_put_upd u sg' s :
  (Wf s -> forall n, si_net sg' = Some n -> is_Some (st_nets s !! n)) ->
  Step s (mkState (st_nets s) (ci_with_signals (st_cmp s)
                                 (<[u := upd (st_nets s) (st_cmp s) sg']> (ci_signals (st_cmp s))))).
Proof.
  intros Hnet. split; [apply core_with_signals | split; [apply nets_ext_refl |]]. intros W.
  apply (wf_transfer s); [exact W | apply core_with_signals | apply nets_ext_refl |].
  simpl. intros v sg'' Hv. destruct (decide (v = u)) as [->|Hne].
  - rewrite lookup_insert_eq in Hv. injection Hv as <-. right. split.
    + rewrite (upd_frame pav rv _ (st_nets s) _ (st_cmp s)) by reflexivity. apply upd_idem.
    + exact (Hnet W).
  - rewrite lookup_insert_ne in Hv by congruence. left. exists sg''. split; [exact Hv | apply csi_agree_refl].
Qed.

Lemma Step_put_update u sg' s :
  (Wf s -> forall n, si_net sg' = Some n -> is_Some (st_nets s !! n)) ->
  Step s (snd ((do! csi_put u sg' in csi_update pav rv u) s)).
Proof. intros H. rewrite put_update_eq. apply Step_put_upd. exact H. Qed.

Lemma Keeps_csi_update u : Keeps (csi_update pav rv u).
Proof.
  intros s. unfold csi_update. destruct (ci_signals (st_cmp s) !! u) as [sg|] eqn:Hu; [| apply Step_refl].
  unfold csi_put, modify_cmp. simpl.
  apply (Step_put_upd u sg s). intros W n Hn. eapply wf_net; eassumption.
Qed.

Lemma Step_put_agree u sg sg' s :
  ci_signals (st_cmp s) !! u = Some sg -> csi_agree sg sg' -> Step s (snd (csi_put u sg' s)).
Proof.
  intros Hu Ha. unfold csi_put, modify_cmp. simpl.
  split; [apply core_with_signals | split; [apply nets_ext_refl |]]. intros W.
  apply (wf_transfer s); [exact W | apply core_with_signals | apply nets_ext_refl |].
  simpl. intros v sg'' Hv. left. destruct (decide (v = u)) as [->|Hne].
  - rewrite lookup_insert_eq in Hv. injection Hv as <-. eauto.
  - rewrite lookup_insert_ne in Hv by congruence. exists sg''. split; [exact Hv | apply csi_agree_refl].
Qed.

Ltac step_get :=
  rewrite ?bind_csi_get, ?bind_cmp_get;
  lazymatch goal with
  | |- Step ?s (snd (match ci_signals (st_cmp ?s) !! ?u with _ => _ end)) =>
      let sg := fresh "sg" in let Hu := fresh "Hu" in
      destruct (ci_signals (st_cmp s) !! u) as [sg|] eqn:Hu; [cbn beta | apply Step_refl]
  | _ => cbn beta
  end.

Lemma Keeps_addToCircuit u : Keeps (csi_addToCircuit pav rv u).
Proof.
  intros s. unfold csi_addToCircuit. step_get. step_get.
  destruct (si_added sg || csi_isUsed sg); cbn iota beta; [apply Step_refl |].
  apply Step_bind. destruct (si_net sg) as [n|] eqn:Hn.
  - pose proof (Keeps_register n (sigKey (st_cmp s) u) s) as Hk.
    pose proof (register_cmp n (sigKey (st_cmp s) u) s) as Hc.
    destruct (registerComponentSignal n (sigKey (st_cmp s) u) s) as [[[]|e] s1] eqn:Hr; simpl in Hk, Hc;
      [split; [exact Hk |] | exact Hk].
    apply Step_put_update. intros W m Hm. simpl in Hm. rewrite Hn in Hm. injection Hm as <-.
    eapply register_ok_net; exact Hr.
  - split; [apply Step_refl |]. apply Step_put_update. intros W m Hm. simpl in Hm. congruence.
Qed.

Lemma Keeps_removeFromCircuit u : Keeps (csi_removeFromCircuit pav rv u).
Proof.
  intros s. unfold csi_removeFromCircuit. step_get. step_get.
  destruct (negb (si_added sg)); cbn iota beta; [apply Step_refl |].
  destruct (csi_isUsed sg); cbn iota beta; [apply Step_refl |].
  apply Step_bind. destruct (si_net sg) as [n|] eqn:Hn.
  - pose proof (Keeps_unregister n (sigKey (st_cmp s) u) s) as Hk.
    pose proof (unregister_cmp n (sigKey (st_cmp s) u) s) as Hc.
    destruct (unregisterComponentSignal n (sigKey (st_cmp s) u) s) as [[[]|e] s1] eqn:Hr; simpl in Hk, Hc;
      [split; [exact Hk |] | exact Hk].
    apply Step_put_update. intros W m Hm. simpl in Hm. rewrite Hn in Hm. injection Hm as <-.
    apply (wf_net _ _ s1 W u sg); [rewrite Hc; exact Hu | exact Hn].
  - split; [apply Step_refl |]. apply Step_put_update. intros W m Hm. simpl in Hm. congruence.
Qed.

Lemma bind_ret_eq {A B} (m : M A) (b : B) s :
  (do! m in ret b) s = match m s with (Ok _, s1) => (Ok b, s1) | (Err e, s1) => (Err e, s1) end.
Proof. reflexivity. Qed.

Lemma Keeps_setNetSignal u netsignal : Keeps (csi_setNetSignal pav rv u netsignal).
Proof.
  intros s. unfold csi_setNetSignal. step_get. step_get.
  destruct (decide (netsignal = si_net sg)); cbn iota beta; [apply Step_refl |].
  destruct (negb (si_added sg)); cbn iota beta; [apply Step_refl |].
  destruct (csi_arePinsOrPadsUsed sg); cbn iota beta; [apply Step_refl |].
  set (key := sigKey (st_cmp s) u).
  (* the old registration is released *)
  apply Step_bind.
  assert ((exists sgl s1, match si_net sg with
            | Some old => do! unregisterComponentSignal old key in ret [registerComponentSignal old key]
            | None => ret [] end s = (Ok sgl, s1) /\ Step s s1 /\ st_cmp s1 = st_cmp s /\ Forall Keeps sgl)
          \/ (exists e s1, match si_net sg with
            | Some old => do! unregisterComponentSignal old key in ret [registerComponentSignal old key]
            | None => ret [] end s = (Err e, s1) /\ Step s s1)) as Hold.
  { destruct (si_net sg) as [old|].
    - rewrite bind_ret_eq. pose proof (Keeps_unregister old key s) as Hk.
      pose proof (unregister_cmp old key s) as Hc.
      destruct (unregisterComponentSignal old key s) as [[[]|e] s1]; simpl in Hk, Hc.
      + left. do 2 eexists. split; [reflexivity |]. split; [exact Hk | split; [exact Hc |]].
        constructor; [apply Keeps_register | constructor].
      + right. do 2 eexists. split; [reflexivity | exact Hk].
    - left. do 2 eexists. split; [reflexivity |]. split; [apply Step_refl | split; [reflexivity | constructor]]. }
  destruct Hold as [(sgl & s1 & -> & Hs1 & Hc1 & Hsgl) | (e & s1 & -> & Hs1)]; [| exact Hs1].
  split; [exact Hs1 |]. cbn beta.
  (* the new registration *)
  apply Step_bind. destruct netsignal as [nw|].
  - rewrite bind_ret_eq. unfold guarded.
    pose proof (Keeps_register nw key s1) as Hk.
    pose proof (register_cmp nw key s1) as Hc.
    destruct (registerComponentSignal nw key s1) as [[[]|e] s2] eqn:Hr; simpl in Hk, Hc.
    + split; [exact Hk |]. cbn beta. rewrite bind_csi_get. rewrite Hc, Hc1, Hu. cbn beta.
      apply Step_put_update. intros W m Hm. simpl in Hm. injection Hm as <-.
      eapply register_ok_net; exact Hr.
    + eapply Step_trans; [exact Hk | apply sgl_run_Step; exact Hsgl].
  - split; [apply Step_refl |]. cbn beta. rewrite bind_csi_get. rewrite Hc1, Hu. cbn beta.
    apply Step_put_update. intros W m Hm. simpl in Hm. congruence.
Qed.

Lemma agree_with_pins sg l : csi_agree sg (csi_with_pins sg l).
Proof. repeat split. Qed.

Lemma agree_with_pads sg l : csi_agree sg (csi_with_pads sg l).
Proof. repeat split. Qed.

Lemma Keeps_registerSymbolPin u pin : Keeps (csi_registerSymbolPin u pin).
Proof.
  intros s. unfold csi_registerSymbolPin. step_get. step_get.
  case_match; [apply Step_refl |]. eapply Step_put_agree; [exact Hu | apply agree_with_pins].
Qed.

Lemma Keeps_unregisterSymbolPin u pin : Keeps (csi_unregisterSymbolPin u pin).
Proof.
  intros s. unfold csi_unregisterSymbolPin. step_get.
  case_match; [apply Step_refl |]. eapply Step_put_agree; [exact Hu | apply agree_with_pins].
Qed.

Lemma Keeps_registerFootprintPad u pad : Keeps (csi_registerFootprintPad u pad).
Proof.
  intros s. unfold csi_registerFootprintPad. step_get. step_get.
  case_match; [apply Step_refl |]. eapply Step_put_agree; [exact Hu | apply agree_with_pads].
Qed.

Lemma Keeps_unregisterFootprintPad u pad : Keeps (csi_unregisterFootprintPad u pad).
Proof.
  intros s. unfold csi_unregisterFootprintPad. step_get.
  case_match; [apply Step_refl |]. eapply Step_put_agree; [exact Hu | apply agree_with_pads].
Qed.

Lemma Keeps_setPinNetPoint u pid b : Keeps (env_setPinNetPoint u pid b).
Proof.
  intros s. unfold env_setPinNetPoint. step_get. eapply Step_put_agree; [exact Hu | apply agree_with_pins].
Qed.

Lemma Keeps_setPadUsed u pid b : Keeps (env_setPadUsed u pid b).
Proof.
  intros s. unfold env_setPadUsed. step_get. eapply Step_put_agree; [exact Hu | apply agree_with_pads].
Qed.

Lemma Keeps_updateAll us : Keeps (csi_updateAll pav rv us).
Proof.
  induction us as [|u us IH]; simpl; [apply Keeps_ret |].
  apply Keeps_bind; [apply Keeps_csi_update | intros _; exact IH].
Qed.

Lemma Keeps_addSignals us sgl :
  Forall Keeps sgl -> Keeps (cmp_addSignals pav rv us sgl).
Proof.
  revert sgl. induction us as [|u us IH]; intros sgl Hs; simpl; [apply Keeps_ret |].
  apply Keeps_bind; [apply Keeps_guarded; [exact Hs | apply Keeps_addToCircuit] |].
  intros _. apply IH. constructor; [apply Keeps_removeFromCircuit | exact Hs].
Qed.

Lemma Keeps_removeSignals us sgl :
  Forall Keeps sgl -> Keeps (cmp_removeSignals pav rv us sgl).
Proof.
  revert sgl. induction us as [|u us IH]; intros sgl Hs; simpl; [apply Keeps_ret |].
  apply Keeps_bind; [apply Keeps_guarded; [exact Hs | apply Keeps_removeFromCircuit] |].
  intros _. apply IH. constructor; [apply Keeps_addToCircuit | exact Hs].
Qed.

(** A change of the component instance that keeps its signal instances
    and the data their ERC messages are computed from. *)
Lemma wf_cmp_change s c' :
  Wf s -> ci_signals c' = ci_signals (st_cmp s) ->
  ci_name c' = ci_name (st_cmp s) -> ci_value c' = ci_value (st_cmp s) ->
  ci_attributes c' = ci_attributes (st_cmp s) ->
  (ci_added c' = false -> ci_symbols c' = ∅ /\ ci_devices c' = []) ->
  (forall k1 k2 s1 s2, ci_symbols c' !! k1 = Some s1 -> ci_symbols c' !! k2 = Some s2 ->
     sym_schematic s1 = sym_schematic s2) ->
  Wf (mkState (st_nets s) c').
Proof.
  intros W Hs Hn Hv Ha Hi Hsch. constructor; simpl.
  - intros u sg Hu. rewrite Hs in Hu.
    rewrite (upd_frame pav rv _ (st_nets s) _ (st_cmp s)) by (congruence || reflexivity).
    eapply wf_erc_sig; eassumption.
  - intros u sg n Hu. rewrite Hs in Hu. eapply wf_net; eassumption.
  - exact Hi.
  - exact Hsch.
Qed.

Lemma wf_bind_keeps {A B} (m : M A) (k : A -> M B) s :
  Keeps m -> (forall a s1, Step s s1 -> Wf s1 -> Wf (snd (k a s1))) -> Wf s -> Wf (snd (bind m k s)).
Proof.
  intros Hm Hk W. unfold bind. specialize (Hm s).
  destruct (m s) as [[a|e] s1]; simpl in Hm; simpl.
  - apply (Hk a s1); [exact Hm | apply Hm; exact W].
  - apply Hm; exact W.
Qed.

Lemma bind_ret_l {A B} (a : A) (k : A -> M B) s : bind (ret a) k s = k a s.
Proof. reflexivity. Qed.

Lemma bind_throw_l {A B} e (k : A -> M B) s : bind (throw e) k s = (Err e, s).
Proof. reflexivity. Qed.

Lemma bind_modify {B} f (k : unit -> M B) s :
  bind (modify_cmp f) k s = k tt (mkState (st_nets s) (f (st_cmp s))).
Proof. reflexivity. Qed.

Lemma modify_update_eq f s :
  (do! modify_cmp f in cmp_update) s = (Ok tt, mkState (st_nets s) (cmp_updateErcMessages (f (st_cmp s)))).
Proof. reflexivity. Qed.

Lemma Wf_addToCircuit s : Wf s -> Wf (snd (cmp_addToCircuit pav rv s)).
Proof.
  intros W. unfold cmp_addToCircuit. rewrite bind_cmp_get. cbn beta.
  destruct (ci_added (st_cmp s) || cmp_isUsed (st_cmp s)); cbn iota; [exact W |].
  apply wf_bind_keeps; [apply Keeps_addSignals; constructor | | exact W].
  intros sgl s1 _ W1. rewrite modify_update_eq. simpl.
  apply wf_cmp_change; [exact W1 | cmp_simpl; reflexivity .. | |]; cmp_simpl.
  - discriminate.
  - apply (wf_schematic _ _ _ W1).
Qed.

Lemma Wf_removeFromCircuit s : Wf s -> Wf (snd (cmp_removeFromCircuit pav rv s)).
Proof.
  intros W. unfold cmp_removeFromCircuit. rewrite bind_cmp_get. cbn beta.
  destruct (negb (ci_added (st_cmp s))); cbn iota; [exact W |].
  destruct (cmp_isUsed (st_cmp s)) eqn:Hused; cbn iota; [exact W |].
  unfold cmp_isUsed, cmp_getRegisteredElementsCount in Hused.
  apply orb_false_iff in Hused as [Hcnt _]. apply Nat.ltb_ge in Hcnt.
  assert (Hsym : ci_symbols (st_cmp s) = ∅) by (apply map_size_empty_iff; lia).
  assert (Hdev : ci_devices (st_cmp s) = []) by (apply nil_length_inv; lia).
  apply wf_bind_keeps; [apply Keeps_removeSignals; constructor | | exact W].
  intros sgl s1 (Hc & _ & _) W1. rewrite modify_update_eq. simpl.
  apply wf_cmp_change; [exact W1 | cmp_simpl; reflexivity .. | |]; cmp_simpl.
  - intros _. rewrite (core_symbols _ _ Hc), (core_devices _ _ Hc). tauto.
  - apply (wf_schematic _ _ _ W1).
Qed.

Lemma Wf_registerSymbol symbol s : Wf s -> Wf (snd (cmp_registerSymbol symbol s)).
Proof.
  intros W. unfold cmp_registerSymbol. rewrite bind_cmp_get. cbn beta.
  destruct (negb (ci_added (st_cmp s)) || negb (sym_circuit symbol =? ci_circuit (st_cmp s))) eqn:Hadd;
    cbn iota; [exact W |].
  apply orb_false_iff in Hadd as [Hadd _]. apply negb_false_iff in Hadd.
  destruct (negb (existsb _ _)); cbn iota; [exact W |].
  destruct (cmp_isRegisteredItem _ _); cbn iota; [exact W |].
  assert (Hall : forall x, (exists k, ci_symbols (st_cmp s) !! k = Some x) ->
            match map_to_list (ci_symbols (st_cmp s)) with
            | (_, first) :: _ => sym_schematic x = sym_schematic first
            | [] => False end).
  { intros x [k Hk]. destruct (map_to_list (ci_symbols (st_cmp s))) as [|[k0 first] rest] eqn:Hl.
    - apply map_to_list_empty_iff in Hl. rewrite Hl, lookup_empty in Hk. discriminate.
    - apply (wf_schematic _ _ _ W k k0); [exact Hk |]. apply elem_of_map_to_list. rewrite Hl. left. }
  destruct (map_to_list (ci_symbols (st_cmp s))) as [|[k0 first] rest] eqn:Hl.
  - rewrite bind_ret_l. rewrite modify_update_eq. simpl.
    apply wf_cmp_change; [exact W | cmp_simpl; reflexivity .. | |]; cmp_simpl; [congruence |].
    intros k1 k2 s1 s2 H1 H2. apply lookup_insert_Some in H1, H2.
    destruct H1 as [[_ <-] | [_ H1]]; [| destruct (Hall s1 (ex_intro _ _ H1))].
    destruct H2 as [[_ <-] | [_ H2]]; [reflexivity | destruct (Hall s2 (ex_intro _ _ H2))].
  - destruct (negb (sym_schematic symbol =? sym_schematic first)) eqn:Hsch; [rewrite bind_throw_l; exact W |].
    apply negb_false_iff, Nat.eqb_eq in Hsch.
    rewrite bind_ret_l. rewrite modify_update_eq. simpl.
    apply wf_cmp_change; [exact W | cmp_simpl; reflexivity .. | |]; cmp_simpl; [congruence |].
    assert (Hx : forall k x, <[sym_item symbol := symbol]> (ci_symbols (st_cmp s)) !! k = Some x ->
                  sym_schematic x = sym_schematic first).
    { intros k x Hk. apply lookup_insert_Some in Hk as [[_ <-] | [_ Hk]]; [exact Hsch |].
      exact (Hall x (ex_intro _ _ Hk)). }
    intros k1 k2 s1 s2 H1 H2. rewrite (Hx _ _ H1), (Hx _ _ H2). reflexivity.
Qed.

Lemma Wf_unregisterSymbol symbol s : Wf s -> Wf (snd (cmp_unregisterSymbol symbol s)).
Proof.
  intros W. unfold cmp_unregisterSymbol. rewrite bind_cmp_get. cbn beta.
  destruct (ci_symbols (st_cmp s) !! sym_item symbol) as [registered|]; [| exact W].
  destruct (negb (ci_added (st_cmp s)) || _) eqn:Hadd; [exact W |].
  apply orb_false_iff in Hadd as [Hadd _]. apply negb_false_iff in Hadd.
  rewrite modify_update_eq. simpl.
  apply wf_cmp_change; [exact W | cmp_simpl; reflexivity .. | |]; cmp_simpl; [congruence |].
  intros k1 k2 s1 s2 H1 H2. apply lookup_delete_Some in H1 as [_ H1], H2 as [_ H2].
  exact (wf_schematic _ _ _ W _ _ _ _ H1 H2).
Qed.

Lemma Wf_registerDevice device s : Wf s -> Wf (snd (cmp_registerDevice device s)).
Proof.
  intros W. unfold cmp_registerDevice. rewrite bind_cmp_get. cbn beta.
  destruct (negb (ci_added (st_cmp s)) || _ || _ || _) eqn:Hadd; [exact W |].
  apply orb_false_iff in Hadd as [Hadd _]. apply orb_false_iff in Hadd as [Hadd _].
  apply orb_false_iff in Hadd as [Hadd _]. apply negb_false_iff in Hadd.
  rewrite modify_update_eq. simpl.
  apply wf_cmp_change; [exact W | cmp_simpl; reflexivity .. | |]; cmp_simpl; [congruence |].
  apply (wf_schematic _ _ _ W).
Qed.

Lemma Wf_unregisterDevice device s : Wf s -> Wf (snd (cmp_unregisterDevice device s)).
Proof.
  intros W. unfold cmp_unregisterDevice. rewrite bind_cmp_get. cbn beta.
  destruct (negb (ci_added (st_cmp s)) || _) eqn:Hadd; [exact W |].
  apply orb_false_iff in Hadd as [Hadd _]. apply negb_false_iff in Hadd.
  rewrite modify_update_eq. simpl.
  apply wf_cmp_change; [exact W | cmp_simpl; reflexivity .. | |]; cmp_simpl; [congruence |].
  apply (wf_schematic _ _ _ W).
Qed.

Lemma upd_with_signals nets c m : upd nets (ci_with_signals c m) = upd nets c.
Proof. reflexivity. Qed.

(** [csi_updateAll us] recomputes the ERC messages of the signal
    instances listed in [us]. *)
Lemma updateAll_spec us s :
  exists c', snd (csi_updateAll pav rv us s) = mkState (st_nets s) c' /\
    ci_core c' = ci_core (st_cmp s) /\
    forall v, ci_signals c' !! v =
      if decide (v ∈ us) then upd (st_nets s) (st_cmp s) <$> ci_signals (st_cmp s) !! v
      else ci_signals (st_cmp s) !! v.
Proof.
  revert s. induction us as [|u us IH]; intros s.
  - exists (st_cmp s). split; [destruct s; reflexivity | split; [reflexivity |]].
    intros v. rewrite decide_False by apply not_elem_of_nil. reflexivity.
  - simpl. unfold bind at 1, csi_update at 1.
    destruct (ci_signals (st_cmp s) !! u) as [sg|] eqn:Hu.
    + unfold csi_put, modify_cmp. cbn iota beta.
      destruct (IH (mkState (st_nets s) (ci_with_signals (st_cmp s)
                 (<[u := upd (st_nets s) (st_cmp s) sg]> (ci_signals (st_cmp s))))))
        as (c' & Hs' & Hc' & Hv').
      exists c'. split; [exact Hs' | split; [rewrite Hc'; apply core_with_signals |]].
      intros v. rewrite Hv'. simpl. rewrite upd_with_signals.
      destruct (decide (v = u)) as [->|Hne].
      * rewrite lookup_insert_eq, (decide_True (P := u ∈ u :: us)) by (apply elem_of_cons; left; reflexivity). rewrite Hu. simpl.
        destruct (decide (u ∈ us)); simpl; rewrite ?upd_idem; reflexivity.
      * rewrite lookup_insert_ne by congruence.
        destruct (decide (v ∈ us)) as [Hin|Hin]; destruct (decide (v ∈ u :: us)) as [Hin'|Hin'];
          try reflexivity; exfalso; rewrite elem_of_cons in Hin'; tauto.
    + cbn iota beta. destruct (IH s) as (c' & Hs' & Hc' & Hv').
      exists c'. split; [exact Hs' | split; [exact Hc' |]].
      intros v. rewrite Hv'. destruct (decide (v = u)) as [->|Hne].
      * rewrite Hu. destruct (decide (u ∈ us)), (decide (u ∈ u :: us)); reflexivity.
      * destruct (decide (v ∈ us)) as [Hin|Hin]; destruct (decide (v ∈ u :: us)) as [Hin'|Hin'];
          try reflexivity; exfalso; rewrite elem_of_cons in Hin'; tauto.
Qed.

Lemma signalUuids_complete c v : is_Some (ci_signals c !! v) -> v ∈ cmp_signalUuids c.
Proof.
  intros [sg Hv]. unfold cmp_signalUuids. apply list_elem_of_In, in_map_iff.
  exists (v, sg). split; [reflexivity |]. apply list_elem_of_In, elem_of_map_to_list. exact Hv.
Qed.

(** Recomputing the ERC messages of all signal instances restores [Wf]
    after a change of the data they are computed from. *)
Lemma Wf_updateAll_all us s :
  (forall v, is_Some (ci_signals (st_cmp s) !! v) -> v ∈ us) ->
  (forall u sg n, ci_signals (st_cmp s) !! u = Some sg -> si_net sg = Some n -> is_Some (st_nets s !! n)) ->
  (ci_added (st_cmp s) = false -> ci_symbols (st_cmp s) = ∅ /\ ci_devices (st_cmp s) = []) ->
  (forall k1 k2 s1 s2, ci_symbols (st_cmp s) !! k1 = Some s1 ->
     ci_symbols (st_cmp s) !! k2 = Some s2 -> sym_schematic s1 = sym_schematic s2) ->
  Wf (snd (csi_updateAll pav rv us s)).
Proof.
  intros Hall Hnet Hidle Hsch. destruct (updateAll_spec us s) as (c' & -> & Hc & Hv).
  constructor; simpl.
  - intros v sg' Hsg'. rewrite Hv in Hsg'.
    destruct (ci_signals (st_cmp s) !! v) as [sg|] eqn:Hl; [| destruct (decide _); discriminate].
    rewrite decide_True in Hsg' by (apply Hall; rewrite Hl; eauto). injection Hsg' as <-.
    rewrite (upd_frame pav rv _ (st_nets s) _ (st_cmp s)); [apply upd_idem | ..];
      [apply core_name | apply core_value | apply core_attributes | intros; reflexivity]; exact Hc.
  - intros v sg' n Hsg' Hn. rewrite Hv in Hsg'. case_decide.
    + destruct (ci_signals (st_cmp s) !! v) as [sg|] eqn:Hsg; [| discriminate].
      injection Hsg' as <-. eapply Hnet; [exact Hsg | exact Hn].
    + eapply Hnet; eassumption.
  - rewrite (core_added _ _ Hc), (core_symbols _ _ Hc), (core_devices _ _ Hc). exact Hidle.
  - rewrite (core_symbols _ _ Hc). exact Hsch.
Qed.

Lemma Wf_emitAttributesChanged s :
  (forall u sg n, ci_signals (st_cmp s) !! u = Some sg -> si_net sg = Some n -> is_Some (st_nets s !! n)) ->
  (ci_added (st_cmp s) = false -> ci_symbols (st_cmp s) = ∅ /\ ci_devices (st_cmp s) = []) ->
  (forall k1 k2 s1 s2, ci_symbols (st_cmp s) !! k1 = Some s1 ->
     ci_symbols (st_cmp s) !! k2 = Some s2 -> sym_schematic s1 = sym_schematic s2) ->
  Wf (snd (cmp_emitAttributesChanged pav rv s)).
Proof.
  intros Hnet Hidle Hsch. unfold cmp_emitAttributesChanged. rewrite bind_cmp_get.
  apply Wf_updateAll_all; [apply signalUuids_complete | exact Hnet | exact Hidle | exact Hsch].
Qed.

Lemma Wf_setName name s : Wf s -> Wf (snd (cmp_setName pav rv name s)).
Proof.
  intros W. unfold cmp_setName. rewrite bind_cmp_get. cbn beta.
  destruct (String.eqb name _); [exact W |]. destruct (String.eqb name ""); [exact W |].
  rewrite bind_modify. unfold cmp_update. rewrite bind_modify.
  apply Wf_emitAttributesChanged; simpl; cmp_simpl.
  - apply (wf_net _ _ _ W).
  - apply (wf_idle_cmp _ _ _ W).
  - apply (wf_schematic _ _ _ W).
Qed.

Lemma Wf_setValue value s : Wf s -> Wf (snd (cmp_setValue pav rv value s)).
Proof.
  intros W. unfold cmp_setValue. rewrite bind_cmp_get. cbn beta.
  destruct (String.eqb value _); [exact W |].
  rewrite bind_modify.
  apply Wf_emitAttributesChanged; simpl; cmp_simpl.
  - apply (wf_net _ _ _ W).
  - apply (wf_idle_cmp _ _ _ W).
  - apply (wf_schematic _ _ _ W).
Qed.

Lemma Wf_setAttributes a s : Wf s -> Wf (snd (cmp_setAttributes pav rv a s)).
Proof.
  intros W. unfold cmp_setAttributes. rewrite bind_cmp_get. cbn beta.
  destruct (decide _); [exact W |].
  rewrite bind_modify.
  apply Wf_emitAttributesChanged; simpl; cmp_simpl.
  - apply (wf_net _ _ _ W).
  - apply (wf_idle_cmp _ _ _ W).
  - apply (wf_schematic _ _ _ W).
Qed.

Lemma signalsOfNet_complete c n v sg :
  ci_signals c !! v = Some sg -> si_net sg = Some n -> v ∈ cmp_signalsOfNet c n.
Proof.
  intros Hv Hn. unfold cmp_signalsOfNet. apply list_elem_of_In, in_map_iff.
  exists (v, sg). split; [reflexivity |]. apply list_elem_of_In, list_elem_of_filter.
  split; [exact Hn | apply elem_of_map_to_list; exact Hv].
Qed.

Lemma netName_setName_ne n name nets m :
  m <> n -> netName (netSignal_setName n name nets) m = netName nets m.
Proof.
  intros Hne. unfold netName, netSignal_setName.
  destruct (nets !! n); [rewrite lookup_insert_ne by congruence |]; reflexivity.
Qed.

Lemma setName_is_Some n name nets m :
  is_Some (netSignal_setName n name nets !! m) <-> is_Some (nets !! m).
Proof.
  unfold netSignal_setName. destruct (nets !! n) eqn:Hn; [| tauto].
  destruct (decide (m = n)) as [->|Hne].
  - rewrite lookup_insert_eq, Hn. split; eauto.
  - rewrite lookup_insert_ne by congruence. tauto.
Qed.

Lemma Wf_setNetSignalName n name s : Wf s -> Wf (snd (circuit_setNetSignalName pav rv n name s)).
Proof.
  intros W. unfold circuit_setNetSignalName. cbn beta.
  set (s1 := mkState (netSignal_setName n name (st_nets s)) (st_cmp s)).
  destruct (updateAll_spec (cmp_signalsOfNet (st_cmp s) n) s1) as (c' & Hs' & Hc & Hv).
  rewrite Hs'. unfold s1 in Hc, Hv. simpl in Hc, Hv.
  constructor; simpl.
  - intros v sg' Hsg'. rewrite Hv in Hsg'.
    destruct (ci_signals (st_cmp s) !! v) as [sg|] eqn:Hl; [| destruct (decide _); discriminate].
    case_decide as Hin.
    + injection Hsg' as <-.
      rewrite (upd_frame pav rv _ (netSignal_setName n name (st_nets s)) _ (st_cmp s));
        [apply upd_idem | ..];
        [apply core_name | apply core_value | apply core_attributes | intros; reflexivity]; exact Hc.
    + injection Hsg' as ->.
      rewrite (upd_frame pav rv _ (st_nets s) _ (st_cmp s));
        [eapply wf_erc_sig; eassumption | apply core_name | apply core_value | apply core_attributes | ];
        [exact Hc .. |].
      intros m Hm. apply netName_setName_ne. intros ->. apply Hin.
      eapply signalsOfNet_complete; eassumption.
  - intros v sg' m Hsg' Hm. apply setName_is_Some. rewrite Hv in Hsg'.
    destruct (ci_signals (st_cmp s) !! v) as [sg|] eqn:Hl; [| destruct (decide _); discriminate].
    case_decide; injection Hsg' as <-; eapply wf_net; eassumption.
  - rewrite (core_added _ _ Hc), (core_symbols _ _ Hc), (core_devices _ _ Hc). apply (wf_idle_cmp _ _ _ W).
  - rewrite (core_symbols _ _ Hc). apply (wf_schematic _ _ _ W).
Qed.

Lemma Wf_addNetSignal n name s : Wf s -> Wf (snd (circuit_addNetSignal n name s)).
Proof.
  intros W. unfold circuit_addNetSignal. destruct (st_nets s !! n) eqn:Hn; [exact W |]. simpl.
  assert (He : nets_ext (st_nets s) (<[n := mkNetSignal name []]> (st_nets s))).
  { intros m ns Hm. rewrite lookup_insert_ne by congruence. eauto. }
  apply (wf_transfer s); [exact W | reflexivity | exact He |].
  intros v sg' Hv. left. exists sg'. split; [exact Hv | apply csi_agree_refl].
Qed.

Lemma Keeps_Wf {A} (m : M A) s : Keeps m -> Wf s -> Wf (snd (m s)).
Proof. intros Hk W. apply (Hk s). exact W. Qed.

Lemma Wf_run_op op s : Wf s -> Wf (snd (run_op pav rv op s)).
Proof.
  intros W. destruct op; simpl.
  - apply Wf_addToCircuit; exact W.
  - apply Wf_removeFromCircuit; exact W.
  - apply Wf_registerSymbol; exact W.
  - apply Wf_unregisterSymbol; exact W.
  - apply Wf_registerDevice; exact W.
  - apply Wf_unregisterDevice; exact W.
  - apply Wf_setName; exact W.
  - apply Wf_setValue; exact W.
  - apply Wf_setAttributes; exact W.
  - apply Wf_emitAttributesChanged; [apply (wf_net _ _ _ W) | apply (wf_idle_cmp _ _ _ W) | apply (wf_schematic _ _ _ W)].
  - apply Keeps_Wf; [apply Keeps_setNetSignal | exact W].
  - apply Keeps_Wf; [apply Keeps_registerSymbolPin | exact W].
  - apply Keeps_Wf; [apply Keeps_unregisterSymbolPin | exact W].
  - apply Keeps_Wf; [apply Keeps_registerFootprintPad | exact W].
  - apply Keeps_Wf; [apply Keeps_unregisterFootprintPad | exact W].
  - apply Keeps_Wf; [apply Keeps_setPinNetPoint | exact W].
  - apply Keeps_Wf; [apply Keeps_setPadUsed | exact W].
  - apply Wf_addNetSignal; exact W.
  - apply Wf_setNetSignalName; exact W.
Qed.

Lemma Wf_init nets c0 m :
  ci_symbols c0 = ∅ -> ci_devices c0 = [] ->
  (forall v sg, m !! v = Some sg -> csi_initial nets c0 sg) ->
  Wf (mkState nets (cmp_updateErcMessages (ci_with_signals c0 m))).
Proof.
  intros Hs Hd Hm. constructor; simpl; cmp_simpl.
  - intros v sg Hv. destruct (Hm v sg Hv) as (ls & net & -> & _). unfold csi_new.
    rewrite (upd_frame pav rv _ nets _ c0) by (cmp_simpl; reflexivity). apply upd_idem.
  - intros v sg n Hv Hn. destruct (Hm v sg Hv) as (ls & net & -> & Hnet). apply Hnet. exact Hn.
  - intros _. split; assumption.
  - rewrite Hs. intros k1 k2 s1 s2 H1. rewrite lookup_empty in H1. discriminate.
Qed.

Lemma csi_fromDom_initial nets c0 node sg :
  csi_fromDom pav rv nets c0 node = Ok sg -> csi_initial nets c0 sg.
Proof.
  unfold csi_fromDom. intros H.
  destruct (sm_comp_signal node) as [u|]; [| discriminate].
  destruct (find _ _) as [ls|]; [| discriminate].
  destruct (sm_netsignal node) as [n|].
  - destruct (nets !! n) eqn:Hn; [| discriminate]. injection H as <-.
    exists ls, (Some n). split; [reflexivity |]. intros n' Hn'. injection Hn' as <-. rewrite Hn. eauto.
  - injection H as <-. exists ls, None. split; [reflexivity | discriminate].
Qed.

Lemma loadSignals_initial nets c0 nodes m m' :
  cmp_loadSignals pav rv nets c0 nodes m = Ok m' ->
  (forall v sg, m !! v = Some sg -> csi_initial nets c0 sg) ->
  forall v sg, m' !! v = Some sg -> csi_initial nets c0 sg.
Proof.
  revert m. induction nodes as [|node nodes IH]; intros m H Hm; simpl in H.
  - injection H as <-. exact Hm.
  - destruct (csi_fromDom pav rv nets c0 node) as [sg|e] eqn:Hn; [| discriminate].
    case_bool_decide; [discriminate |]. apply (IH _ H).
    intros v sg' Hv. apply lookup_insert_Some in Hv as [[_ <-] | [_ Hv]];
      [eapply csi_fromDom_initial; exact Hn | exact (Hm v sg' Hv)].
Qed.

Lemma Wf_fromDom circuit nets library d c :
  cmp_fromDom pav rv circuit nets library d = Ok c -> Wf (mkState nets c).
Proof.
  unfold cmp_fromDom. intros H.
  repeat (case_match; try discriminate).
  unfold cmp_init in H. case_match; [| discriminate]. injection H as <-.
  apply Wf_init; [reflexivity | reflexivity |].
  eapply loadSignals_initial; [eassumption |].
  intros v sg Hv. rewrite lookup_empty in Hv. discriminate.
Qed.

Lemma fold_insert_initial nets c0 l (m : gmap Uuid ComponentSignalInstance) :
  (forall v sg, m !! v = Some sg -> csi_initial nets c0 sg) ->
  forall v sg, fold_left (fun (m : gmap Uuid ComponentSignalInstance) ls => <[lsig_uuid ls := csi_new pav rv nets c0 ls None]> m) l m !! v = Some sg ->
  csi_initial nets c0 sg.
Proof.
  revert m. induction l as [|ls l IH]; intros m Hm; simpl; [exact Hm |].
  apply IH. intros v sg Hv. apply lookup_insert_Some in Hv as [[_ <-] | [_ Hv]]; [| exact (Hm v sg Hv)].
  exists ls, None. split; [reflexivity | discriminate].
Qed.

Lemma Wf_new circuit uuid nets cmp symbVar name c :
  cmp_new pav rv circuit uuid nets cmp symbVar name = Ok c -> Wf (mkState nets c).
Proof.
  unfold cmp_new. intros H.
  repeat (case_match; try discriminate).
  unfold cmp_init in H. case_match; [| discriminate]. injection H as <-.
  apply Wf_init; [reflexivity | reflexivity |].
  apply fold_insert_initial. intros v sg Hv. rewrite lookup_empty in Hv. discriminate.
Qed.

Lemma reachable_Wf s : reachable pav rv s -> Wf s.
Proof.
  induction 1 as [? ? ? ? ? ? ? Hn _ | ? ? ? ? ? Hd _ | s op r s' _ IH _ Hrun].
  - eapply Wf_new; exact Hn.
  - eapply Wf_fromDom; exact Hd.
  - replace s' with (snd (run_op pav rv op s)) by (rewrite Hrun; reflexivity).
    apply Wf_run_op. exact IH.
Qed.

(* ------------------------------------------------------------------ *)
(** *** Rollback of ComponentInstance::addToCircuit *)

Lemma csi_addToCircuit_err u t e t' :
  csi_addToCircuit pav rv u t = (Err e, t') -> t' = t.
Proof.
  unfold csi_addToCircuit. rewrite bind_csi_get.
  destruct (ci_signals (st_cmp t) !! u) as [sg|]; [| intros Hr; injection Hr as _ <-; reflexivity].
  rewrite bind_cmp_get. cbn beta.
  destruct (si_added sg || csi_isUsed sg); [intros Hr; injection Hr as _ <-; reflexivity |].
  destruct (si_net sg) as [n|].
  - unfold bind at 1. unfold registerComponentSignal at 1.
    destruct (st_nets t !! n) as [ns|]; [| intros Hr; injection Hr as _ <-; reflexivity].
    case_decide; [intros Hr; injection Hr as _ <-; reflexivity |].
    cbn iota beta. rewrite put_update_eq. discriminate.
  - rewrite bind_ret_l, put_update_eq. discriminate.
Qed.

Lemma upd_with_added_false nets c sg :
  si_added sg = false -> upd nets c (csi_with_added sg false) = upd nets c sg.
Proof. intros H. apply upd_same_fields; simpl; congruence. Qed.

(** Adding a signal instance to the circuit and removing it again gives
    back the state before. *)
Lemma csi_add_remove_roundtrip u t x t1 :
  Wf t -> csi_addToCircuit pav rv u t = (Ok x, t1) ->
  snd (csi_removeFromCircuit pav rv u t1) = t.
Proof.
  intros W. unfold csi_addToCircuit. rewrite bind_csi_get.
  destruct (ci_signals (st_cmp t) !! u) as [sg|] eqn:Hu; [| discriminate].
  rewrite bind_cmp_get. cbn beta.
  destruct (si_added sg || csi_isUsed sg) eqn:Hfree; [discriminate |].
  apply orb_false_iff in Hfree as [Hadded Hused].
  assert (Hsg : upd (st_nets t) (st_cmp t) sg = sg) by (eapply wf_erc_sig; eassumption).
  destruct t as [nets c]. simpl in *.
  destruct (si_net sg) as [n|] eqn:Hn.
  - unfold bind at 1. unfold registerComponentSignal at 1. simpl.
    destruct (nets !! n) as [ns|] eqn:Hns; [| discriminate].
    case_decide as Hk; [discriminate |].
    cbn iota beta. rewrite put_update_eq. intros H. injection H as _ <-. simpl.
    unfold csi_removeFromCircuit. rewrite bind_csi_get. simpl. rewrite lookup_insert_eq.
    rewrite bind_cmp_get. cbn beta. simpl.
    replace (csi_isUsed _) with false by (rewrite <- Hused; reflexivity). cbn iota.
    rewrite Hn. unfold bind at 1. unfold unregisterComponentSignal at 1. simpl.
    rewrite lookup_insert_eq. simpl.
    rewrite decide_True by (apply elem_of_app_single; right; reflexivity). cbn iota beta.
    rewrite put_update_eq. simpl.
    rewrite insert_insert_eq, removeOne_app_single by exact Hk.
    rewrite netSignal_eta, insert_id by exact Hns.
    rewrite ci_with_signals_twice, insert_insert_eq, upd_with_signals.
    replace (upd nets c _) with sg.
    + rewrite insert_id by exact Hu. rewrite ci_with_signals_id. reflexivity.
    + rewrite <- Hsg at 1. symmetry. apply upd_same_fields; simpl; congruence.
  - rewrite bind_ret_l, put_update_eq. intros H. injection H as _ <-. simpl.
    unfold csi_removeFromCircuit. rewrite bind_csi_get. simpl. rewrite lookup_insert_eq.
    rewrite bind_cmp_get. cbn beta. simpl.
    replace (csi_isUsed _) with false by (rewrite <- Hused; reflexivity). cbn iota.
    rewrite Hn, bind_ret_l, put_update_eq. simpl.
    rewrite ci_with_signals_twice, insert_insert_eq, upd_with_signals.
    replace (upd nets c _) with sg.
    + rewrite insert_id by exact Hu. rewrite ci_with_signals_id. reflexivity.
    + rewrite <- Hsg at 1. symmetry. apply upd_same_fields; simpl; congruence.
Qed.

Lemma bind_guarded {A B} sgl (m : M A) (k : A -> M B) t :
  bind (guarded sgl m) k t = match m t with
                             | (Ok a, t1) => k a t1
                             | (Err e, t1) => (Err e, sgl_run sgl t1)
                             end.
Proof. unfold bind, guarded. destruct (m t) as [[a|e] t1]; reflexivity. Qed.

Lemma addSignals_rollback us sgl t s0 :
  Wf t -> sgl_run sgl t = s0 ->
  match cmp_addSignals pav rv us sgl t with (Err _, t') => t' = s0 | (Ok _, _) => True end.
Proof.
  revert sgl t. induction us as [|u us IH]; intros sgl t W Hs; simpl; [exact I |].
  rewrite bind_guarded.
  pose proof (Keeps_addToCircuit u t) as Hk.
  destruct (csi_addToCircuit pav rv u t) as [[x|e] t1] eqn:Ha.
  - apply IH; [apply Hk; exact W |]. simpl.
    rewrite (csi_add_remove_roundtrip u t x t1 W Ha). exact Hs.
  - apply csi_addToCircuit_err in Ha. subst t1. exact Hs.
Qed.

Lemma csi_addToCircuit_ok u t x t1 :
  csi_addToCircuit pav rv u t = (Ok x, t1) ->
  csi_registered t1 u /\
  (forall w, w <> u -> ci_signals (st_cmp t1) !! w = ci_signals (st_cmp t) !! w) /\
  ci_uuid (st_cmp t1) = ci_uuid (st_cmp t) /\
  (forall n ns, st_nets t !! n = Some ns ->
     exists ns', st_nets t1 !! n = Some ns' /\ ns_signals ns ⊆ ns_signals ns').
Proof.
  unfold csi_addToCircuit. rewrite bind_csi_get.
  destruct (ci_signals (st_cmp t) !! u) as [sg|] eqn:Hu; [| discriminate].
  rewrite bind_cmp_get. cbn beta.
  destruct (si_added sg || csi_isUsed sg); [discriminate |].
  destruct t as [nets c]. simpl in *.
  destruct (si_net sg) as [n|] eqn:Hn.
  - unfold bind at 1. unfold registerComponentSignal at 1. simpl.
    destruct (nets !! n) as [ns|] eqn:Hns; [| discriminate].
    case_decide as Hk; [discriminate |].
    cbn iota beta. rewrite put_update_eq. intros H. injection H as _ <-. simpl.
    split; [| split; [| split]].
    + eexists. simpl. rewrite lookup_insert_eq. split; [reflexivity |]. split; [reflexivity |].
      intros n' Hn'. simpl in Hn'. rewrite Hn in Hn'. injection Hn' as <-.
      rewrite lookup_insert_eq. eexists. split; [reflexivity |]. simpl.
      apply elem_of_app_single. right. reflexivity.
    + intros w Hw. rewrite lookup_insert_ne by congruence. reflexivity.
    + reflexivity.
    + intros n' ns' Hn'. destruct (decide (n' = n)) as [->|Hne].
      * rewrite lookup_insert_eq. eexists. split; [reflexivity |]. simpl.
        rewrite Hns in Hn'. injection Hn' as <-. intros y Hy. apply elem_of_app_single. left. exact Hy.
      * rewrite lookup_insert_ne by congruence. eexists. split; [exact Hn' | reflexivity].
  - rewrite bind_ret_l, put_update_eq. intros H. injection H as _ <-. simpl.
    split; [| split; [| split]].
    + eexists. simpl. rewrite lookup_insert_eq. split; [reflexivity |]. split; [reflexivity |].
      intros n' Hn'. simpl in Hn'. congruence.
    + intros w Hw. rewrite lookup_insert_ne by congruence. reflexivity.
    + reflexivity.
    + intros n' ns' Hn'. eexists. split; [exact Hn' | reflexivity].
Qed.

Lemma csi_addToCircuit_ok_frame w u t x t1 :
  csi_addToCircuit pav rv w t = (Ok x, t1) -> w <> u -> csi_registered t u -> csi_registered t1 u.
Proof.
  intros Ha Hne (sg & Hu & Hadded & Hreg).
  apply csi_addToCircuit_ok in Ha as (_ & Hfr & Huuid & Hnets).
  exists sg. split; [rewrite Hfr by congruence; exact Hu |]. split; [exact Hadded |].
  intros n Hn. destruct (Hreg n Hn) as (ns & Hns & Hin).
  destruct (Hnets n ns Hns) as (ns' & Hns' & Hsub). exists ns'. split; [exact Hns' |].
  rewrite Huuid. apply Hsub. exact Hin.
Qed.

Lemma addSignals_ok us sgl t sgl' t' :
  cmp_addSignals pav rv us sgl t = (Ok sgl', t') -> NoDup us ->
  (forall u, u ∈ us -> csi_registered t' u) /\
  (forall u, u ∉ us -> csi_registered t u -> csi_registered t' u).
Proof.
  revert sgl t. induction us as [|u us IH]; intros sgl t H Hnd; simpl in H.
  - injection H as _ <-. split; [intros u Hu; inversion Hu | tauto].
  - rewrite bind_guarded in H.
    destruct (csi_addToCircuit pav rv u t) as [[x|e] t1] eqn:Ha; [| discriminate].
    apply NoDup_cons in Hnd as [Hu Hnd].
    destruct (IH _ _ H Hnd) as [Hin Hout]. split.
    + intros w Hw. apply elem_of_cons in Hw as [-> | Hw]; [| exact (Hin w Hw)].
      apply Hout; [exact Hu |]. apply csi_addToCircuit_ok in Ha as [Hr _]. exact Hr.
    + intros w Hw Hr. rewrite elem_of_cons in Hw. apply Hout; [tauto |].
      eapply csi_addToCircuit_ok_frame; [exact Ha | | exact Hr]. intros ->. tauto.
Qed.

Lemma cmp_upd_idem c : cmp_updateErcMessages (cmp_updateErcMessages c) = cmp_updateErcMessages c.
Proof. destruct c; reflexivity. Qed.

Lemma bind_eq {A B} (m : M A) (k : A -> M B) t r t1 :
  m t = (r, t1) ->
  bind m k t = match r with Ok a => k a t1 | Err e => (Err e, t1) end.
Proof. intros H. unfold bind. rewrite H. destruct r; reflexivity. Qed.

End Preservation.

(* ------------------------------------------------------------------ *)
(** ** Properties of the circuit operations *)

Section CircuitProofs.
Variable pav : string -> string -> option string.
Variable rv : (string -> string -> option string) -> string -> string.

Local Abbreviation Wf := (Wf pav rv).

(** C1: ComponentInstance::addToCircuit either fails and leaves the state
    exactly as it was (the signal instances added so far are removed
    again by the ScopeGuardList), or succeeds: the component instance is
    added, every signal instance is added and registered with its bound
    net signal, and the ERC messages are up to date. *)
Theorem addToCircuit_rollback (s : State) :
  Wf s ->
  match cmp_addToCircuit pav rv s with
  | (Err _, s') => s' = s
  | (Ok _, s') =>
      ci_added (st_cmp s') = true /\
      (forall u, is_Some (ci_signals (st_cmp s) !! u) -> csi_registered s' u) /\
      cmp_updateErcMessages (st_cmp s') = st_cmp s' /\
      Wf s'
  end.
Proof.
  intros W. pose proof (Wf_addToCircuit pav rv s W) as W'.
  revert W'. unfold cmp_addToCircuit. rewrite bind_cmp_get. cbn beta.
  destruct (ci_added (st_cmp s) || cmp_isUsed (st_cmp s)); [reflexivity |].
  pose proof (addSignals_rollback pav rv (cmp_signalUuids (st_cmp s)) [] s s W eq_refl) as Hrb.
  destruct (cmp_addSignals pav rv (cmp_signalUuids (st_cmp s)) [] s) as [[sgl|e] t] eqn:Hl.
  - rewrite (bind_eq _ _ _ _ _ Hl). rewrite modify_update_eq. simpl. intros W'.
    destruct (addSignals_ok pav rv _ _ _ _ _ Hl) as [Hin _];
      [apply NoDup_fst_map_to_list |].
    split; [cmp_simpl; reflexivity |]. split; [| split; [apply cmp_upd_idem | exact W']].
    intros u Hu. destruct (Hin u (signalUuids_complete _ _ Hu)) as (sg & Hsg & Hadd & Hreg).
    exists sg. cmp_simpl. simpl. split; [exact Hsg | split; [exact Hadd | exact Hreg]].
  - rewrite (bind_eq _ _ _ _ _ Hl). intros _. exact Hrb.
Qed.

(** C2 (amended): in every reachable state the forced-net-name-conflict
    ERC message of a signal instance is visible exactly when the signal
    instance is added to the circuit, its library signal forces a net
    name, it is bound to a net signal, and that net signal's name differs
    from the forced name after variable substitution.  A signal instance
    that is not bound to a net signal does not show this message. *)
Theorem forcedNetNameConflict_visibility (s : State) (u : Uuid) (sg : ComponentSignalInstance) :
  reachable pav rv s -> ci_signals (st_cmp s) !! u = Some sg ->
  (erc_visible (si_ercForced sg) = true <->
   si_added sg = true /\ lsig_forced (si_lib sg) = true /\
   exists n ns, si_net sg = Some n /\ st_nets s !! n = Some ns /\
     ns_name ns <> csi_getForcedNetSignalName pav rv (st_cmp s) sg).
Proof.
  intros Hr Hu. pose proof (reachable_Wf pav rv s Hr) as W.
  pose proof (wf_erc_sig _ _ _ W u sg Hu) as He.
  rewrite <- He at 1. unfold csi_updateErcMessages at 1, csi_with_erc. simpl.
  destruct (si_added sg), (lsig_forced (si_lib sg)); simpl;
    try (split; [discriminate | intros (? & ? & _); discriminate]).
  destruct (si_net sg) as [n|] eqn:Hn.
  - destruct (wf_net _ _ _ W u sg n Hu Hn) as [ns Hns].
    unfold netName. rewrite Hns.
    split.
    + intros Hv. split; [reflexivity |]. split; [reflexivity |].
      exists n, ns. split; [reflexivity |]. split; [exact Hns |].
      intros Heq. rewrite Heq, String.eqb_refl in Hv. discriminate.
    + intros (_ & _ & n' & ns' & Hn' & Hns' & Hne). injection Hn' as <-.
      rewrite Hns in Hns'. injection Hns' as <-.
      apply negb_true_iff, String.eqb_neq. intros Heq. apply Hne. symmetry. exact Heq.
  - split; [discriminate | intros (_ & _ & n' & ns' & Hn' & _); discriminate].
Qed.

(** C7: in every reachable state all registered symbols of the component
    instance lie on the same schematic, and registering a symbol (of the
    same circuit) on another schematic than a registered one fails with a
    RuntimeError and leaves the state unchanged. *)
Theorem registerSymbol_same_schematic (s : State) :
  reachable pav rv s ->
  (forall k1 k2 s1 s2, ci_symbols (st_cmp s) !! k1 = Some s1 -> ci_symbols (st_cmp s) !! k2 = Some s2 ->
     sym_schematic s1 = sym_schematic s2) /\
  (forall symbol k registered, ci_symbols (st_cmp s) !! k = Some registered ->
     sym_circuit symbol = ci_circuit (st_cmp s) ->
     sym_schematic symbol <> sym_schematic registered ->
     exists msg, cmp_registerSymbol symbol s = (Err (RuntimeError msg), s)).
Proof.
  intros Hr. pose proof (reachable_Wf pav rv s Hr) as W.
  split; [apply (wf_schematic _ _ _ W) |].
  intros symbol k registered Hk Hc Hsch.
  assert (Hadd : ci_added (st_cmp s) = true).
  { destruct (ci_added (st_cmp s)) eqn:Ha; [reflexivity |].
    destruct (wf_idle_cmp _ _ _ W Ha) as [He _]. rewrite He, lookup_empty in Hk. discriminate. }
  unfold cmp_registerSymbol. rewrite bind_cmp_get. cbn beta.
  rewrite Hadd, Hc, Nat.eqb_refl. simpl.
  destruct (negb (existsb _ _)); [eexists; reflexivity |].
  destruct (cmp_isRegisteredItem _ _); [eexists; reflexivity |].
  destruct (map_to_list (ci_symbols (st_cmp s))) as [|[k0 first] rest] eqn:Hl.
  - apply map_to_list_empty_iff in Hl. rewrite Hl, lookup_empty in Hk. discriminate.
  - assert (Hf : ci_symbols (st_cmp s) !! k0 = Some first)
      by (apply elem_of_map_to_list; rewrite Hl; left).
    rewrite (wf_schematic _ _ _ W k0 k first registered Hf Hk).
    destruct (sym_schematic symbol =? sym_schematic registered) eqn:E;
      [apply Nat.eqb_eq in E; contradiction |].
    simpl. eexists. reflexivity.
Qed.

End CircuitProofs.

(* ================================================================== *)
(** * Concrete runs of the example component instance *)

Lemma Example_cmp0_new :
  cmp_new Example.pav Example.rv 0 5 Example.nets Example.lib 10 "U1" = Ok Example.cmp0.
Proof. vm_compute. reflexivity. Qed.

Lemma Example_nets_fresh : fresh_component Example.nets 5.
Proof.
  intros n ns k Hn Hk. unfold Example.nets in Hn.
  apply lookup_insert_Some in Hn as [[_ <-] | [_ Hn]]; [destruct (not_elem_of_nil k Hk) |].
  apply lookup_insert_Some in Hn as [[_ <-] | [_ Hn]]; [destruct (not_elem_of_nil k Hk) |].
  rewrite lookup_empty in Hn. discriminate.
Qed.

Lemma Example_s0_reachable : reachable Example.pav Example.rv Example.s0.
Proof.
  exact (reachable_new _ _ 0 5 Example.nets Example.lib 10 "U1" Example.cmp0
           Example_cmp0_new Example_nets_fresh).
Qed.

Lemma Example_step_reachable s op :
  reachable Example.pav Example.rv s -> op_wellformed s op ->
  reachable Example.pav Example.rv (snd (run_op Example.pav Example.rv op s)).
Proof.
  intros Hr Hop. apply (reachable_step _ _ s op (fst (run_op Example.pav Example.rv op s)));
    [exact Hr | exact Hop | apply surjective_pairing].
Qed.

Lemma Example_s1_reachable : reachable Example.pav Example.rv Example.s1.
Proof. apply Example_step_reachable; [exact Example_s0_reachable | exact I]. Qed.

Lemma Example_s4_reachable : reachable Example.pav Example.rv Example.s4.
Proof. apply Example_step_reachable; [exact Example_s1_reachable | exact I]. Qed.

Lemma Example_nets_fresh_any u : fresh_component Example.nets u.
Proof.
  intros n ns k Hn Hk. unfold Example.nets in Hn.
  apply lookup_insert_Some in Hn as [[_ <-] | [_ Hn]]; [destruct (not_elem_of_nil k Hk) |].
  apply lookup_insert_Some in Hn as [[_ <-] | [_ Hn]]; [destruct (not_elem_of_nil k Hk) |].
  rewrite lookup_empty in Hn. discriminate.
Qed.

Lemma Example_tB2_reachable : reachable Example.pav Example.rv Example.tB2.
Proof.
  apply Example_step_reachable; [| exact I].
  apply Example_step_reachable; [| exact I].
  apply (reachable_new _ _ 0 6 Example.nets Example.lib2 11 "U2"); [vm_compute; reflexivity |].
  apply Example_nets_fresh_any.
Qed.

Lemma Example_s_conflict_Wf : Wf Example.pav Example.rv Example.s_conflict.
Proof.
  unfold Example.s_conflict.
  apply (Wf_fromDom _ _ 0 Example.nets_conflict [Example.lib] Example.dom).
  vm_compute. reflexivity.
Qed.

(** C2 (as stated): signal VCC of the example forces the net name "VCC",
    is added to the circuit and bound to no net signal, yet its
    forced-net-name-conflict message is not visible. *)
Lemma forcedNetNameConflict_unbound_counterexample :
  exists s u sg, reachable Example.pav Example.rv s /\ ci_signals (st_cmp s) !! u = Some sg /\
    si_added sg = true /\ lsig_forced (si_lib sg) = true /\ si_net sg = None /\
    erc_visible (si_ercForced sg) = false.
Proof.
  exists Example.s1, 1, (Example.signal Example.s1 1).
  split; [exact Example_s1_reachable |].
  vm_compute. repeat split.
Qed.

(** C1: adding the example loaded against [nets_conflict] registers signal
    GND with net signal 8, fails on signal VCC, and leaves the state as it
    was. *)
Lemma addToCircuit_rollback_witness :
  Wf Example.pav Example.rv Example.s_conflict /\
  fst (cmp_addToCircuit Example.pav Example.rv Example.s_conflict) = Err (LogicError noMsg) /\
  snd (cmp_addToCircuit Example.pav Example.rv Example.s_conflict) = Example.s_conflict.
Proof.
  split; [exact Example_s_conflict_Wf |].
  assert (E : fst (cmp_addToCircuit Example.pav Example.rv Example.s_conflict) = Err (LogicError noMsg))
    by (vm_compute; reflexivity).
  pose proof (addToCircuit_rollback Example.pav Example.rv Example.s_conflict Example_s_conflict_Wf) as H.
  destruct (cmp_addToCircuit Example.pav Example.rv Example.s_conflict) as [r t].
  simpl in E |- *. subst r. split; [reflexivity | exact H].
Defined.

(** C2 (amended): signal VCC of the added example is not bound, and its
    message is not visible. *)
Lemma forcedNetNameConflict_visibility_witness :
  reachable Example.pav Example.rv Example.s1 /\
  ci_signals (st_cmp Example.s1) !! 1 = Some (Example.signal Example.s1 1) /\
  (erc_visible (si_ercForced (Example.signal Example.s1 1)) = true <->
   si_added (Example.signal Example.s1 1) = true /\ lsig_forced (si_lib (Example.signal Example.s1 1)) = true /\
   exists n ns, si_net (Example.signal Example.s1 1) = Some n /\ st_nets Example.s1 !! n = Some ns /\
     ns_name ns <> csi_getForcedNetSignalName Example.pav Example.rv (st_cmp Example.s1) (Example.signal Example.s1 1)).
Proof.
  assert (Hu : ci_signals (st_cmp Example.s1) !! 1 = Some (Example.signal Example.s1 1))
    by (vm_compute; reflexivity).
  split; [exact Example_s1_reachable |]. split; [exact Hu |].
  exact (forcedNetNameConflict_visibility Example.pav Example.rv Example.s1 1 _ Example_s1_reachable Hu).
Defined.

(** C3: the example added with a registered device is in use and cannot
    be removed. *)
Lemma removeFromCircuit_in_use_witness :
  ci_added (st_cmp Example.s3) = true /\ cmp_isUsed (st_cmp Example.s3) = true /\
  cmp_removeFromCircuit Example.pav Example.rv Example.s3 =
    (Err (RuntimeError (mkQText "The component '%1' cannot be removed because it is still in use!"
                                [ci_name (st_cmp Example.s3)])), Example.s3).
Proof.
  assert (Ha : ci_added (st_cmp Example.s3) = true) by (vm_compute; reflexivity).
  assert (Hu : cmp_isUsed (st_cmp Example.s3) = true) by (vm_compute; reflexivity).
  split; [exact Ha |]. split; [exact Hu |].
  exact (removeFromCircuit_in_use Example.pav Example.rv Example.s3 Ha Hu).
Defined.

(** C4: signal VCC of the added example, with a connected symbol pin,
    cannot be moved to net signal 7. *)
Lemma setNetSignal_live_pins_throws_logic_error_witness :
  ci_signals (st_cmp Example.s2) !! 1 = Some (Example.signal Example.s2 1) /\
  Some 7 <> si_net (Example.signal Example.s2 1) /\
  si_added (Example.signal Example.s2 1) = true /\
  csi_arePinsOrPadsUsed (Example.signal Example.s2 1) = true /\
  csi_setNetSignal Example.pav Example.rv 1 (Some 7) Example.s2 =
    (Err (LogicError (mkQText "The net signal of the component signal '%1:%2' cannot be changed because it is still in use!"
                              [ci_name (st_cmp Example.s2); lsig_name (si_lib (Example.signal Example.s2 1))])),
     Example.s2).
Proof.
  assert (Hs : ci_signals (st_cmp Example.s2) !! 1 = Some (Example.signal Example.s2 1))
    by (vm_compute; reflexivity).
  assert (Hn : Some 7 <> si_net (Example.signal Example.s2 1))
    by (intros H; vm_compute in H; discriminate).
  assert (Ha : si_added (Example.signal Example.s2 1) = true) by (vm_compute; reflexivity).
  assert (Hp : csi_arePinsOrPadsUsed (Example.signal Example.s2 1) = true) by (vm_compute; reflexivity).
  split; [exact Hs |]. split; [exact Hn |]. split; [exact Ha |]. split; [exact Hp |].
  exact (setNetSignal_live_pins_throws_logic_error Example.pav Example.rv Example.s2 1 _ (Some 7) Hs Hn Ha Hp).
Defined.

(** C5: appending 9 to [1; 2; 3] with index -1. *)
Lemma cmdListElementInsert_execute_undo_redo_witness :
  (-1 < 0)%Z /\
  CmdListElementInsert.performExecute [1; 2; 3] (CmdListElementInsert.mkCmd 9 (-1)%Z)
    = Some ([1; 2; 3; 9], CmdListElementInsert.mkCmd 9 3%Z) /\
  CmdListElementInsert.performUndo [1; 2; 3; 9] (CmdListElementInsert.mkCmd 9 3%Z) = Some [1; 2; 3] /\
  CmdListElementInsert.performRedo [1; 2; 3] (CmdListElementInsert.mkCmd 9 3%Z)
    = Some ([1; 2; 3; 9], CmdListElementInsert.mkCmd 9 3%Z).
Proof.
  assert (Hi : (-1 < 0)%Z) by lia.
  split; [exact Hi |].
  exact (cmdListElementInsert_execute_undo_redo [1; 2; 3] 9 (-1)%Z (or_introl Hi)).
Defined.

(** C7: the example with a symbol on schematic 3 refuses a symbol on
    schematic 4. *)
Lemma registerSymbol_same_schematic_witness :
  reachable Example.pav Example.rv Example.tB2 /\
  ci_symbols (st_cmp Example.tB2) !! 20 = Some (mkSymbol 1 0 3 20) /\
  (exists msg, cmp_registerSymbol (mkSymbol 2 0 4 21) Example.tB2 = (Err (RuntimeError msg), Example.tB2)) /\
  cmp_registerSymbol (mkSymbol 2 0 4 21) Example.tB2
  = (Err (RuntimeError (mkQText "All symbols of a component must be placed in the same schematic." [])),
     Example.tB2) /\
  cmp_registerSymbol (mkSymbol 2 0 3 21) Example.tB2
  = (Ok tt, snd (cmp_registerSymbol (mkSymbol 2 0 3 21) Example.tB2)).
Proof.
  assert (Hk : ci_symbols (st_cmp Example.tB2) !! 20 = Some (mkSymbol 1 0 3 20)) by (vm_compute; reflexivity).
  assert (Hc : sym_circuit (mkSymbol 2 0 4 21) = ci_circuit (st_cmp Example.tB2)) by (vm_compute; reflexivity).
  assert (Hd : sym_schematic (mkSymbol 2 0 4 21) <> sym_schematic (mkSymbol 1 0 3 20)) by (simpl; lia).
  split; [exact Example_tB2_reachable |]. split; [exact Hk |].
  split; [exact (proj2 (registerSymbol_same_schematic Example.pav Example.rv Example.tB2 Example_tB2_reachable)
                   (mkSymbol 2 0 4 21) 20 (mkSymbol 1 0 3 20) Hk Hc Hd) |].
  split; vm_compute; reflexivity.
Defined.

(** C8: signal VCC of the created example, set to its current (absent)
    net signal. *)
Lemma setNetSignal_same_is_noop_witness :
  ci_signals (st_cmp Example.s0) !! 1 = Some (Example.signal Example.s0 1) /\
  csi_setNetSignal Example.pav Example.rv 1 (si_net (Example.signal Example.s0 1)) Example.s0 = (Ok tt, Example.s0).
Proof.
  assert (Hs : ci_signals (st_cmp Example.s0) !! 1 = Some (Example.signal Example.s0 1))
    by (vm_compute; reflexivity).
  split; [exact Hs |].
  exact (setNetSignal_same_is_noop Example.pav Example.rv Example.s0 1 _ Hs).
Defined.

(** C10: signal VCC of the example, not added, set to net signal 7. *)
Lemma setNetSignal_not_added_witness :
  ci_signals (st_cmp Example.s0) !! 1 = Some (Example.signal Example.s0 1) /\
  si_added (Example.signal Example.s0 1) = false /\
  csi_setNetSignal Example.pav Example.rv 1 (Some 7) Example.s0 =
    (if decide (Some 7 = si_net (Example.signal Example.s0 1)) then Ok tt else Err (LogicError noMsg),
     Example.s0).
Proof.
  assert (Hs : ci_signals (st_cmp Example.s0) !! 1 = Some (Example.signal Example.s0 1))
    by (vm_compute; reflexivity).
  assert (Ha : si_added (Example.signal Example.s0 1) = false) by (vm_compute; reflexivity).
  split; [exact Hs |]. split; [exact Ha |].
  exact (setNetSignal_not_added Example.pav Example.rv Example.s0 1 _ (Some 7) Hs Ha).
Defined.

(* ================================================================== *)
(** * Further properties of the circuit code *)

(** ** The component-level invariant *)

Section CmpInvariant.
Variable pav : string -> string -> option string.
Variable rv : (string -> string -> option string) -> string -> string.

Local Abbreviation Keeps := (Keeps pav rv).

Lemma core_symbVar c c' : ci_core c' = ci_core c -> ci_symbVar c' = ci_symbVar c.
Proof. intros H. exact (f_equal ci_symbVar H). Qed.

Lemma cmp_upd_core c :
  cmp_updateErcMessages c = ci_with_signals (cmp_updateErcMessages (ci_core c)) (ci_signals c).
Proof. destruct c; reflexivity. Qed.

Lemma ci_core_upd c : ci_core (cmp_updateErcMessages c) = cmp_updateErcMessages (ci_core c).
Proof. destruct c; reflexivity. Qed.

Lemma ci_core_eta c : ci_with_signals (ci_core c) (ci_signals c) = c.
Proof. destruct c; reflexivity. Qed.

Lemma CmpInv_core c c' : ci_core c' = ci_core c -> CmpInv c -> CmpInv c'.
Proof.
  intros Hc [He Hi]. constructor.
  - rewrite cmp_upd_core, Hc, <- ci_core_upd, He, <- Hc. apply ci_core_eta.
  - rewrite (core_symbols _ _ Hc), (core_symbVar _ _ Hc). exact Hi.
Qed.

Lemma CmpInv_update c :
  (forall k sym, ci_symbols c !! k = Some sym ->
     existsb (fun it => item_uuid it =? k) (var_items (ci_symbVar c)) = true) ->
  CmpInv (cmp_updateErcMessages c).
Proof. intros H. constructor; [apply cmp_upd_idem | exact H]. Qed.

Lemma CmpInv_keeps {A} (m : M A) s : Keeps m -> CmpInv (st_cmp s) -> CmpInv (st_cmp (snd (m s))).
Proof. intros Hk Hi. destruct (Hk s) as (Hc & _). exact (CmpInv_core _ _ Hc Hi). Qed.

Lemma CmpInv_bind_keeps {A B} (m : M A) (k : A -> M B) s :
  Keeps m ->
  (forall a s1, ci_core (st_cmp s1) = ci_core (st_cmp s) -> CmpInv (st_cmp (snd (k a s1)))) ->
  CmpInv (st_cmp s) -> CmpInv (st_cmp (snd (bind m k s))).
Proof.
  intros Hm Hk Hi. unfold bind. specialize (Hm s).
  destruct (m s) as [[a|e] s1]; simpl in Hm |- *.
  - apply Hk. exact (proj1 Hm).
  - exact (CmpInv_core _ _ (proj1 Hm) Hi).
Qed.

Lemma CmpInv_addToCircuit s : CmpInv (st_cmp s) -> CmpInv (st_cmp (snd (cmp_addToCircuit pav rv s))).
Proof.
  intros Hi. unfold cmp_addToCircuit. rewrite bind_cmp_get. cbn beta.
  destruct (ci_added (st_cmp s) || cmp_isUsed (st_cmp s)); cbn iota; [exact Hi |].
  apply CmpInv_bind_keeps; [apply Keeps_addSignals; constructor | | exact Hi].
  intros sgl s1 Hc. rewrite modify_update_eq. simpl. apply CmpInv_update.
  cmp_simpl. cbn [ci_symbVar]. rewrite (core_symbols _ _ Hc), (core_symbVar _ _ Hc).
  apply (inv_items _ Hi).
Qed.

Lemma CmpInv_removeFromCircuit s : CmpInv (st_cmp s) -> CmpInv (st_cmp (snd (cmp_removeFromCircuit pav rv s))).
Proof.
  intros Hi. unfold cmp_removeFromCircuit. rewrite bind_cmp_get. cbn beta.
  destruct (negb (ci_added (st_cmp s))); cbn iota; [exact Hi |].
  destruct (cmp_isUsed (st_cmp s)); cbn iota; [exact Hi |].
  apply CmpInv_bind_keeps; [apply Keeps_removeSignals; constructor | | exact Hi].
  intros sgl s1 Hc. rewrite modify_update_eq. simpl. apply CmpInv_update.
  cmp_simpl. cbn [ci_symbVar]. rewrite (core_symbols _ _ Hc), (core_symbVar _ _ Hc).
  apply (inv_items _ Hi).
Qed.

Lemma CmpInv_registerSymbol symbol s :
  CmpInv (st_cmp s) -> CmpInv (st_cmp (snd (cmp_registerSymbol symbol s))).
Proof.
  intros Hi. unfold cmp_registerSymbol. rewrite bind_cmp_get. cbn beta.
  destruct (negb _ || negb _); cbn iota; [exact Hi |].
  destruct (negb (existsb _ _)) eqn:Hex; cbn iota; [exact Hi |].
  apply negb_false_iff in Hex.
  destruct (cmp_isRegisteredItem _ _); cbn iota; [exact Hi |].
  assert (Hk : CmpInv (st_cmp (snd ((do! modify_cmp (fun c => ci_with_symbols c
                 (<[sym_item symbol := symbol]> (ci_symbols c))) in cmp_update) s)))).
  { rewrite modify_update_eq. simpl. apply CmpInv_update. cmp_simpl. cbn [ci_symbVar].
    intros k sym Hk. apply lookup_insert_Some in Hk as [[<- _] | [_ Hk]];
      [exact Hex | exact (inv_items _ Hi k sym Hk)]. }
  destruct (map_to_list _) as [|[k0 first] rest]; [exact Hk |].
  destruct (negb _); [exact Hi | exact Hk].
Qed.

Lemma CmpInv_unregisterSymbol symbol s :
  CmpInv (st_cmp s) -> CmpInv (st_cmp (snd (cmp_unregisterSymbol symbol s))).
Proof.
  intros Hi. unfold cmp_unregisterSymbol. rewrite bind_cmp_get. cbn beta.
  destruct (ci_symbols (st_cmp s) !! sym_item symbol); [| exact Hi].
  destruct (negb _ || _); [exact Hi |].
  rewrite modify_update_eq. simpl. apply CmpInv_update. cmp_simpl. cbn [ci_symbVar].
  intros k sym Hk. apply lookup_delete_Some in Hk as [_ Hk]. exact (inv_items _ Hi k sym Hk).
Qed.

Lemma CmpInv_registerDevice device s :
  CmpInv (st_cmp s) -> CmpInv (st_cmp (snd (cmp_registerDevice device s))).
Proof.
  intros Hi. unfold cmp_registerDevice. rewrite bind_cmp_get. cbn beta.
  destruct (negb _ || _ || _ || _); [exact Hi |].
  rewrite modify_update_eq. simpl. apply CmpInv_update. cmp_simpl. cbn [ci_symbVar].
  apply (inv_items _ Hi).
Qed.

Lemma CmpInv_unregisterDevice device s :
  CmpInv (st_cmp s) -> CmpInv (st_cmp (snd (cmp_unregisterDevice device s))).
Proof.
  intros Hi. unfold cmp_unregisterDevice. rewrite bind_cmp_get. cbn beta.
  destruct (negb _ || _); [exact Hi |].
  rewrite modify_update_eq. simpl. apply CmpInv_update. cmp_simpl. cbn [ci_symbVar].
  apply (inv_items _ Hi).
Qed.

Lemma CmpInv_updateAll us s : CmpInv (st_cmp s) -> CmpInv (st_cmp (snd (csi_updateAll pav rv us s))).
Proof.
  intros Hi. destruct (updateAll_spec pav rv us s) as (c' & -> & Hc & _). simpl.
  exact (CmpInv_core _ _ Hc Hi).
Qed.

Lemma CmpInv_emitAttributesChanged s :
  CmpInv (st_cmp s) -> CmpInv (st_cmp (snd (cmp_emitAttributesChanged pav rv s))).
Proof.
  intros Hi. unfold cmp_emitAttributesChanged. rewrite bind_cmp_get. apply CmpInv_updateAll. exact Hi.
Qed.

Lemma CmpInv_setName name s : CmpInv (st_cmp s) -> CmpInv (st_cmp (snd (cmp_setName pav rv name s))).
Proof.
  intros Hi. unfold cmp_setName. rewrite bind_cmp_get. cbn beta.
  destruct (String.eqb name _); [exact Hi |]. destruct (String.eqb name ""); [exact Hi |].
  rewrite bind_modify. unfold cmp_update. rewrite bind_modify.
  apply CmpInv_emitAttributesChanged. simpl. apply CmpInv_update. cmp_simpl. cbn [ci_symbVar].
  apply (inv_items _ Hi).
Qed.

Lemma cmp_upd_with_value c v :
  cmp_updateErcMessages (ci_with_value c v) = ci_with_value (cmp_updateErcMessages c) v.
Proof. destruct c; reflexivity. Qed.

Lemma cmp_upd_with_attributes c a :
  cmp_updateErcMessages (ci_with_attributes c a) = ci_with_attributes (cmp_updateErcMessages c) a.
Proof. destruct c; reflexivity. Qed.

Lemma CmpInv_setValue value s : CmpInv (st_cmp s) -> CmpInv (st_cmp (snd (cmp_setValue pav rv value s))).
Proof.
  intros Hi. unfold cmp_setValue. rewrite bind_cmp_get. cbn beta.
  destruct (String.eqb value _); [exact Hi |].
  rewrite bind_modify. apply CmpInv_emitAttributesChanged. simpl. constructor.
  - rewrite cmp_upd_with_value, (inv_erc _ Hi). reflexivity.
  - exact (inv_items _ Hi).
Qed.

Lemma CmpInv_setAttributes a s : CmpInv (st_cmp s) -> CmpInv (st_cmp (snd (cmp_setAttributes pav rv a s))).
Proof.
  intros Hi. unfold cmp_setAttributes. rewrite bind_cmp_get. cbn beta.
  destruct (decide _); [exact Hi |].
  rewrite bind_modify. apply CmpInv_emitAttributesChanged. simpl. constructor.
  - rewrite cmp_upd_with_attributes, (inv_erc _ Hi). reflexivity.
  - exact (inv_items _ Hi).
Qed.

Lemma CmpInv_run_op op s : CmpInv (st_cmp s) -> CmpInv (st_cmp (snd (run_op pav rv op s))).
Proof.
  intros Hi. destruct op; simpl.
  - apply CmpInv_addToCircuit; exact Hi.
  - apply CmpInv_removeFromCircuit; exact Hi.
  - apply CmpInv_registerSymbol; exact Hi.
  - apply CmpInv_unregisterSymbol; exact Hi.
  - apply CmpInv_registerDevice; exact Hi.
  - apply CmpInv_unregisterDevice; exact Hi.
  - apply CmpInv_setName; exact Hi.
  - apply CmpInv_setValue; exact Hi.
  - apply CmpInv_setAttributes; exact Hi.
  - apply CmpInv_emitAttributesChanged; exact Hi.
  - apply CmpInv_keeps; [apply Keeps_setNetSignal | exact Hi].
  - apply CmpInv_keeps; [apply Keeps_registerSymbolPin | exact Hi].
  - apply CmpInv_keeps; [apply Keeps_unregisterSymbolPin | exact Hi].
  - apply CmpInv_keeps; [apply Keeps_registerFootprintPad | exact Hi].
  - apply CmpInv_keeps; [apply Keeps_unregisterFootprintPad | exact Hi].
  - apply CmpInv_keeps; [apply Keeps_setPinNetPoint | exact Hi].
  - apply CmpInv_keeps; [apply Keeps_setPadUsed | exact Hi].
  - unfold circuit_addNetSignal. destruct (st_nets s !! n); exact Hi.
  - unfold circuit_setNetSignalName. apply (CmpInv_updateAll _ (mkState _ (st_cmp s))). exact Hi.
Qed.

Lemma reachable_CmpInv s : reachable pav rv s -> CmpInv (st_cmp s).
Proof.
  induction 1 as [circuit uuid nets cmp symbVar name c Hn _ | circuit nets library d c Hd _ | s op r s' _ IH _ Hrun].
  - unfold cmp_new in Hn. repeat (case_match; try discriminate).
    unfold cmp_init in Hn. case_match; [| discriminate]. injection Hn as <-.
    apply CmpInv_update. intros k sym Hk. cbn [ci_symbols ci_with_signals] in Hk.
    rewrite lookup_empty in Hk. discriminate.
  - unfold cmp_fromDom in Hd. repeat (case_match; try discriminate).
    unfold cmp_init in Hd. case_match; [| discriminate]. injection Hd as <-.
    apply CmpInv_update. intros k sym Hk. cbn [ci_symbols ci_with_signals] in Hk.
    rewrite lookup_empty in Hk. discriminate.
  - replace s' with (snd (run_op pav rv op s)) by (rewrite Hrun; reflexivity).
    apply CmpInv_run_op. exact IH.
Qed.

End CmpInvariant.

(* ------------------------------------------------------------------ *)
(** ** Counting lemmas *)

Lemma length_filter_unplaced {A} (p q : A -> bool) (l : list A) :
  length (List.filter (fun x => p x && negb (q x)) l)
  + length (List.filter (fun x => negb (p x) && negb (q x)) l)
  + length (List.filter q l) = length l.
Proof.
  induction l as [|x l IH]; simpl; [reflexivity |].
  destruct (p x), (q x); simpl; lia.
Qed.

Lemma length_filter_map {A B} (f : B -> bool) (g : A -> B) (l : list A) :
  length (List.filter f (map g l)) = length (List.filter (fun x => f (g x)) l).
Proof.
  induction l as [|x l IH]; simpl; [reflexivity |].
  destruct (f (g x)); simpl; lia.
Qed.

(** A finite map whose keys all occur in a duplicate-free list has as many
    entries as the list has keys bound in the map. *)
Lemma size_filter_bound {V} (m : gmap Uuid V) (L : list Uuid) :
  NoDup L -> (forall k, is_Some (m !! k) -> k ∈ L) ->
  size m = length (List.filter (fun k => bool_decide (is_Some (m !! k))) L).
Proof.
  revert m. induction L as [|a L IH]; intros m HL Hdom.
  - assert (Hm : m = ∅).
    { apply map_empty. intros i. destruct (m !! i) eqn:Hi; [| reflexivity].
      destruct (not_elem_of_nil i (Hdom i (ex_intro _ _ Hi))). }
    subst m. rewrite map_size_empty. reflexivity.
  - apply NoDup_cons in HL as [Ha HL]. cbn [List.filter].
    destruct (m !! a) as [x|] eqn:Hma.
    + rewrite bool_decide_true by (eexists; reflexivity). cbn [length].
      rewrite <- (insert_delete_id m a x Hma) at 1.
      rewrite map_size_insert_None by apply lookup_delete_eq. f_equal.
      rewrite (IH (delete a m) HL).
      * f_equal. apply filter_ext_in. intros k Hk.
        rewrite lookup_delete_ne; [reflexivity |].
        intros ->. apply Ha, list_elem_of_In, Hk.
      * intros k [y Hk]. apply lookup_delete_Some in Hk as [Hne Hk].
        specialize (Hdom k (ex_intro _ _ Hk)). apply elem_of_cons in Hdom as [-> | H]; [congruence | exact H].
    + rewrite bool_decide_false by apply is_Some_None.
      apply IH; [exact HL |]. intros k Hk. specialize (Hdom k Hk).
      apply elem_of_cons in Hdom as [-> | H]; [rewrite Hma in Hk; destruct (is_Some_None Hk) | exact H].
Qed.

Lemma removeOne_by_app_single {A} (id : A -> nat) (l : list A) (y : A) :
  existsb (fun d => id d =? id y) l = false -> removeOne_by id (id y) (l ++ [y]) = l.
Proof.
  induction l as [|d l IH]; simpl; intros H.
  - rewrite Nat.eqb_refl. reflexivity.
  - apply orb_false_iff in H as [Hd Hl]. rewrite Hd, IH by exact Hl. reflexivity.
Qed.

Lemma cmp_upd_with_symbols c m :
  cmp_updateErcMessages (ci_with_symbols (cmp_updateErcMessages c) m)
  = cmp_updateErcMessages (ci_with_symbols c m).
Proof. destruct c; reflexivity. Qed.

Lemma cmp_upd_with_devices c l :
  cmp_updateErcMessages (ci_with_devices (cmp_updateErcMessages c) l)
  = cmp_updateErcMessages (ci_with_devices c l).
Proof. destruct c; reflexivity. Qed.

Lemma ci_symbols_upd c : ci_symbols (cmp_updateErcMessages c) = ci_symbols c.
Proof. reflexivity. Qed.

Lemma ci_devices_upd c : ci_devices (cmp_updateErcMessages c) = ci_devices c.
Proof. reflexivity. Qed.

Lemma ci_added_upd c : ci_added (cmp_updateErcMessages c) = ci_added c.
Proof. reflexivity. Qed.

Lemma ci_symbols_with_symbols c m : ci_symbols (ci_with_symbols c m) = m.
Proof. reflexivity. Qed.

Lemma ci_added_with_symbols c m : ci_added (ci_with_symbols c m) = ci_added c.
Proof. reflexivity. Qed.

Lemma ci_devices_with_devices c l : ci_devices (ci_with_devices c l) = l.
Proof. reflexivity. Qed.

Lemma ci_added_with_devices c l : ci_added (ci_with_devices c l) = ci_added c.
Proof. reflexivity. Qed.

Lemma ci_with_symbols_twice c m1 m2 : ci_with_symbols (ci_with_symbols c m1) m2 = ci_with_symbols c m2.
Proof. destruct c; reflexivity. Qed.

Lemma ci_with_symbols_id c : ci_with_symbols c (ci_symbols c) = c.
Proof. destruct c; reflexivity. Qed.

Lemma ci_with_devices_twice c l1 l2 : ci_with_devices (ci_with_devices c l1) l2 = ci_with_devices c l2.
Proof. destruct c; reflexivity. Qed.

Lemma ci_with_devices_id c : ci_with_devices c (ci_devices c) = c.
Proof. destruct c; reflexivity. Qed.

Lemma csi_with_pins_twice sg l1 l2 : csi_with_pins (csi_with_pins sg l1) l2 = csi_with_pins sg l2.
Proof. destruct sg; reflexivity. Qed.

Lemma csi_with_pins_id sg : csi_with_pins sg (si_pins sg) = sg.
Proof. destruct sg; reflexivity. Qed.

Lemma csi_with_pads_twice sg l1 l2 : csi_with_pads (csi_with_pads sg l1) l2 = csi_with_pads sg l2.
Proof. destruct sg; reflexivity. Qed.

Lemma csi_with_pads_id sg : csi_with_pads sg (si_pads sg) = sg.
Proof. destruct sg; reflexivity. Qed.

Lemma existsb_app_single_self {A} (id : A -> nat) (l : list A) (y : A) :
  existsb (fun d => id d =? id y) (l ++ [y]) = true.
Proof. rewrite existsb_app. simpl. rewrite Nat.eqb_refl, orb_true_r. reflexivity. Qed.

(* ------------------------------------------------------------------ *)
(** ** Symbols, devices, pins and pads of reachable states *)

Section ExtraProps.
Variable pav : string -> string -> option string.
Variable rv : (string -> string -> option string) -> string -> string.

(** X1: in every reachable state the two unplaced-symbols ERC messages of the
    component instance show the current counts: the required (optional)
    message names the component and the number of unplaced required
    (optional) items, and is visible exactly when the component is added to
    the circuit and that number is positive. *)
Theorem unplacedSymbols_erc_current (s : State) :
  reachable pav rv s ->
  let c := st_cmp s in
  ci_ercReq c = mkErcMsg (mkQText "Unplaced required symbols of component '%1': %2"
                                  [ci_name c; string_of_nat (cmp_getUnplacedRequiredSymbolsCount c)])
                         (ci_added c && (0 <? cmp_getUnplacedRequiredSymbolsCount c))
  /\ ci_ercOpt c = mkErcMsg (mkQText "Unplaced optional symbols of component '%1': %2"
                                     [ci_name c; string_of_nat (cmp_getUnplacedOptionalSymbolsCount c)])
                            (ci_added c && (0 <? cmp_getUnplacedOptionalSymbolsCount c)).
Proof.
  intros Hr c. pose proof (inv_erc _ (reachable_CmpInv pav rv s Hr)) as He. fold c in He.
  split; [exact (eq_sym (f_equal ci_ercReq He)) | exact (eq_sym (f_equal ci_ercOpt He))].
Qed.

(** X2: in every reachable state whose symbol variant has no two items with
    the same UUID, [getUnplacedSymbolsCount] (item count minus registered
    symbols) is the sum of the unplaced required and unplaced optional
    counts, so in particular it is never negative. *)
Theorem unplacedSymbolsCount_sum (s : State) :
  reachable pav rv s ->
  NoDup (map item_uuid (var_items (ci_symbVar (st_cmp s)))) ->
  cmp_getUnplacedSymbolsCount (st_cmp s)
  = Z.of_nat (cmp_getUnplacedRequiredSymbolsCount (st_cmp s)
              + cmp_getUnplacedOptionalSymbolsCount (st_cmp s)).
Proof.
  intros Hr Hnd. pose proof (inv_items _ (reachable_CmpInv pav rv s Hr)) as Hit.
  set (c := st_cmp s) in *.
  unfold cmp_getUnplacedSymbolsCount, cmp_getUnplacedRequiredSymbolsCount,
    cmp_getUnplacedOptionalSymbolsCount.
  rewrite (fold_count_filter (fun it => item_required it && negb (cmp_isRegisteredItem c (item_uuid it)))).
  rewrite (fold_count_filter (fun it => negb (item_required it) && negb (cmp_isRegisteredItem c (item_uuid it)))).
  pose proof (length_filter_unplaced item_required (fun it => cmp_isRegisteredItem c (item_uuid it))
                (var_items (ci_symbVar c))) as Hlen.
  assert (Hsize : size (ci_symbols c)
                  = length (List.filter (fun it => cmp_isRegisteredItem c (item_uuid it))
                                        (var_items (ci_symbVar c)))).
  { rewrite (size_filter_bound (ci_symbols c) (map item_uuid (var_items (ci_symbVar c))) Hnd).
    - rewrite length_filter_map. reflexivity.
    - intros k [sym Hk]. specialize (Hit k sym Hk). apply existsb_exists in Hit as [it [Hin Heq]].
      apply Nat.eqb_eq in Heq. subst k. apply list_elem_of_In, in_map, Hin. }
  rewrite Hsize. lia.
Qed.

(** X3: in a reachable state, registering a symbol and then unregistering
    the same symbol succeeds and gives back the state before the
    registration, ERC messages included. *)
Theorem registerSymbol_unregisterSymbol_roundtrip (s s1 : State) (symbol : Symbol) :
  reachable pav rv s ->
  cmp_registerSymbol symbol s = (Ok tt, s1) ->
  cmp_unregisterSymbol symbol s1 = (Ok tt, s).
Proof.
  intros Hr. pose proof (inv_erc _ (reachable_CmpInv pav rv s Hr)) as He.
  unfold cmp_registerSymbol. rewrite bind_cmp_get. cbn beta.
  destruct (negb (ci_added (st_cmp s)) || _) eqn:Hpre; [discriminate |].
  apply orb_false_iff in Hpre as [Hadded _]. apply negb_false_iff in Hadded.
  destruct (negb (existsb _ _)); [discriminate |].
  destruct (cmp_isRegisteredItem _ _) eqn:Hreg; [discriminate |].
  unfold cmp_isRegisteredItem in Hreg. apply bool_decide_eq_false in Hreg.
  apply eq_None_not_Some in Hreg.
  intros H.
  assert (Hs1 : s1 = mkState (st_nets s) (cmp_updateErcMessages
                       (ci_with_symbols (st_cmp s) (<[sym_item symbol := symbol]> (ci_symbols (st_cmp s)))))).
  { destruct (map_to_list _) as [|[k0 first] rest]; cbn iota beta in H;
      [| destruct (negb _); [discriminate |]];
      rewrite bind_ret_l in H; cbn beta in H; rewrite modify_update_eq in H;
      injection H as <-; reflexivity. }
  clear H. subst s1. unfold cmp_unregisterSymbol. rewrite bind_cmp_get. cbn beta. cbn [st_cmp].
  rewrite ci_symbols_upd, ci_symbols_with_symbols, lookup_insert_eq. cbn iota beta.
  rewrite ci_added_upd, ci_added_with_symbols, Hadded, Nat.eqb_refl. cbn [negb orb].
  rewrite modify_update_eq. cbn [st_nets st_cmp].
  rewrite ci_symbols_upd, ci_symbols_with_symbols, delete_insert_id by exact Hreg.
  rewrite cmp_upd_with_symbols, ci_with_symbols_twice, ci_with_symbols_id, He, state_eta.
  reflexivity.
Qed.

(** X4: in a reachable state, registering a device and then unregistering
    the same device succeeds and gives back the state before the
    registration. *)
Theorem registerDevice_unregisterDevice_roundtrip (s s1 : State) (device : Device) :
  reachable pav rv s ->
  cmp_registerDevice device s = (Ok tt, s1) ->
  cmp_unregisterDevice device s1 = (Ok tt, s).
Proof.
  intros Hr. pose proof (inv_erc _ (reachable_CmpInv pav rv s Hr)) as He.
  unfold cmp_registerDevice. rewrite bind_cmp_get. cbn beta.
  destruct (negb (ci_added (st_cmp s)) || _ || _ || _) eqn:Hpre; [discriminate |].
  apply orb_false_iff in Hpre as [Hpre _]. apply orb_false_iff in Hpre as [Hpre Hdup].
  apply orb_false_iff in Hpre as [Hadded _]. apply negb_false_iff in Hadded.
  rewrite modify_update_eq. intros H. injection H as <-.
  unfold cmp_unregisterDevice. rewrite bind_cmp_get. cbn beta. cbn [st_cmp].
  rewrite ci_added_upd, ci_added_with_devices, ci_devices_upd, ci_devices_with_devices.
  rewrite Hadded, existsb_app_single_self. cbn [negb orb].
  rewrite modify_update_eq. cbn [st_nets st_cmp].
  rewrite ci_devices_upd, ci_devices_with_devices, removeOne_by_app_single by exact Hdup.
  rewrite cmp_upd_with_devices, ci_with_devices_twice, ci_with_devices_id, He, state_eta.
  reflexivity.
Qed.

(** X5: registering a symbol pin at a signal instance and then unregistering
    the same pin succeeds and gives back the state before the
    registration. *)
Theorem registerSymbolPin_unregisterSymbolPin_roundtrip (s s1 : State) (u : Uuid) (pin : SymbolPin) :
  csi_registerSymbolPin u pin s = (Ok tt, s1) ->
  csi_unregisterSymbolPin u pin s1 = (Ok tt, s).
Proof.
  unfold csi_registerSymbolPin. rewrite bind_csi_get.
  destruct (ci_signals (st_cmp s) !! u) as [sg|] eqn:Hu; [| discriminate].
  rewrite bind_cmp_get. cbn beta.
  destruct (negb (si_added sg) || _ || _) eqn:Hpre; [discriminate |].
  apply orb_false_iff in Hpre as [Hpre Hdup]. apply orb_false_iff in Hpre as [Hadded _].
  intros H. injection H as <-.
  unfold csi_unregisterSymbolPin. rewrite bind_csi_get. cbn [st_cmp ci_signals ci_with_signals].
  rewrite lookup_insert_eq. cbn [si_added si_pins csi_with_pins].
  rewrite Hadded, existsb_app_single_self. cbn [negb orb].
  unfold csi_put, modify_cmp. cbn [st_nets st_cmp ci_signals ci_with_signals].
  rewrite csi_with_pins_twice, removeOne_by_app_single by exact Hdup.
  rewrite csi_with_pins_id, ci_with_signals_twice, insert_insert_eq, insert_id by exact Hu.
  rewrite ci_with_signals_id, state_eta. reflexivity.
Qed.

(** X6: registering a footprint pad at a signal instance and then
    unregistering the same pad succeeds and gives back the state before the
    registration. *)
Theorem registerFootprintPad_unregisterFootprintPad_roundtrip (s s1 : State) (u : Uuid) (pad : FootprintPad) :
  csi_registerFootprintPad u pad s = (Ok tt, s1) ->
  csi_unregisterFootprintPad u pad s1 = (Ok tt, s).
Proof.
  unfold csi_registerFootprintPad. rewrite bind_csi_get.
  destruct (ci_signals (st_cmp s) !! u) as [sg|] eqn:Hu; [| discriminate].
  rewrite bind_cmp_get. cbn beta.
  destruct (negb (si_added sg) || _ || _) eqn:Hpre; [discriminate |].
  apply orb_false_iff in Hpre as [Hpre Hdup]. apply orb_false_iff in Hpre as [Hadded _].
  intros H. injection H as <-.
  unfold csi_unregisterFootprintPad. rewrite bind_csi_get. cbn [st_cmp ci_signals ci_with_signals].
  rewrite lookup_insert_eq. cbn [si_added si_pads csi_with_pads].
  rewrite Hadded, existsb_app_single_self. cbn [negb orb].
  unfold csi_put, modify_cmp. cbn [st_nets st_cmp ci_signals ci_with_signals].
  rewrite csi_with_pads_twice, removeOne_by_app_single by exact Hdup.
  rewrite csi_with_pads_id, ci_with_signals_twice, insert_insert_eq, insert_id by exact Hu.
  rewrite ci_with_signals_id, state_eta. reflexivity.
Qed.

(** X7: in every reachable state the unconnected-required-signal ERC message
    of each signal instance names the library signal and the component, and
    is visible exactly when the signal instance is added to the circuit,
    bound to no net signal, and its library signal is required. *)
Theorem unconnectedSignal_erc_current (s : State) (u : Uuid) (sg : ComponentSignalInstance) :
  reachable pav rv s ->
  ci_signals (st_cmp s) !! u = Some sg ->
  si_ercUnconnected sg
  = mkErcMsg (mkQText "Unconnected component signal: '%1' from '%2'"
                      [lsig_name (si_lib sg); ci_name (st_cmp s)])
             (si_added sg && match si_net sg with Some _ => false | None => true end
              && lsig_required (si_lib sg)).
Proof.
  intros Hr Hu. pose proof (wf_erc_sig _ _ _ (reachable_Wf pav rv s Hr) u sg Hu) as He.
  exact (eq_sym (f_equal si_ercUnconnected He)).
Qed.

(** ** Saving and loading *)

Lemma csi_fromDom_serialize nets c0 sg :
  find (fun ls => lsig_uuid ls =? lsig_uuid (si_lib sg)) (lcmp_signals (ci_lib c0)) = Some (si_lib sg) ->
  (forall n, si_net sg = Some n -> is_Some (nets !! n)) ->
  csi_fromDom pav rv nets c0 (csi_serialize sg) = Ok (csi_new pav rv nets c0 (si_lib sg) (si_net sg)).
Proof.
  intros Hf Hn. unfold csi_fromDom, csi_serialize. cbn [sm_comp_signal sm_netsignal].
  rewrite Hf. destruct (si_net sg) as [n|]; [| reflexivity].
  destruct (Hn n eq_refl) as [ns Hns]. rewrite Hns. reflexivity.
Qed.

Lemma csi_new_lib nets c0 ls net : si_lib (csi_new pav rv nets c0 ls net) = ls.
Proof. reflexivity. Qed.

Lemma loadSignals_serialized nets c0 (l : list (Uuid * ComponentSignalInstance)) m :
  NoDup l.*1 ->
  (forall u sg, (u, sg) ∈ l ->
     lsig_uuid (si_lib sg) = u
     /\ find (fun ls => lsig_uuid ls =? u) (lcmp_signals (ci_lib c0)) = Some (si_lib sg)
     /\ (forall n, si_net sg = Some n -> is_Some (nets !! n))) ->
  (forall u, u ∈ l.*1 -> m !! u = None) ->
  cmp_loadSignals pav rv nets c0 (map (fun p => csi_serialize (snd p)) l) m
  = Ok (list_to_map (prod_map id (fun sg => csi_new pav rv nets c0 (si_lib sg) (si_net sg)) <$> l) ∪ m).
Proof.
  revert m. induction l as [|[u sg] l IH]; intros m Hnd Hl Hm; cbn [map fst snd].
  - rewrite fmap_nil, list_to_map_nil, (left_id_L ∅ (∪)). reflexivity.
  - apply NoDup_cons in Hnd as [Hu Hnd].
    destruct (Hl u sg (proj2 (elem_of_cons _ _ _) (or_introl eq_refl))) as (Hk & Hf & Hn).
    unfold cmp_loadSignals; fold (cmp_loadSignals pav rv nets c0).
    rewrite csi_fromDom_serialize by (try rewrite Hk; assumption).
    rewrite csi_new_lib, Hk. rewrite (Hm u) by (apply elem_of_cons; left; reflexivity).
    rewrite bool_decide_false by apply is_Some_None.
    rewrite IH; [| exact Hnd | |].
    + rewrite fmap_cons. cbn [prod_map fst snd id]. rewrite list_to_map_cons.
      rewrite <- insert_union_l, insert_union_r; [reflexivity |].
      apply not_elem_of_list_to_map_1. rewrite <- list_fmap_compose.
      replace (fst ∘ prod_map id _) with (@fst Uuid ComponentSignalInstance) by reflexivity.
      exact Hu.
    + intros u' sg' Hin. apply Hl. apply elem_of_cons. right. exact Hin.
    + intros u' Hin. rewrite lookup_insert_ne; [apply Hm; apply elem_of_cons; right; exact Hin |].
      intros ->. exact (Hu Hin).
Qed.

(** X9: saving a component instance and loading the saved node back (into
    any circuit whose net signals contain the bound ones, with a project
    library holding its library component) gives a component instance with
    the same UUID, name, value, library component, symbol variant and
    attributes, whose signal instances have the same library signals and
    net signals; the registration state is not saved: the loaded instance
    is not added to the circuit and has no symbols, devices, pins or pads. *)
Theorem serialize_fromDom_roundtrip (c : ComponentInstance) (d : ComponentDom)
  (circuit : nat) (nets : gmap Uuid NetSignal) (library : list LibComponent) :
  find (fun l => lcmp_uuid l =? lcmp_uuid (ci_lib c)) library = Some (ci_lib c) ->
  find (fun v => var_uuid v =? var_uuid (ci_symbVar c)) (lcmp_variants (ci_lib c)) = Some (ci_symbVar c) ->
  (forall u sg, ci_signals c !! u = Some sg ->
     lsig_uuid (si_lib sg) = u
     /\ find (fun ls => lsig_uuid ls =? u) (lcmp_signals (ci_lib c)) = Some (si_lib sg)
     /\ (forall n, si_net sg = Some n -> is_Some (nets !! n))) ->
  size (ci_signals c) = length (lcmp_signals (ci_lib c)) ->
  cmp_serialize c = Ok d ->
  exists c', cmp_fromDom pav rv circuit nets library d = Ok c'
    /\ ci_circuit c' = circuit /\ ci_uuid c' = ci_uuid c /\ ci_name c' = ci_name c
    /\ ci_value c' = ci_value c /\ ci_lib c' = ci_lib c /\ ci_symbVar c' = ci_symbVar c
    /\ ci_attributes c' = ci_attributes c
    /\ ci_added c' = false /\ ci_symbols c' = ∅ /\ ci_devices c' = []
    /\ (forall u, si_lib <$> ci_signals c' !! u = si_lib <$> ci_signals c !! u
                  /\ si_net <$> ci_signals c' !! u = si_net <$> ci_signals c !! u)
    /\ (forall u sg', ci_signals c' !! u = Some sg' ->
          si_added sg' = false /\ si_pins sg' = [] /\ si_pads sg' = []).
Proof.
  intros Hlib Hvar Hsig Hsize Hser. unfold cmp_serialize in Hser.
  destruct (cmp_checkAttributesValidity c) eqn:Hvalid; [| discriminate].
  injection Hser as <-. unfold cmp_checkAttributesValidity in Hvalid.
  apply negb_true_iff in Hvalid.
  set (c0 := mkCI circuit (ci_uuid c) (ci_name c) (ci_value c) (ci_lib c) (ci_symbVar c)
                  (ci_attributes c) false ∅ ∅ [] ercMsg_new ercMsg_new).
  set (f := fun sg => csi_new pav rv nets c0 (si_lib sg) (si_net sg)).
  assert (Hload : cmp_loadSignals pav rv nets c0
                    (map (fun p => csi_serialize (snd p)) (map_to_list (ci_signals c))) ∅
                  = Ok (f <$> ci_signals c)).
  { rewrite loadSignals_serialized.
    - rewrite (right_id_L ∅ (∪)), list_to_map_fmap, list_to_map_to_list. reflexivity.
    - apply NoDup_fst_map_to_list.
    - intros u sg Hin. apply Hsig. apply elem_of_map_to_list. exact Hin.
    - intros u _. apply lookup_empty. }
  eexists. split.
  - unfold cmp_fromDom. cbn [dom_uuid dom_name dom_component dom_symbol_variant dom_signal_maps dom_attributes dom_value].
    rewrite Hvalid, Hlib, Hvar. fold c0. rewrite Hload.
    rewrite map_size_fmap, Hsize, Nat.eqb_refl. cbn [negb].
    unfold cmp_init, cmp_checkAttributesValidity, cmp_updateErcMessages, ci_with_erc, ci_with_signals, c0.
    cbv zeta. cbn [ci_name]. rewrite Hvalid. reflexivity.
  - do 10 (split; [reflexivity |]). cbn [ci_signals cmp_updateErcMessages ci_with_erc ci_with_signals].
    split.
    + intros u. rewrite lookup_fmap. destruct (ci_signals c !! u); split; reflexivity.
    + intros u sg'. rewrite lookup_fmap. destruct (ci_signals c !! u); [| discriminate].
      intros H. injection H as <-. repeat split.
Qed.

End ExtraProps.

(* ------------------------------------------------------------------ *)
(** ** Adding a component instance to the circuit and removing it again *)

Lemma removeOne_app_l (k : SigKey) (l m : list SigKey) :
  k ∉ l -> removeOne k (l ++ m) = l ++ removeOne k m.
Proof.
  induction l as [|x l IH]; intros Hk; simpl; [reflexivity |].
  rewrite decide_False by (intros ->; apply Hk; left).
  rewrite IH; [reflexivity | intros H; apply Hk; right; exact H].
Qed.

Lemma removeOne_notin (k : SigKey) (l : list SigKey) : k ∉ l -> removeOne k l = l.
Proof.
  induction l as [|x l IH]; intros Hk; simpl; [reflexivity |].
  rewrite decide_False by (intros ->; apply Hk; left).
  rewrite IH; [reflexivity | intros H; apply Hk; right; exact H].
Qed.

Lemma elem_of_filter_neq (w u : Uuid) (A : list Uuid) :
  w ∈ List.filter (fun x => negb (x =? u)) A <-> w ∈ A /\ w <> u.
Proof.
  rewrite !list_elem_of_In, filter_In, negb_true_iff, Nat.eqb_neq. tauto.
Qed.

Lemma filter_neq_notin (u : Uuid) (A : list Uuid) :
  u ∉ A -> List.filter (fun x => negb (x =? u)) A = A.
Proof.
  induction A as [|a A IH]; intros Hu; simpl; [reflexivity |].
  destruct (Nat.eqb_spec a u) as [-> | _]; [destruct Hu; left |].
  simpl. rewrite IH; [reflexivity | intros H; apply Hu; right; exact H].
Qed.

Lemma filter_neq_unchanged (p : Uuid -> bool) (u : Uuid) (A : list Uuid) :
  p u = false -> List.filter p (List.filter (fun x => negb (x =? u)) A) = List.filter p A.
Proof.
  intros Hp. induction A as [|a A IH]; simpl; [reflexivity |].
  destruct (Nat.eqb_spec a u) as [-> | _]; simpl; [rewrite Hp; exact IH |].
  destruct (p a); [f_equal |]; exact IH.
Qed.

Lemma removeOne_map_filter (c : Uuid) (p : Uuid -> bool) (u : Uuid) (A : list Uuid) :
  NoDup A ->
  removeOne (c, u) (map (fun w => (c, w)) (List.filter p A))
  = map (fun w => (c, w)) (List.filter p (List.filter (fun x => negb (x =? u)) A)).
Proof.
  induction A as [|a A IH]; intros Hnd; simpl; [reflexivity |].
  apply NoDup_cons in Hnd as [Ha Hnd].
  destruct (Nat.eqb_spec a u) as [-> | Hne]; simpl.
  - rewrite filter_neq_notin by exact Ha.
    destruct (p u); simpl; [rewrite decide_True by reflexivity; reflexivity |].
    apply removeOne_notin. rewrite list_elem_of_In, in_map_iff.
    intros (w & Hw & Hin). injection Hw as ->. apply filter_In in Hin as [Hin _].
    apply Ha, list_elem_of_In, Hin.
  - destruct (p a); simpl; [| exact (IH Hnd)].
    rewrite decide_False by congruence. rewrite IH by exact Hnd. reflexivity.
Qed.

Lemma list_nil_no_elem {A} (l : list A) : (forall x, x ∉ l) -> l = [].
Proof. destruct l as [|x l]; [reflexivity | intros H; destruct (H x); left]. Qed.

Section AddRemove.
Variable pav : string -> string -> option string.
Variable rv : (string -> string -> option string) -> string -> string.

Local Abbreviation upd := (csi_updateErcMessages pav rv).

Lemma Added_nil t0 : Added pav rv t0 [] t0.
Proof.
  constructor; [constructor | reflexivity | reflexivity | reflexivity | reflexivity | | |].
  - intros u. unfold sigs_added. rewrite bool_decide_false by apply not_elem_of_nil. reflexivity.
  - intros n. destruct (st_nets t0 !! n) as [ns|]; [| reflexivity].
    unfold net_added. simpl. rewrite app_nil_r, netSignal_eta. reflexivity.
  - intros u Hu. inversion Hu.
Qed.

(** Nothing added: the signal instances and net signals of [t0]. *)
Lemma Added_nil_eq t0 t :
  Added pav rv t0 [] t -> st_nets t = st_nets t0 /\ ci_signals (st_cmp t) = ci_signals (st_cmp t0).
Proof.
  intros HA. split; apply map_eq.
  - intros n. rewrite (ad_nets _ _ _ _ _ HA n). destruct (st_nets t0 !! n) as [ns|]; [| reflexivity].
    unfold net_added. simpl. rewrite app_nil_r, netSignal_eta. reflexivity.
  - intros u. rewrite (ad_sigs _ _ _ _ _ HA u). unfold sigs_added.
    rewrite bool_decide_false by apply not_elem_of_nil. reflexivity.
Qed.

Lemma Added_cmp t0 A t c' :
  Added pav rv t0 A t ->
  ci_name c' = ci_name (st_cmp t) -> ci_value c' = ci_value (st_cmp t) ->
  ci_attributes c' = ci_attributes (st_cmp t) -> ci_uuid c' = ci_uuid (st_cmp t) ->
  ci_signals c' = ci_signals (st_cmp t) ->
  Added pav rv t0 A (mkState (st_nets t) c').
Proof.
  intros HA Hn Hv Ha Hu Hs. constructor; simpl.
  - exact (ad_nodup _ _ _ _ _ HA).
  - rewrite Hn. exact (ad_name _ _ _ _ _ HA).
  - rewrite Hv. exact (ad_value _ _ _ _ _ HA).
  - rewrite Ha. exact (ad_attributes _ _ _ _ _ HA).
  - rewrite Hu. exact (ad_uuid _ _ _ _ _ HA).
  - rewrite Hs. exact (ad_sigs _ _ _ _ _ HA).
  - exact (ad_nets _ _ _ _ _ HA).
  - exact (ad_orig _ _ _ _ _ HA).
Qed.

Lemma Added_add t0 A t u x t1 :
  Added pav rv t0 A t -> u ∉ A -> csi_addToCircuit pav rv u t = (Ok x, t1) ->
  Added pav rv t0 (A ++ [u]) t1.
Proof.
  intros HA HuA. unfold csi_addToCircuit. rewrite bind_csi_get, (ad_sigs _ _ _ _ _ HA u).
  unfold sigs_added at 1. rewrite bool_decide_false by exact HuA.
  destruct (ci_signals (st_cmp t0) !! u) as [sg|] eqn:Hu0; [| discriminate].
  rewrite bind_cmp_get. cbn beta.
  destruct (si_added sg || csi_isUsed sg) eqn:Hfree; [discriminate |].
  apply orb_false_iff in Hfree as [Hadded Hused].
  unfold sigKey. rewrite (ad_uuid _ _ _ _ _ HA).
  assert (Hnd : NoDup (A ++ [u])).
  { apply NoDup_app. split; [exact (ad_nodup _ _ _ _ _ HA) |]. split; [| apply NoDup_singleton].
    intros w Hw Hw'. apply list_elem_of_singleton in Hw'. subst w. contradiction. }
  assert (Hsig : forall w, w <> u -> sigs_added pav rv t0 (A ++ [u]) w = sigs_added pav rv t0 A w).
  { intros w Hne. unfold sigs_added.
    replace (bool_decide (w ∈ A ++ [u])) with (bool_decide (w ∈ A)); [reflexivity |].
    apply bool_decide_ext.
    rewrite elem_of_app, list_elem_of_singleton. tauto. }
  assert (Horig : forall w, w ∈ A ++ [u] -> w ∈ A \/ w = u).
  { intros w Hw. apply elem_of_app in Hw as [Hw | Hw]; [left; exact Hw |].
    right. apply list_elem_of_singleton in Hw. exact Hw. }
  destruct (si_net sg) as [n|] eqn:Hn.
  - unfold bind at 1. unfold registerComponentSignal at 1. rewrite (ad_nets _ _ _ _ _ HA n).
    destruct (st_nets t0 !! n) as [ns0|] eqn:Hns0; [| discriminate].
    case_decide as Hk; [discriminate |].
    cbn iota beta. rewrite put_update_eq. intros H. injection H as _ <-.
    assert (Hb : bound_to (st_cmp t0) n u = true).
    { unfold bound_to. rewrite Hu0, Hn. apply bool_decide_true. reflexivity. }
    constructor; cbn [st_cmp st_nets ci_signals ci_with_signals].
    + exact Hnd.
    + exact (ad_name _ _ _ _ _ HA).
    + exact (ad_value _ _ _ _ _ HA).
    + exact (ad_attributes _ _ _ _ _ HA).
    + exact (ad_uuid _ _ _ _ _ HA).
    + intros w. destruct (decide (w = u)) as [-> | Hne].
      * rewrite lookup_insert_eq. unfold sigs_added.
        rewrite bool_decide_true by (apply elem_of_app; right; left). rewrite Hu0. f_equal.
        apply upd_frame; [exact (ad_name _ _ _ _ _ HA) | exact (ad_value _ _ _ _ _ HA)
          | exact (ad_attributes _ _ _ _ _ HA) |].
        intros n' Hn'. cbn [si_net csi_with_added] in Hn'. rewrite Hn in Hn'. injection Hn' as <-.
        unfold netName. rewrite lookup_insert_eq, Hns0. reflexivity.
      * rewrite lookup_insert_ne by congruence. rewrite Hsig by exact Hne. exact (ad_sigs _ _ _ _ _ HA w).
    + intros n'. destruct (decide (n' = n)) as [-> | Hne].
      * rewrite lookup_insert_eq, Hns0. f_equal. unfold net_added. cbn [ns_name ns_signals].
        f_equal. rewrite List.filter_app, map_app, app_assoc. cbn [List.filter]. rewrite Hb. reflexivity.
      * rewrite lookup_insert_ne by congruence. rewrite (ad_nets _ _ _ _ _ HA n').
        destruct (st_nets t0 !! n') as [ns'|]; [| reflexivity]. f_equal. unfold net_added.
        rewrite List.filter_app. cbn [List.filter].
        replace (bound_to (st_cmp t0) n' u) with false; [rewrite app_nil_r; reflexivity |].
        unfold bound_to. rewrite Hu0, Hn. symmetry. apply bool_decide_false. congruence.
    + intros w Hw. apply Horig in Hw as [Hw | ->]; [exact (ad_orig _ _ _ _ _ HA w Hw) |].
      exists sg. split; [exact Hu0 |]. split; [exact Hadded |]. split; [exact Hused |].
      intros n' Hn'. rewrite Hn in Hn'. injection Hn' as <-. exists ns0. split; [exact Hns0 |].
      intros Hin. apply Hk. unfold net_added. cbn [ns_signals]. apply elem_of_app. left. exact Hin.
  - rewrite bind_ret_l, put_update_eq. intros H. injection H as _ <-.
    constructor; cbn [st_cmp st_nets ci_signals ci_with_signals].
    + exact Hnd.
    + exact (ad_name _ _ _ _ _ HA).
    + exact (ad_value _ _ _ _ _ HA).
    + exact (ad_attributes _ _ _ _ _ HA).
    + exact (ad_uuid _ _ _ _ _ HA).
    + intros w. destruct (decide (w = u)) as [-> | Hne].
      * rewrite lookup_insert_eq. unfold sigs_added.
        rewrite bool_decide_true by (apply elem_of_app; right; left). rewrite Hu0. f_equal.
        apply upd_frame; [exact (ad_name _ _ _ _ _ HA) | exact (ad_value _ _ _ _ _ HA)
          | exact (ad_attributes _ _ _ _ _ HA) |].
        intros n' Hn'. cbn [si_net csi_with_added] in Hn'. congruence.
      * rewrite lookup_insert_ne by congruence. rewrite Hsig by exact Hne. exact (ad_sigs _ _ _ _ _ HA w).
    + intros n'. rewrite (ad_nets _ _ _ _ _ HA n').
      destruct (st_nets t0 !! n') as [ns'|]; [| reflexivity]. f_equal. unfold net_added.
      rewrite List.filter_app. cbn [List.filter].
      replace (bound_to (st_cmp t0) n' u) with false; [rewrite app_nil_r; reflexivity |].
      unfold bound_to. rewrite Hu0, Hn. symmetry. apply bool_decide_false. congruence.
    + intros w Hw. apply Horig in Hw as [Hw | ->]; [exact (ad_orig _ _ _ _ _ HA w Hw) |].
      exists sg. split; [exact Hu0 |]. split; [exact Hadded |]. split; [exact Hused |].
      intros n' Hn'. congruence.
Qed.

Lemma Added_remove t0 A t u :
  Wf pav rv t0 -> Added pav rv t0 A t -> u ∈ A ->
  exists t1, csi_removeFromCircuit pav rv u t = (Ok tt, t1) /\
             Added pav rv t0 (List.filter (fun x => negb (x =? u)) A) t1.
Proof.
  intros W HA HuA. destruct (ad_orig _ _ _ _ _ HA u HuA) as (sg & Hu0 & Hadded & Hused & Hnet).
  unfold csi_removeFromCircuit. rewrite bind_csi_get, (ad_sigs _ _ _ _ _ HA u).
  unfold sigs_added at 1. rewrite bool_decide_true by exact HuA. rewrite Hu0.
  rewrite bind_cmp_get. cbn beta. rewrite upd_added. cbn [si_added csi_with_added negb].
  replace (csi_isUsed (upd (st_nets t0) (st_cmp t0) (csi_with_added sg true))) with false
    by (rewrite <- Hused; reflexivity).
  rewrite upd_net. cbn [si_net csi_with_added].
  unfold sigKey. rewrite (ad_uuid _ _ _ _ _ HA).
  pose proof (ad_nodup _ _ _ _ _ HA) as HndA.
  assert (Hnd : NoDup (List.filter (fun x => negb (x =? u)) A)) by (apply NoDup_ListNoDup, List.NoDup_filter, NoDup_ListNoDup; exact HndA).
  assert (Hsig : forall w, w <> u ->
    sigs_added pav rv t0 (List.filter (fun x => negb (x =? u)) A) w = sigs_added pav rv t0 A w).
  { intros w Hne. unfold sigs_added.
    replace (bool_decide (w ∈ List.filter (fun x => negb (x =? u)) A)) with (bool_decide (w ∈ A));
      [reflexivity |].
    apply bool_decide_ext. rewrite elem_of_filter_neq. tauto. }
  assert (Hsu : sigs_added pav rv t0 (List.filter (fun x => negb (x =? u)) A) u = Some sg).
  { unfold sigs_added. rewrite bool_decide_false by (rewrite elem_of_filter_neq; tauto). exact Hu0. }
  assert (Hback : forall nets' c', ci_name c' = ci_name (st_cmp t0) -> ci_value c' = ci_value (st_cmp t0) ->
      ci_attributes c' = ci_attributes (st_cmp t0) ->
      (forall n, si_net sg = Some n -> netName nets' n = netName (st_nets t0) n) ->
      upd nets' c' (csi_with_added (upd (st_nets t0) (st_cmp t0) (csi_with_added sg true)) false) = sg).
  { intros nets' c' Hn Hv Ha Hnn.
    transitivity (upd (st_nets t0) (st_cmp t0) sg); [| exact (wf_erc_sig _ _ _ W u sg Hu0)].
    transitivity (upd nets' c' sg).
    - apply upd_same_fields; [reflexivity | rewrite Hadded; reflexivity | reflexivity | reflexivity | reflexivity].
    - apply upd_frame; assumption. }
  assert (Horig : forall w, w ∈ List.filter (fun x => negb (x =? u)) A -> w ∈ A).
  { intros w Hw. apply elem_of_filter_neq in Hw. tauto. }
  destruct (si_net sg) as [n|] eqn:Hn.
  - destruct (Hnet n eq_refl) as (ns0 & Hns0 & Hk0).
    assert (Hb : bound_to (st_cmp t0) n u = true).
    { unfold bound_to. rewrite Hu0, Hn. apply bool_decide_true. reflexivity. }
    unfold bind at 1. unfold unregisterComponentSignal at 1. rewrite (ad_nets _ _ _ _ _ HA n), Hns0.
    rewrite decide_True.
    2:{ unfold net_added. cbn [ns_signals]. apply elem_of_app. right.
        apply list_elem_of_In, in_map_iff. exists u. split; [reflexivity |].
        apply filter_In. split; [apply list_elem_of_In; exact HuA | exact Hb]. }
    cbn iota beta. rewrite put_update_eq. eexists. split; [reflexivity |].
    constructor; cbn [st_cmp st_nets ci_signals ci_with_signals].
    + exact Hnd.
    + exact (ad_name _ _ _ _ _ HA).
    + exact (ad_value _ _ _ _ _ HA).
    + exact (ad_attributes _ _ _ _ _ HA).
    + exact (ad_uuid _ _ _ _ _ HA).
    + intros w. destruct (decide (w = u)) as [-> | Hne].
      * rewrite lookup_insert_eq, Hsu. f_equal.
        apply Hback; [exact (ad_name _ _ _ _ _ HA) | exact (ad_value _ _ _ _ _ HA)
          | exact (ad_attributes _ _ _ _ _ HA) |].
        intros n' Hn'. injection Hn' as <-.
        unfold netName. rewrite lookup_insert_eq, Hns0. reflexivity.
      * rewrite lookup_insert_ne by congruence. rewrite Hsig by exact Hne. exact (ad_sigs _ _ _ _ _ HA w).
    + intros n'. destruct (decide (n' = n)) as [-> | Hne].
      * rewrite lookup_insert_eq, Hns0. f_equal. unfold net_added. cbn [ns_name ns_signals].
        f_equal. rewrite removeOne_app_l by exact Hk0. f_equal.
        apply removeOne_map_filter. exact HndA.
      * rewrite lookup_insert_ne by congruence. rewrite (ad_nets _ _ _ _ _ HA n').
        destruct (st_nets t0 !! n') as [ns'|]; [| reflexivity]. f_equal. unfold net_added.
        rewrite filter_neq_unchanged; [reflexivity |].
        unfold bound_to. rewrite Hu0, Hn. apply bool_decide_false. congruence.
    + intros w Hw. exact (ad_orig _ _ _ _ _ HA w (Horig w Hw)).
  - rewrite bind_ret_l, put_update_eq. eexists. split; [reflexivity |].
    constructor; cbn [st_cmp st_nets ci_signals ci_with_signals].
    + exact Hnd.
    + exact (ad_name _ _ _ _ _ HA).
    + exact (ad_value _ _ _ _ _ HA).
    + exact (ad_attributes _ _ _ _ _ HA).
    + exact (ad_uuid _ _ _ _ _ HA).
    + intros w. destruct (decide (w = u)) as [-> | Hne].
      * rewrite lookup_insert_eq, Hsu. f_equal.
        apply Hback; [exact (ad_name _ _ _ _ _ HA) | exact (ad_value _ _ _ _ _ HA)
          | exact (ad_attributes _ _ _ _ _ HA) |].
        intros n' Hn'. discriminate.
      * rewrite lookup_insert_ne by congruence. rewrite Hsig by exact Hne. exact (ad_sigs _ _ _ _ _ HA w).
    + intros n'. rewrite (ad_nets _ _ _ _ _ HA n').
      destruct (st_nets t0 !! n') as [ns'|]; [| reflexivity]. f_equal. unfold net_added.
      rewrite filter_neq_unchanged; [reflexivity |].
      unfold bound_to. rewrite Hu0, Hn. apply bool_decide_false. congruence.
    + intros w Hw. exact (ad_orig _ _ _ _ _ HA w (Horig w Hw)).
Qed.

Lemma addSignals_Added t0 us : forall A t sgl sgl' t',
  Added pav rv t0 A t -> NoDup us -> (forall w, w ∈ us -> w ∉ A) ->
  cmp_addSignals pav rv us sgl t = (Ok sgl', t') -> Added pav rv t0 (A ++ us) t'.
Proof.
  induction us as [|u us IH]; intros A t sgl sgl' t' HA Hnd Hdis H; simpl in H.
  - injection H as _ <-. rewrite app_nil_r. exact HA.
  - rewrite bind_guarded in H.
    destruct (csi_addToCircuit pav rv u t) as [[x|e] t1] eqn:Ha; [| discriminate].
    apply NoDup_cons in Hnd as [Hu Hnd].
    pose proof (Added_add _ _ _ _ _ _ HA (Hdis u (proj2 (elem_of_cons _ _ _) (or_introl eq_refl))) Ha) as HA1.
    replace (A ++ u :: us) with ((A ++ [u]) ++ us) by (rewrite <- app_assoc; reflexivity).
    eapply IH; [exact HA1 | exact Hnd | | exact H].
    intros w Hw Hw'. apply elem_of_app in Hw' as [Hw' | Hw'].
    + apply (Hdis w); [apply elem_of_cons; right; exact Hw | exact Hw'].
    + apply list_elem_of_singleton in Hw'. subst w. contradiction.
Qed.

Lemma removeSignals_Added t0 us : forall A t sgl,
  Wf pav rv t0 -> Added pav rv t0 A t -> NoDup us -> (forall w, w ∈ us -> w ∈ A) ->
  exists sgl' A' t', cmp_removeSignals pav rv us sgl t = (Ok sgl', t') /\ Added pav rv t0 A' t' /\
    forall w, w ∈ A' <-> w ∈ A /\ w ∉ us.
Proof.
  induction us as [|u us IH]; intros A t sgl W HA Hnd Hsub; simpl.
  - exists sgl, A, t. split; [reflexivity |]. split; [exact HA |].
    intros w. split; [intros Hw; split; [exact Hw | apply not_elem_of_nil] | tauto].
  - rewrite bind_guarded. apply NoDup_cons in Hnd as [Hu Hnd].
    destruct (Added_remove _ _ _ u W HA (Hsub u (proj2 (elem_of_cons _ _ _) (or_introl eq_refl))))
      as (t1 & Hr & HA1).
    rewrite Hr.
    destruct (IH _ _ (csi_addToCircuit pav rv u :: sgl) W HA1 Hnd) as (sgl' & A' & t' & Hrun & HA' & Hmem).
    { intros w Hw. apply elem_of_filter_neq. split; [apply Hsub; right; exact Hw |].
      intros ->. contradiction. }
    exists sgl', A', t'. split; [exact Hrun |]. split; [exact HA' |].
    intros w. rewrite Hmem, elem_of_filter_neq, elem_of_cons. tauto.
Qed.

Lemma signalUuids_sound c v : v ∈ cmp_signalUuids c -> is_Some (ci_signals c !! v).
Proof.
  unfold cmp_signalUuids. rewrite list_elem_of_In, in_map_iff.
  intros ([k sg] & Hk & Hin). simpl in Hk. subst k.
  apply list_elem_of_In, elem_of_map_to_list in Hin. exists sg. exact Hin.
Qed.

Lemma ci_core_with_added c b : ci_core (ci_with_added c b) = ci_with_added (ci_core c) b.
Proof. destruct c; reflexivity. Qed.

(** X10: a successful [addToCircuit] is undone by [removeFromCircuit]: the
    removal succeeds and gives back exactly the state before the addition,
    with the net signals' registration lists as they were. *)
Theorem addToCircuit_removeFromCircuit_roundtrip s s1 :
  reachable pav rv s -> cmp_addToCircuit pav rv s = (Ok tt, s1) ->
  cmp_removeFromCircuit pav rv s1 = (Ok tt, s).
Proof.
  intros R Hadd.
  pose proof (reachable_Wf pav rv s R) as W.
  pose proof (inv_erc _ (reachable_CmpInv pav rv s R)) as He.
  unfold cmp_addToCircuit in Hadd. rewrite bind_cmp_get in Hadd. cbn beta in Hadd.
  destruct (ci_added (st_cmp s) || cmp_isUsed (st_cmp s)) eqn:Hfree; [discriminate |].
  apply orb_false_iff in Hfree as [Hadded0 Hused0].
  destruct (cmp_addSignals pav rv (cmp_signalUuids (st_cmp s)) [] s) as [[sgl|e] t] eqn:Hsig.
  2:{ rewrite (bind_eq _ _ _ _ _ Hsig) in Hadd. discriminate. }
  rewrite (bind_eq _ _ _ _ _ Hsig), modify_update_eq in Hadd. injection Hadd as <-.
  pose proof (Keeps_addSignals pav rv (cmp_signalUuids (st_cmp s)) [] (List.Forall_nil _) s) as Kt.
  rewrite Hsig in Kt. destruct Kt as [Hcore_t _]. cbn [snd] in Hcore_t.
  pose proof (addSignals_Added s _ [] s [] sgl t (Added_nil s) (NoDup_fst_map_to_list _)
                (fun w _ => not_elem_of_nil w) Hsig) as HA. simpl in HA.
  remember (cmp_updateErcMessages (ci_with_added (st_cmp t) true)) as c1 eqn:Hc1.
  assert (Hs1 : ci_signals c1 = ci_signals (st_cmp t)) by (subst c1; destruct (st_cmp t); reflexivity).
  assert (HA1 : Added pav rv s (cmp_signalUuids (st_cmp s)) (mkState (st_nets t) c1)).
  { apply Added_cmp; [exact HA | subst c1; destruct (st_cmp t); reflexivity ..]. }
  assert (Hin1 : forall w, w ∈ cmp_signalUuids c1 <-> w ∈ cmp_signalUuids (st_cmp s)).
  { intros w. split; intros Hw.
    - apply signalUuids_sound in Hw. rewrite Hs1, (ad_sigs _ _ _ _ _ HA w) in Hw. unfold sigs_added in Hw.
      case_bool_decide as Hk; [exact Hk |]. apply signalUuids_complete. exact Hw.
    - apply signalUuids_complete. rewrite Hs1, (ad_sigs _ _ _ _ _ HA w). unfold sigs_added.
      rewrite bool_decide_true by exact Hw.
      destruct (signalUuids_sound _ _ Hw) as [sg Hsg]. rewrite Hsg. eexists. reflexivity. }
  unfold cmp_removeFromCircuit. rewrite bind_cmp_get. cbn [st_cmp st_nets].
  replace (ci_added c1) with true by (subst c1; reflexivity). cbn [negb].
  replace (cmp_isUsed c1) with false.
  2:{ symmetry. unfold cmp_isUsed. apply orb_false_iff. split.
      - unfold cmp_isUsed in Hused0. apply orb_false_iff in Hused0 as [Hcnt _].
        rewrite <- Hcnt. unfold cmp_getRegisteredElementsCount.
        rewrite <- (core_symbols _ _ Hcore_t), <- (core_devices _ _ Hcore_t).
        subst c1. reflexivity.
      - apply not_true_iff_false. intros Hex. apply existsb_exists in Hex as [[k sg'] [Hin Hu]].
        apply list_elem_of_In, elem_of_map_to_list in Hin.
        rewrite Hs1, (ad_sigs _ _ _ _ _ HA k) in Hin. unfold sigs_added in Hin.
        case_bool_decide as Hk.
        + destruct (ad_orig _ _ _ _ _ HA k Hk) as (sg & Hk0 & _ & Hused & _).
          rewrite Hk0 in Hin. injection Hin as <-. cbn [snd] in Hu.
          change (csi_isUsed sg = true) in Hu. congruence.
        + apply Hk, signalUuids_complete. exists sg'. exact Hin. }
  cbn iota.
  destruct (removeSignals_Added s (cmp_signalUuids c1) _ _ [] W HA1 (NoDup_fst_map_to_list _)
              (fun w Hw => proj1 (Hin1 w) Hw)) as (sgl' & A' & t2 & Hrun & HA2 & Hmem).
  rewrite (bind_eq _ _ _ _ _ Hrun), modify_update_eq.
  replace A' with (@nil Uuid) in HA2.
  2:{ symmetry. apply list_nil_no_elem. intros w Hw. apply Hmem in Hw as [Hw Hw'].
      apply Hw', Hin1, Hw. }
  destruct (Added_nil_eq _ _ HA2) as [Hnets2 Hsigs2].
  pose proof (Keeps_removeSignals pav rv (cmp_signalUuids c1) [] (List.Forall_nil _) (mkState (st_nets t) c1)) as K2.
  rewrite Hrun in K2. destruct K2 as [Hcore2 _]. cbn [st_cmp snd] in Hcore2.
  rewrite Hnets2. f_equal.
  transitivity (mkState (st_nets s) (st_cmp s)); [| apply state_eta]. f_equal.
  rewrite <- (ci_core_eta (st_cmp t2)), Hcore2, Hsigs2, Hc1, ci_core_upd, ci_core_with_added, Hcore_t.
  transitivity (cmp_updateErcMessages (st_cmp s)); [| exact He].
  destruct (st_cmp s). cbn [ci_added] in Hadded0. subst. reflexivity.
Qed.

End AddRemove.

(* ------------------------------------------------------------------ *)
(** ** The component name stays valid *)

Section NameInvariant.
Variable pav : string -> string -> option string.
Variable rv : (string -> string -> option string) -> string -> string.

Local Abbreviation Keeps := (Keeps pav rv).

Lemma name_ok_keeps {A} (m : M A) s :
  Keeps m -> ci_name (st_cmp s) <> "" -> ci_name (st_cmp (snd (m s))) <> "".
Proof. intros Hk Hn. destruct (Hk s) as (Hc & _). rewrite (core_name _ _ Hc). exact Hn. Qed.

Lemma name_ok_bind_keeps {A B} (m : M A) (k : A -> M B) s :
  Keeps m ->
  (forall a s1, ci_name (st_cmp s1) = ci_name (st_cmp s) -> ci_name (st_cmp (snd (k a s1))) <> "") ->
  ci_name (st_cmp s) <> "" -> ci_name (st_cmp (snd (bind m k s))) <> "".
Proof.
  intros Hm Hk Hn. unfold bind. destruct (Hm s) as (Hc & _).
  destruct (m s) as [[a|e] s1]; simpl in Hc |- *.
  - apply (Hk a). exact (core_name _ _ Hc).
  - rewrite (core_name _ _ Hc). exact Hn.
Qed.

Lemma name_updateAll us s : ci_name (st_cmp (snd (csi_updateAll pav rv us s))) = ci_name (st_cmp s).
Proof.
  destruct (updateAll_spec pav rv us s) as (c' & -> & Hc & _). exact (core_name _ _ Hc).
Qed.

Lemma name_emit s : ci_name (st_cmp (snd (cmp_emitAttributesChanged pav rv s))) = ci_name (st_cmp s).
Proof. unfold cmp_emitAttributesChanged. rewrite bind_cmp_get. apply name_updateAll. Qed.

Lemma name_ok_run_op op s :
  ci_name (st_cmp s) <> "" -> ci_name (st_cmp (snd (run_op pav rv op s))) <> "".
Proof.
  intros Hn. destruct op; simpl.
  - unfold cmp_addToCircuit. rewrite bind_cmp_get. cbn beta.
    destruct (_ || _); [exact Hn |].
    apply name_ok_bind_keeps; [apply Keeps_addSignals; constructor | | exact Hn].
    intros sgl s1 Hs1. rewrite modify_update_eq. rewrite <- Hs1 in Hn. exact Hn.
  - unfold cmp_removeFromCircuit. rewrite bind_cmp_get. cbn beta.
    destruct (negb _); [exact Hn |]. destruct (cmp_isUsed _); [exact Hn |].
    apply name_ok_bind_keeps; [apply Keeps_removeSignals; constructor | | exact Hn].
    intros sgl s1 Hs1. rewrite modify_update_eq. rewrite <- Hs1 in Hn. exact Hn.
  - unfold cmp_registerSymbol. rewrite bind_cmp_get. cbn beta. repeat case_match; exact Hn.
  - unfold cmp_unregisterSymbol. rewrite bind_cmp_get. cbn beta. repeat case_match; exact Hn.
  - unfold cmp_registerDevice. rewrite bind_cmp_get. cbn beta. repeat case_match; exact Hn.
  - unfold cmp_unregisterDevice. rewrite bind_cmp_get. cbn beta. repeat case_match; exact Hn.
  - unfold cmp_setName. rewrite bind_cmp_get. cbn beta.
    destruct (String.eqb name _); [exact Hn |].
    destruct (String.eqb name "") eqn:He; [exact Hn |].
    rewrite bind_modify. unfold cmp_update. rewrite bind_modify. rewrite name_emit.
    apply String.eqb_neq. exact He.
  - unfold cmp_setValue. rewrite bind_cmp_get. cbn beta.
    destruct (String.eqb value _); [exact Hn |].
    rewrite bind_modify, name_emit. exact Hn.
  - unfold cmp_setAttributes. rewrite bind_cmp_get. cbn beta.
    destruct (decide _); [exact Hn |].
    rewrite bind_modify, name_emit. exact Hn.
  - rewrite name_emit. exact Hn.
  - apply name_ok_keeps; [apply Keeps_setNetSignal | exact Hn].
  - apply name_ok_keeps; [apply Keeps_registerSymbolPin | exact Hn].
  - apply name_ok_keeps; [apply Keeps_unregisterSymbolPin | exact Hn].
  - apply name_ok_keeps; [apply Keeps_registerFootprintPad | exact Hn].
  - apply name_ok_keeps; [apply Keeps_unregisterFootprintPad | exact Hn].
  - apply name_ok_keeps; [apply Keeps_setPinNetPoint | exact Hn].
  - apply name_ok_keeps; [apply Keeps_setPadUsed | exact Hn].
  - unfold circuit_addNetSignal. destruct (st_nets s !! n); exact Hn.
  - unfold circuit_setNetSignalName. rewrite name_updateAll. exact Hn.
Qed.

(** X11: every reachable component instance has a non-empty name, so
    [serialize] never throws on it: it writes a node carrying that name. *)
Theorem reachable_serialize_ok s :
  reachable pav rv s ->
  exists d, cmp_serialize (st_cmp s) = Ok d /\ dom_name d = ci_name (st_cmp s) /\ dom_name d <> "".
Proof.
  intros R. assert (Hn : ci_name (st_cmp s) <> "").
  { induction R as [circuit uuid nets cmp symbVar name c Hc _ | circuit nets library d c Hd _
                   | s op r s' _ IH _ Hrun].
    - unfold cmp_new in Hc. repeat (case_match; try discriminate).
      unfold cmp_init in Hc. case_match eqn:Hv; [| discriminate]. injection Hc as <-.
      unfold cmp_checkAttributesValidity in Hv. apply negb_true_iff, String.eqb_neq in Hv. exact Hv.
    - unfold cmp_fromDom in Hd. repeat (case_match; try discriminate).
      unfold cmp_init in Hd. case_match eqn:Hv; [| discriminate]. injection Hd as <-.
      unfold cmp_checkAttributesValidity in Hv. apply negb_true_iff, String.eqb_neq in Hv. exact Hv.
    - replace s' with (snd (run_op pav rv op s)) by (rewrite Hrun; reflexivity).
      apply name_ok_run_op. exact IH. }
  unfold cmp_serialize, cmp_checkAttributesValidity.
  rewrite (proj2 (String.eqb_neq _ _) Hn). cbn [negb].
  eexists. split; [reflexivity |]. split; [reflexivity | exact Hn].
Qed.

End NameInvariant.

(* ------------------------------------------------------------------ *)
(** ** The further properties on the example component instance *)

Lemma unplacedSymbols_erc_current_witness :
  reachable Example.pav Example.rv Example.s1 /\
  erc_visible (ci_ercReq (st_cmp Example.s1)) = true.
Proof.
  split; [exact Example_s1_reachable |].
  destruct (unplacedSymbols_erc_current Example.pav Example.rv Example.s1 Example_s1_reachable) as [H _].
  rewrite H. vm_compute. reflexivity.
Defined.

Lemma unplacedSymbolsCount_sum_witness :
  reachable Example.pav Example.rv Example.tB2 /\
  NoDup (map item_uuid (var_items (ci_symbVar (st_cmp Example.tB2)))) /\
  size (ci_symbols (st_cmp Example.tB2)) = 1 /\
  length (var_items (ci_symbVar (st_cmp Example.tB2))) = 2 /\
  cmp_getUnplacedRequiredSymbolsCount (st_cmp Example.tB2) = 0 /\
  cmp_getUnplacedOptionalSymbolsCount (st_cmp Example.tB2) = 1 /\
  cmp_getUnplacedSymbolsCount (st_cmp Example.tB2) = 1%Z.
Proof.
  assert (Hnd : NoDup (map item_uuid (var_items (ci_symbVar (st_cmp Example.tB2)))))
    by (apply (bool_decide_unpack _); vm_compute; reflexivity).
  split; [exact Example_tB2_reachable |]. split; [exact Hnd |].
  split; [vm_compute; reflexivity |]. split; [vm_compute; reflexivity |].
  split; [vm_compute; reflexivity |]. split; [vm_compute; reflexivity |].
  rewrite (unplacedSymbolsCount_sum Example.pav Example.rv Example.tB2 Example_tB2_reachable Hnd).
  vm_compute. reflexivity.
Defined.

Lemma registerSymbol_unregisterSymbol_roundtrip_witness :
  reachable Example.pav Example.rv Example.s1 /\
  cmp_registerSymbol (mkSymbol 1 0 3 20) Example.s1 = (Ok tt, Example.s4) /\
  cmp_unregisterSymbol (mkSymbol 1 0 3 20) Example.s4 = (Ok tt, Example.s1).
Proof.
  assert (H : cmp_registerSymbol (mkSymbol 1 0 3 20) Example.s1 = (Ok tt, Example.s4))
    by (vm_compute; reflexivity).
  split; [exact Example_s1_reachable |]. split; [exact H |].
  exact (registerSymbol_unregisterSymbol_roundtrip Example.pav Example.rv Example.s1 Example.s4
           (mkSymbol 1 0 3 20) Example_s1_reachable H).
Defined.

Lemma registerDevice_unregisterDevice_roundtrip_witness :
  reachable Example.pav Example.rv Example.s1 /\
  cmp_registerDevice (mkDevice 1 0) Example.s1 = (Ok tt, Example.s3) /\
  cmp_unregisterDevice (mkDevice 1 0) Example.s3 = (Ok tt, Example.s1).
Proof.
  assert (H : cmp_registerDevice (mkDevice 1 0) Example.s1 = (Ok tt, Example.s3))
    by (vm_compute; reflexivity).
  split; [exact Example_s1_reachable |]. split; [exact H |].
  exact (registerDevice_unregisterDevice_roundtrip Example.pav Example.rv Example.s1 Example.s3
           (mkDevice 1 0) Example_s1_reachable H).
Defined.

Lemma registerSymbolPin_unregisterSymbolPin_roundtrip_witness :
  csi_registerSymbolPin 1 (mkSymbolPin 1 0 true) Example.s1 = (Ok tt, Example.s2) /\
  csi_unregisterSymbolPin 1 (mkSymbolPin 1 0 true) Example.s2 = (Ok tt, Example.s1).
Proof.
  assert (H : csi_registerSymbolPin 1 (mkSymbolPin 1 0 true) Example.s1 = (Ok tt, Example.s2))
    by (vm_compute; reflexivity).
  split; [exact H |].
  exact (registerSymbolPin_unregisterSymbolPin_roundtrip Example.s1 Example.s2 1 (mkSymbolPin 1 0 true) H).
Defined.

Lemma registerFootprintPad_unregisterFootprintPad_roundtrip_witness :
  let s' := snd (csi_registerFootprintPad 2 (mkFootprintPad 1 0 false) Example.s1) in
  csi_registerFootprintPad 2 (mkFootprintPad 1 0 false) Example.s1 = (Ok tt, s') /\
  csi_unregisterFootprintPad 2 (mkFootprintPad 1 0 false) s' = (Ok tt, Example.s1).
Proof.
  intros s'.
  assert (H : csi_registerFootprintPad 2 (mkFootprintPad 1 0 false) Example.s1 = (Ok tt, s'))
    by (vm_compute; reflexivity).
  split; [exact H |].
  exact (registerFootprintPad_unregisterFootprintPad_roundtrip Example.s1 s' 2 (mkFootprintPad 1 0 false) H).
Defined.

Lemma unconnectedSignal_erc_current_witness :
  reachable Example.pav Example.rv Example.s1 /\
  ci_signals (st_cmp Example.s1) !! 1 = Some (Example.signal Example.s1 1) /\
  erc_visible (si_ercUnconnected (Example.signal Example.s1 1)) = true.
Proof.
  assert (Hu : ci_signals (st_cmp Example.s1) !! 1 = Some (Example.signal Example.s1 1))
    by (vm_compute; reflexivity).
  split; [exact Example_s1_reachable |]. split; [exact Hu |].
  rewrite (unconnectedSignal_erc_current Example.pav Example.rv Example.s1 1 _ Example_s1_reachable Hu).
  vm_compute. reflexivity.
Defined.

Lemma serialize_fromDom_roundtrip_witness :
  exists d c', cmp_serialize (st_cmp Example.s_conflict) = Ok d
    /\ cmp_fromDom Example.pav Example.rv 1 Example.nets [Example.lib] d = Ok c'
    /\ si_net <$> ci_signals c' !! 1 = Some (Some 7).
Proof.
  set (c := st_cmp Example.s_conflict).
  assert (Hlib : find (fun l => lcmp_uuid l =? lcmp_uuid (ci_lib c)) [Example.lib] = Some (ci_lib c))
    by (vm_compute; reflexivity).
  assert (Hvar : find (fun v => var_uuid v =? var_uuid (ci_symbVar c)) (lcmp_variants (ci_lib c))
                 = Some (ci_symbVar c)) by (vm_compute; reflexivity).
  assert (Hsig : forall u sg, ci_signals c !! u = Some sg ->
     lsig_uuid (si_lib sg) = u
     /\ find (fun ls => lsig_uuid ls =? u) (lcmp_signals (ci_lib c)) = Some (si_lib sg)
     /\ (forall n, si_net sg = Some n -> is_Some (Example.nets !! n))).
  { apply (proj2 (map_Forall_to_list (fun u sg => lsig_uuid (si_lib sg) = u
        /\ find (fun ls => lsig_uuid ls =? u) (lcmp_signals (ci_lib c)) = Some (si_lib sg)
        /\ (forall n, si_net sg = Some n -> is_Some (Example.nets !! n))) (ci_signals c))).
    vm_compute.
    repeat constructor; intros n Hn; injection Hn as <-; vm_compute; eexists; reflexivity. }
  assert (Hsize : size (ci_signals c) = length (lcmp_signals (ci_lib c))) by (vm_compute; reflexivity).
  assert (Hser : cmp_serialize c = Ok (match cmp_serialize c with Ok d => d | Err _ => Example.dom end))
    by (vm_compute; reflexivity).
  destruct (serialize_fromDom_roundtrip Example.pav Example.rv c _ 1 Example.nets [Example.lib]
              Hlib Hvar Hsig Hsize Hser) as (c' & Hc' & _ & _ & _ & _ & _ & _ & _ & _ & _ & _ & Hnet & _).
  exists (match cmp_serialize c with Ok d => d | Err _ => Example.dom end), c'.
  split; [exact Hser |]. split; [exact Hc' |].
  etransitivity; [exact (proj2 (Hnet 1)) |]. vm_compute. reflexivity.
Defined.

Lemma Example_s_loaded_reachable : reachable Example.pav Example.rv Example.s_loaded.
Proof.
  apply (reachable_fromDom _ _ 0 Example.nets [Example.lib] Example.dom); [vm_compute; reflexivity |].
  change (fresh_component Example.nets 5). exact Example_nets_fresh.
Qed.

Lemma addToCircuit_removeFromCircuit_roundtrip_witness :
  reachable Example.pav Example.rv Example.s_loaded /\
  cmp_addToCircuit Example.pav Example.rv Example.s_loaded
    = (Ok tt, snd (cmp_addToCircuit Example.pav Example.rv Example.s_loaded)) /\
  ns_signals <$> st_nets (snd (cmp_addToCircuit Example.pav Example.rv Example.s_loaded)) !! 7 = Some [(5, 1)] /\
  cmp_removeFromCircuit Example.pav Example.rv (snd (cmp_addToCircuit Example.pav Example.rv Example.s_loaded))
    = (Ok tt, Example.s_loaded).
Proof.
  assert (H : cmp_addToCircuit Example.pav Example.rv Example.s_loaded
              = (Ok tt, snd (cmp_addToCircuit Example.pav Example.rv Example.s_loaded)))
    by (vm_compute; reflexivity).
  split; [exact Example_s_loaded_reachable |]. split; [exact H |].
  split; [vm_compute; reflexivity |].
  exact (addToCircuit_removeFromCircuit_roundtrip Example.pav Example.rv Example.s_loaded _
           Example_s_loaded_reachable H).
Defined.

Lemma reachable_serialize_ok_witness :
  reachable Example.pav Example.rv Example.s4 /\
  exists d, cmp_serialize (st_cmp Example.s4) = Ok d /\ dom_name d = "U1".
Proof.
  split; [exact Example_s4_reachable |].
  destruct (reachable_serialize_ok Example.pav Example.rv Example.s4 Example_s4_reachable) as (d & Hd & Hname & _).
  exists d. split; [exact Hd |]. rewrite Hname. vm_compute. reflexivity.
Defined.
